(** * GaussBot: the exact-rational [Matriz] class

    A shallow embedding of [gauss_bot/clases/matriz.py], of the
    matrix-vector product and the main menu of
    [gauss_bot/managers/main_manager.py] and of the main menu of
    [gauss_bot/menu.py], and the properties of their functions.  Python
    values are modelled as follows.

    - [Fraction] is [Qc], the canonical rationals of the Standard Library:
      numerator and denominator in lowest terms, so that Python's [==] on
      fractions is Leibniz equality and no operation rounds.
    - A Python [int] is a [Z]; [range] is a list of [Z].
    - A raised exception is a value [Lanza e] of the result type; a normal
      return is [Ok v].  Loops and generator expressions stop at the first
      exception.
    - The grid [valores] is a Python list whose elements are references to
      row objects.  It is modelled as a store of row objects together with
      the list of addresses held by the outer list, so that two positions
      holding the same row object (shared rows) are told apart from two
      positions holding equal rows.  Readers only see [vista]; the in-place
      updates of [hacer_triangular_superior] and [__mul__] go through the
      store.
    - An argument whose type the code inspects at run time is an [objeto].

    - A string is a [string]; the text of a fraction, Python's [int] on
      a line of input and [strip] are parameters of the functions that
      use them.
    - [input] reads from a list of lines, and a function that reads
      returns the lines it has left.

    The file has three parts: the embedding of the code, the definitions
    used to state its properties, and the properties themselves: lemmas,
    the claims [C1] to [C10], and further properties of the code. *)

From Stdlib Require Import QArith Qcanon Qcabs Ascii.
From stdpp Require Import base tactics option numbers list list_numbers strings.

Local Open Scope Z_scope.

(** ** Exceptions and results *)

Inductive excepcion : Set :=
  | IndexError
  | ArithmeticError
  | TypeError
  | ZeroDivisionError
  | ValueError.

Inductive resultado (A : Type) : Type :=
  | Ok (a : A)
  | Lanza (e : excepcion).
Arguments Ok {A} a.
Arguments Lanza {A} e.

#[global] Instance resultado_ret : MRet resultado := λ A a, Ok a.
#[global] Instance resultado_bind : MBind resultado := λ A B f r,
  match r with
  | Ok a => f a
  | Lanza e => Lanza e
  end.
#[global] Instance resultado_fmap : FMap resultado := λ A B f r,
  match r with
  | Ok a => Ok (f a)
  | Lanza e => Lanza e
  end.

Definition termina {A} (r : resultado A) : Prop := ∃ a, r = Ok a.

(** ** Python built-ins used by the class *)

Abbreviation Fraction := Qc (only parsing).

(** [range(a, b)] *)
Definition rango (a b : Z) : list Z := seqZ a (b - a).

(** [l[i]] on a Python list, with the wrap-around of negative indices. *)
Definition py_indice {A} (l : list A) (i : Z) : resultado A :=
  let n := Z.of_nat (length l) in
  let i' := if i <? 0 then i + n else i in
  if (i' <? 0) || (n <=? i') then Lanza IndexError
  else match l !! Z.to_nat i' with
       | Some x => Ok x
       | None => Lanza IndexError
       end.

(** [l[i] = x] on a Python list. *)
Definition py_asigna {A} (l : list A) (i : Z) (x : A) : resultado (list A) :=
  let n := Z.of_nat (length l) in
  let i' := if i <? 0 then i + n else i in
  if (i' <? 0) || (n <=? i') then Lanza IndexError
  else Ok (<[Z.to_nat i' := x]> l).

(** [for x in l: s = cuerpo(x, s)], stopping at the first exception. *)
Fixpoint para {S} (l : list Z) (cuerpo : Z → S → resultado S) (s : S)
  : resultado S :=
  match l with
  | [] => Ok s
  | x :: l' => s' ← cuerpo x s; para l' cuerpo s'
  end.

(** [all(p(x) for x in l)]: lazy, stops at the first false element. *)
Fixpoint py_all {A} (l : list A) (p : A → resultado bool) : resultado bool :=
  match l with
  | [] => Ok true
  | x :: l' => b ← p x; if (b : bool) then py_all l' p else Ok false
  end.

(** [max(l, key=key)]: the first element whose key is maximal; the keys are
    compared with [>]. *)
Definition py_max_key (l : list Z) (key : Z → resultado Fraction)
  : resultado Z :=
  match l with
  | [] => Lanza ValueError
  | x :: l' =>
      kx ← key x;
      fst <$> para l' (λ y (mejor : Z * Fraction),
                 ky ← key y;
                 Ok (if bool_decide (mejor.2 < ky)%Qc then (y, ky) else mejor))
              (x, kx)
  end.

(** [a / b] on fractions. *)
Definition py_div (a b : Fraction) : resultado Fraction :=
  if bool_decide (b = 0%Qc) then Lanza ZeroDivisionError else Ok (a / b)%Qc.

(** ** The grid: a list of references to row objects *)

Record rejilla : Type := Rejilla {
  objetos : nat → list Fraction;   (* the row object stored at each address *)
  refs : list nat                  (* the outer list: one address per row *)
}.

(** The nested list a reader of [valores] sees. *)
Definition vista (g : rejilla) : list (list Fraction) :=
  objetos g <$> refs g.

(** A freshly built list of lists: every row is an object of its own. *)
Definition rejilla_nueva (l : list (list Fraction)) : rejilla :=
  {| objetos := λ a, default [] (l !! a); refs := seq 0 (length l) |}.

(** [g[j][k]] *)
Definition leer (g : rejilla) (j k : Z) : resultado Fraction :=
  a ← py_indice (refs g) j; py_indice (objetos g a) k.

(** [obj[k] = v] where [obj] is the row object at address [a]. *)
Definition escribir_obj (g : rejilla) (a : nat) (k : Z) (v : Fraction)
  : resultado rejilla :=
  fila ← py_asigna (objetos g a) k v;
  Ok {| objetos := λ b, if decide (b = a) then fila else objetos g b;
        refs := refs g |}.

(** [g[j][k] = v] *)
Definition escribir (g : rejilla) (j k : Z) (v : Fraction)
  : resultado rejilla :=
  a ← py_indice (refs g) j; escribir_obj g a k v.

(** [deepcopy(valores)]: a copy disjoint from the original, with the same
    shape and the same sharing between its rows ([deepcopy] copies an object
    met twice only once).  Grids are values here, so the copy is the grid
    itself. *)
Definition deepcopy (g : rejilla) : rejilla := g.

(** ** The class *)

(** [[Fraction(0) for _ in range(c)] for _ in range(f)] *)
Definition ceros (f c : Z) : list (list Fraction) :=
  (λ _, (λ _, 0%Qc) <$> rango 0 c) <$> rango 0 f.

Record Matriz : Type := MkMatriz {
  aumentada : bool;
  filas : Z;
  columnas : Z;
  valores : rejilla
}.

(** [Matriz(aumentada, filas, columnas, valores=None)] *)
Definition __init__ (aum : bool) (f c : Z) (v : option rejilla) : Matriz :=
  match v with
  | None =>
      MkMatriz aum f c (rejilla_nueva (ceros f c))
  | Some g => MkMatriz aum f c g
  end.

(** *** Dynamically typed arguments *)

(** What a caller may pass where the code inspects the type at run time. *)
Inductive objeto : Type :=
  | ObjMatriz (m : Matriz)
  | ObjFraction (x : Fraction)
  | ObjInt (z : Z)
  | ObjTupla (t : list Z)
  | ObjNone.

(** [isinstance(o, Matriz)] *)
Definition es_instancia_Matriz (o : objeto) : bool :=
  match o with ObjMatriz _ => true | _ => false end.

(** What [__getitem__] returns: a row or one entry. *)
Inductive acceso : Type :=
  | Fila (l : list Fraction)
  | Elemento (x : Fraction).

(** *** [__getitem__] and [__setitem__] *)

Definition __getitem__ (self : Matriz) (indice : objeto) : resultado acceso :=
  match indice with
  | ObjInt indice =>
      if (indice <? 0) || (filas self <=? indice) then Lanza IndexError
      else Fila <$> py_indice (vista (valores self)) indice
  | ObjTupla [fila; columna] =>
      if (filas self <=? fila) || (columnas self <=? columna)
      then Lanza IndexError
      else Elemento <$> leer (valores self) fila columna
  | _ => Lanza TypeError
  end.

Definition __setitem__ (self : Matriz) (fila columna : Z) (valor : Fraction)
  : resultado Matriz :=
  if (fila <? 0) || (columna <? 0) || (filas self <=? fila)
     || (columnas self <=? columna)
  then Lanza IndexError
  else
    g ← escribir (valores self) fila columna valor;
    Ok (MkMatriz (aumentada self) (filas self) (columnas self) g).

(** *** [__eq__] *)

(** [all(a == b for fila1, fila2 in zip(v1, v2) for a, b in zip(fila1, fila2))] *)
Definition todos_iguales (v1 v2 : list (list Fraction)) : bool :=
  forallb (λ ab : Fraction * Fraction, bool_decide (ab.1 = ab.2))
    (ff ← zip v1 v2; zip ff.1 ff.2).

Definition __eq__ (self : Matriz) (mat2 : objeto) : bool :=
  match mat2 with
  | ObjMatriz mat2 =>
      if negb (filas self =? filas mat2) || negb (columnas self =? columnas mat2)
      then false
      else todos_iguales (vista (valores self)) (vista (valores mat2))
  | _ => false
  end.

(** *** [__add__], [__sub__], [__mul__] *)

Definition __add__ (self mat2 : Matriz) : resultado Matriz :=
  if negb (filas self =? filas mat2) || negb (columnas self =? columnas mat2)
  then Lanza ArithmeticError
  else
    let mat_sumada :=
      zip_with (zip_with Qcplus) (vista (valores self)) (vista (valores mat2)) in
    Ok (MkMatriz (aumentada self) (filas self) (columnas self)
          (rejilla_nueva mat_sumada)).

Definition __sub__ (self mat2 : Matriz) : resultado Matriz :=
  if negb (filas self =? filas mat2) || negb (columnas self =? columnas mat2)
  then Lanza ArithmeticError
  else
    let mat_restada :=
      zip_with (zip_with Qcminus) (vista (valores self)) (vista (valores mat2)) in
    Ok (MkMatriz (aumentada self) (filas self) (columnas self)
          (rejilla_nueva mat_restada)).

(** The statement [acc[i][j] += x[i][k] * y[k][j]]. *)
Definition acumula (x y : rejilla) (i j k : Z) (acc : rejilla)
  : resultado rejilla :=
  a ← py_indice (refs acc) i;
  viejo ← py_indice (objetos acc a) j;
  xik ← leer x i k;
  ykj ← leer y k j;
  escribir_obj acc a j (viejo + xik * ykj)%Qc.

Definition __mul__ (self : Matriz) (multiplicador : objeto) : resultado Matriz :=
  match multiplicador with
  | ObjMatriz multiplicador =>
      if negb (columnas self =? filas multiplicador)
      then Lanza ArithmeticError
      else
        mat_multiplicada ←
          para (S := rejilla) (rango 0 (filas self)) (λ i,
            para (rango 0 (columnas multiplicador)) (λ j,
              para (rango 0 (columnas self))
                (acumula (valores self) (valores multiplicador) i j)))
          (rejilla_nueva (ceros (filas self) (columnas multiplicador)));
        Ok (MkMatriz (aumentada self) (filas self) (columnas multiplicador)
              mat_multiplicada)
  | ObjFraction multiplicador =>
      let mat_multiplicada :=
        (λ fila : list Fraction, (λ valor, multiplicador * valor)%Qc <$> fila)
          <$> vista (valores self) in
      Ok (MkMatriz (aumentada self) (filas self) (columnas self)
            (rejilla_nueva mat_multiplicada))
  | _ => Lanza TypeError
  end.

(** *** Predicates *)

Definition es_matriz_cero (self : Matriz) : bool :=
  forallb (forallb (λ x : Fraction, bool_decide (x = 0%Qc)))
    (vista (valores self)).

Definition es_cuadrada (self : Matriz) : bool :=
  filas self =? columnas self.

Definition es_identidad (self : Matriz) : resultado bool :=
  diagonales_son_1 ←
    py_all (rango 0 (filas self)) (λ i,
      x ← leer (valores self) i i; Ok (bool_decide (x = 1%Qc)));
  resto_son_cero ←
    py_all (filter (λ ij : Z * Z, ij.1 ≠ ij.2)
              (i ← rango 0 (filas self);
               j ← rango 0 (columnas self); [(i, j)]))
      (λ ij, x ← leer (valores self) ij.1 ij.2; Ok (bool_decide (x = 0%Qc)));
  Ok (es_cuadrada self && diagonales_son_1 && resto_son_cero).

(** *** [transponer] *)

Definition transponer (self : Matriz) : resultado Matriz :=
  mat_transpuesta ←
    mapM (λ i, mapM (λ j, leer (valores self) j i) (rango 0 (filas self)))
      (rango 0 (columnas self));
  Ok (MkMatriz (aumentada self) (columnas self) (filas self)
        (rejilla_nueva mat_transpuesta)).

(** *** [hacer_triangular_superior] *)

(** [max(range(i, filas), key=lambda j: abs(mat[j][i]))] *)
Definition fila_pivote (mat : rejilla) (i n_filas : Z) : resultado Z :=
  py_max_key (rango i n_filas) (λ j, x ← leer mat j i; Ok (Qcabs x)).

(** [mat[i], mat[max_f] = mat[max_f], mat[i]]: the two references are read,
    then stored crosswise; the row objects do not move. *)
Definition intercambiar (mat : rejilla) (i max_f : Z) : resultado rejilla :=
  a ← py_indice (refs mat) max_f;
  b ← py_indice (refs mat) i;
  r1 ← py_asigna (refs mat) i a;
  r2 ← py_asigna r1 max_f b;
  Ok {| objetos := objetos mat; refs := r2 |}.

(** [mat[j][k] -= factor * mat[i][k]] *)
Definition resta_en_sitio (factor : Fraction) (i j k : Z) (mat : rejilla)
  : resultado rejilla :=
  a ← py_indice (refs mat) j;
  viejo ← py_indice (objetos mat a) k;
  x ← leer mat i k;
  escribir_obj mat a k (viejo - factor * x)%Qc.

(** The body of [for j in range(i + 1, filas)]. *)
Definition eliminar_fila (i n_columnas : Z) (j : Z) (mat : rejilla)
  : resultado rejilla :=
  x ← leer mat j i;
  p ← leer mat i i;
  factor ← py_div x p;
  para (rango 0 n_columnas) (resta_en_sitio factor i j) mat.

(** The body of [for i in range(filas)]. *)
Definition paso (n_filas n_columnas : Z) (i : Z) (st : rejilla * bool)
  : resultado (rejilla * bool) :=
  let '(mat, intercambio) := st in
  max_f ← fila_pivote mat i n_filas;
  p ← leer mat max_f i;
  if bool_decide (p = 0%Qc) then Ok (mat, intercambio)
  else
    st' ← (if bool_decide (max_f ≠ i)
           then mat' ← intercambiar mat i max_f; Ok (mat', negb intercambio)
           else Ok (mat, intercambio));
    mat'' ← para (rango (i + 1) n_filas) (eliminar_fila i n_columnas) st'.1;
    Ok (mat'', st'.2).

Definition hacer_triangular_superior (self : Matriz)
  : resultado (Matriz * bool) :=
  let intercambio := false in
  let mat_triangular := deepcopy (valores self) in
  st ← para (rango 0 (filas self)) (paso (filas self) (columnas self))
         (mat_triangular, intercambio);
  Ok (MkMatriz (aumentada self) (filas self) (columnas self) st.1, st.2).

(** *** [__str__] *)

(** [" " * n] *)
Fixpoint espacios (n : nat) : string :=
  match n with
  | O => EmptyString
  | S n' => String " "%char (espacios n')
  end.

(** [s.center(width)]: the padding is split as the interpreter does it,
    the extra space going to the left when both the padding and the
    width are odd. *)
Definition center (s : string) (width : Z) : string :=
  let len := Z.of_nat (String.length s) in
  if width <=? len then s
  else
    let marg := width - len in
    let left := marg / 2 + Z.land (Z.land marg width) 1 in
    espacios (Z.to_nat left) +:+ s +:+ espacios (Z.to_nat (marg - left)).

(** [max(l)] on integers. *)
Definition py_max (l : list Z) : resultado Z :=
  match l with
  | [] => Lanza ValueError
  | x :: l' => Ok (foldl Z.max x l')
  end.

(** The end of a line. *)
Definition salto : string := String "010"%char EmptyString.

(** The text added for the entry of column [j]: the chain of [if] and
    [elif] on the position of the column. *)
Definition celda (aum : bool) (n_columnas j : Z) (valor : string) : string :=
  if (j =? 0) && (j =? n_columnas - 1) then "( " +:+ valor +:+ " )"
  else if j =? 0 then "( " +:+ valor +:+ ", "
  else if (j =? n_columnas - 2) && aum then valor +:+ " | "
  else if j =? n_columnas - 1 then valor +:+ " )"
  else valor +:+ ", ".

Section texto.
(** [str(x.limit_denominator(100))], the text of an entry.  The
    properties of [__str__] below hold whatever this text is. *)
Variable texto : Fraction → string.

Definition __str__ (self : Matriz) : resultado string :=
  longitudes ←
    mapM (λ ij : Z * Z,
            x ← leer (valores self) ij.1 ij.2;
            Ok (Z.of_nat (String.length (texto x))))
         (i ← rango 0 (filas self); j ← rango 0 (columnas self); [(i, j)]);
  max_len ← py_max longitudes;
  para (S := string) (rango 0 (filas self)) (λ i matriz,
    matriz ←
      para (S := string) (rango 0 (columnas self)) (λ j matriz,
        x ← leer (valores self) i j;
        let valor := center (texto x) max_len in
        Ok (matriz +:+ celda (aumentada self) (columnas self) j valor))
      matriz;
    Ok (matriz +:+ salto))
  EmptyString.
End texto.

(** * The main manager ([gauss_bot/managers/main_manager.py]) *)

(** ** [OpsManager.producto_matriz_vector] *)

(** [for j, x in enumerate(l): s = cuerpo(j, x, s)], counting from [j]. *)
Fixpoint para_enum {A S} (j : Z) (l : list A)
    (cuerpo : Z → A → S → resultado S) (s : S) : resultado S :=
  match l with
  | [] => Ok s
  | x :: l' => s' ← cuerpo j x s; para_enum (j + 1) l' cuerpo s'
  end.

(** The statement [resultado[i][j] += mat[i, j] * componente].  The entry
    of [resultado] is read first; [mat[i, j]] goes through [__getitem__],
    and a row in its place would be a list multiplied by a fraction. *)
Definition acumula_componente (mat : Matriz) (i j : Z)
    (componente : Fraction) (res : rejilla) : resultado rejilla :=
  a ← py_indice (refs res) i;
  viejo ← py_indice (objetos res a) j;
  x ← __getitem__ mat (ObjTupla [i; j]);
  match x with
  | Elemento x => escribir_obj res a j (viejo + x * componente)%Qc
  | Fila _ => Lanza TypeError
  end.

(** How a call of [producto_matriz_vector] ends once the matrix and the
    vector are selected. *)
Inductive fin_producto : Type :=
  | Imprime (mat_resultante : Matriz) (impreso : string)
      (* both [print(mat_resultante)] wrote [impreso] *)
  | Avisa (entrada : list string)
      (* the message on the dimensions was shown and read a line *)
  | Propaga (e : excepcion)
  | PropagaEOFError.       (* [input] at the end of the input *)

(** [producto_matriz_vector] on the matrix [mat] and the vector [vec]
    that the user selected, a vector being the list of its components,
    as a function of the lines that [input] will read.  The message on
    the dimensions is an [input] and reads one line.  The result is
    printed twice with [print(mat_resultante)], which calls [__str__];
    the other lines that are printed are fixed texts, the names and the
    list of components. *)
Definition producto_matriz_vector (texto : Fraction → string) (mat : Matriz)
    (vec : list Fraction) (entrada : list string) : fin_producto :=
  if negb (columnas mat =? Z.of_nat (length vec)) then
    match entrada with
    | [] => PropagaEOFError
    | _ :: entrada => Avisa entrada
    end
  else
    match
      resultado ←
        para (S := rejilla) (rango 0 (filas mat)) (λ i,
          para_enum 0 vec (acumula_componente mat i))
        (rejilla_nueva (ceros (filas mat) (Z.of_nat (length vec))));
      let mat_resultante :=
        __init__ false (filas mat) (Z.of_nat (length vec)) (Some resultado) in
      impreso ← __str__ texto mat_resultante;
      __str__ texto mat_resultante ;;
      Ok (mat_resultante, impreso)
    with
    | Ok (mat_resultante, impreso) => Imprime mat_resultante impreso
    | Lanza e => Propaga e
    end.

(** ** The main menu *)

(** How a call of [main_menu] ends: with the option it returns, or with
    an exception that it does not catch. *)
Inductive fin_menu : Type :=
  | Devuelve (option : Z)
  | LanzaEOFError          (* [input] at the end of the input *)
  | LanzaRecursionError.   (* the interpreter's bound on nested calls *)

Section menu.
(** [int(s)] on a line of input, [None] where it raises ValueError, and
    [s.strip()]. *)
Variable int : string → option Z.
Variable strip : string → string.

(** [OpsManager.main_menu], as a function of the lines that [input] will
    read; it returns the lines left unread as well.  [marcos] is the
    number of nested calls the interpreter still allows.  What is
    printed does not bear on the result and is left out. *)
Fixpoint OpsManager_main_menu (marcos : nat) (entrada : list string)
  : fin_menu * list string :=
  match marcos with
  | O => (LanzaRecursionError, entrada)
  | S marcos' =>
      let invalida (entrada : list string) :=
        (* except ValueError: input(...); return self.main_menu() *)
        match entrada with
        | [] => (LanzaEOFError, [])
        | _ :: entrada => OpsManager_main_menu marcos' entrada
        end in
      match entrada with
      | [] => (LanzaEOFError, [])
      | linea :: entrada =>
          match int (strip linea) with
          | Some option =>
              if (option <? 1) || (3 <? option) then invalida entrada
              else (Devuelve option, entrada)
          | None => invalida entrada
          end
      end
  end.

(** ** [main_menu] of [gauss_bot/menu.py] *)

(** The same function without the call of [strip]. *)
Fixpoint main_menu (marcos : nat) (entrada : list string)
  : fin_menu * list string :=
  match marcos with
  | O => (LanzaRecursionError, entrada)
  | S marcos' =>
      let invalida (entrada : list string) :=
        match entrada with
        | [] => (LanzaEOFError, [])
        | _ :: entrada => main_menu marcos' entrada
        end in
      match entrada with
      | [] => (LanzaEOFError, [])
      | linea :: entrada =>
          match int linea with
          | Some option =>
              if (option <? 1) || (3 <? option) then invalida entrada
              else (Devuelve option, entrada)
          | None => invalida entrada
          end
      end
  end.
End menu.

(** * Definitions used to state the properties *)

(** ** The invariant of the data model *)

(** The invariant of the data model: [valores] has [filas] rows of
    [columnas] entries each. *)
Definition bien_formada (m : Matriz) : Prop :=
  Z.of_nat (length (refs (valores m))) = filas m ∧
  0 ≤ columnas m ∧
  Forall (λ fila, Z.of_nat (length fila) = columnas m) (vista (valores m)).

(** No row object occurs twice in the grid. *)
Definition sin_alias (m : Matriz) : Prop := NoDup (refs (valores m)).

(** ** Entries of a grid *)

(** The entry at row position [p] and column [c] as a total function; the
    default is never reached inside the grid. *)
Definition ent (g : rejilla) (p c : Z) : Fraction :=
  default 0%Qc (a ← refs g !! Z.to_nat p; objetos g a !! Z.to_nat c).

(** The grid has [F] row positions and each row object has [C] entries. *)
Definition forma (g : rejilla) (F C : Z) : Prop :=
  Z.of_nat (length (refs g)) = F ∧ 0 ≤ C ∧
  ∀ a, a ∈ refs g → Z.of_nat (length (objetos g a)) = C.

(** Positions [p] and [q] hold the same row object. *)
Definition misma_fila (g : rejilla) (p q : Z) : Prop :=
  refs g !! Z.to_nat p = refs g !! Z.to_nat q.

#[global] Instance misma_fila_dec g p q : Decision (misma_fila g p q).
Proof. unfold misma_fila. apply _. Defined.

(** [[f(p, c) for c in range(C)] for p in range(F)] *)
Definition tabla (f : Z → Z → Fraction) (F C : Z) : list (list Fraction) :=
  (λ p, (λ c, f p c) <$> rango 0 C) <$> rango 0 F.

(** ** Triangularisation *)

(** Exchanging two row positions. *)
Definition permuta (i m p : Z) : Z :=
  if decide (p = i) then m else if decide (p = m) then i else p.

(** Columns [0 .. i-1] are zero below the diagonal. *)
Definition triangular_hasta (g : rejilla) (F i : Z) : Prop :=
  ∀ p c, 0 ≤ c < i → c < p < F → ent g p c = 0%Qc.

(** The invariant of the outer loop of [hacer_triangular_superior] on [m]:
    before pass [i] the working grid has the shape of [m], holds the row
    objects of the copy in some order, and its first [i] columns are zero
    below the diagonal. *)
Definition Inv_triangular (m : Matriz) (i : Z) (st : rejilla * bool) : Prop :=
  forma st.1 (filas m) (columnas m) ∧
  refs st.1 ≡ₚ refs (valores m) ∧
  triangular_hasta st.1 (filas m) i.

(** [paso] with a ghost counter that is incremented where the source
    toggles [intercambio]. *)
Definition paso_contado (n_filas n_columnas : Z) (i : Z)
    (st : rejilla * bool * nat) : resultado (rejilla * bool * nat) :=
  let '(mat, intercambio, n) := st in
  max_f ← fila_pivote mat i n_filas;
  p ← leer mat max_f i;
  if bool_decide (p = 0%Qc) then Ok (mat, intercambio, n)
  else
    st' ← (if bool_decide (max_f ≠ i)
           then mat' ← intercambiar mat i max_f;
                Ok (mat', negb intercambio, S n)
           else Ok (mat, intercambio, n));
    mat'' ← para (rango (i + 1) n_filas) (eliminar_fila i n_columnas) st'.1.1;
    Ok (mat'', st'.1.2, st'.2).

(** [hacer_triangular_superior] with the ghost counter: the third component
    is the number of row interchanges performed. *)
Definition hacer_triangular_superior_contado (self : Matriz)
  : resultado (Matriz * bool * nat) :=
  let intercambio := false in
  let mat_triangular := deepcopy (valores self) in
  st ← para (rango 0 (filas self))
         (paso_contado (filas self) (columnas self))
         (mat_triangular, intercambio, 0%nat);
  Ok (MkMatriz (aumentada self) (filas self) (columnas self) st.1.1,
      st.1.2, st.2).

(** The product of the diagonal entries, as a caller computing a
    determinant forms it. *)
Definition producto_diagonal (T : Matriz) : resultado Fraction :=
  para (rango 0 (filas T))
    (λ i acc, x ← leer (valores T) i i; Ok (acc * x)%Qc) 1%Qc.

(** ** Matrix product *)

(** [f 0 + f 1 + ... + f (n-1)] *)
Fixpoint sumatoria (f : nat → Fraction) (n : nat) : Fraction :=
  match n with
  | O => 0%Qc
  | S n' => (sumatoria f n' + f n')%Qc
  end.

(** The sum of [x[i][k] * y[k][j]] over the first [n] values of [k]. *)
Definition coef_producto (x y : rejilla) (n : Z) (i j : Z) : Fraction :=
  sumatoria (λ k, ent x i (Z.of_nat k) * ent y (Z.of_nat k) j)%Qc (Z.to_nat n).

(** The accumulator of [__mul__] when the loops stand at row [i], column
    [j] and inner index [k]. *)
Definition acumulado (x y : rejilla) (Ca : Z) (i j k : Z) (p c : Z)
  : Fraction :=
  if decide (p < i) then coef_producto x y Ca p c
  else if decide (p = i) then
    if decide (c < j) then coef_producto x y Ca p c
    else if decide (c = j) then coef_producto x y k p c
    else 0%Qc
  else 0%Qc.

(** The invariant shared by the three loops of [__mul__]. *)
Definition Est_producto (x y : rejilla) (Fa Ca Cb : Z) (i j k : Z)
    (acc : rejilla) : Prop :=
  forma acc Fa Cb ∧ NoDup (refs acc) ∧
  ∀ p c, 0 ≤ p < Fa → 0 ≤ c < Cb → ent acc p c = acumulado x y Ca i j k p c.

(** ** The matrix-vector product *)

(** The component [vec[c]] as a total function. *)
Definition componente_de (vec : list Fraction) (c : Z) : Fraction :=
  default 0%Qc (vec !! Z.to_nat c).

(** The invariant of the two loops of [producto_matriz_vector] when they
    stand at row [i] and component [j]. *)
Definition Est_componentes (mat : Matriz) (vec : list Fraction) (i j : Z)
    (res : rejilla) : Prop :=
  forma res (filas mat) (Z.of_nat (length vec)) ∧ NoDup (refs res) ∧
  ∀ p c, 0 ≤ p < filas mat → 0 ≤ c < Z.of_nat (length vec) →
    ent res p c =
      if decide (p < i ∨ (p = i ∧ c < j))
      then (ent (valores mat) p c * componente_de vec c)%Qc
      else 0%Qc.

(** ** The main menu *)

(** The option that a line of input stands for, if it is one of the
    menu. *)
Definition valida (int : string → option Z) (linea : string) : option Z :=
  match int linea with
  | Some option => if (option <? 1) || (3 <? option) then None else Some option
  | None => None
  end.

(** The answer to the [n]-th display of the menu: after each invalid
    answer one more line is read by the error message, so that the
    answers are the lines at the even positions. *)
Definition intento (int : string → option Z) (entrada : list string)
    (n : nat) : option Z :=
  entrada !! (2 * n)%nat ≫= valida int.

(** A reading of decimal digits that is enough for the menu:
    [int_ejemplo s] is [int(s)] for the lines used below. *)
Definition int_ejemplo (s : string) : option Z :=
  if decide (s = "1") then Some 1
  else if decide (s = "2") then Some 2
  else if decide (s = "3") then Some 3
  else if decide (s = "7") then Some 7
  else if decide (s = " 3 ") then Some 3
  else None.

(** [s.strip()] for the lines used below. *)
Definition strip_ejemplo (s : string) : string :=
  if decide (s = " 3 ") then "3" else s.

(** ** The text of a matrix *)

(** [[""].join(l)] *)
Definition une (l : list string) : string := foldr String.append EmptyString l.

(** The line that [__str__] writes for row [i] when every entry is
    centred in [M] characters, without the end of line. *)
Definition linea_de (texto : Fraction → string) (self : Matriz) (M i : Z)
  : string :=
  une ((λ j, celda (aumentada self) (columnas self) j
               (center (texto (ent (valores self) i j)) M))
       <$> rango 0 (columnas self)).

(** The text of the fractions used below, as Python's [str] writes
    them: the integers from 0 to 10 and 1/2. *)
Definition texto_ejemplo (x : Fraction) : string :=
  if decide (x = Q2Qc (1 # 2)) then "1/2"
  else if decide (x = Q2Qc (1 # 1)) then "1"
  else if decide (x = Q2Qc (2 # 1)) then "2"
  else if decide (x = Q2Qc (3 # 1)) then "3"
  else if decide (x = Q2Qc (4 # 1)) then "4"
  else if decide (x = Q2Qc (5 # 1)) then "5"
  else if decide (x = Q2Qc (6 # 1)) then "6"
  else if decide (x = Q2Qc (7 # 1)) then "7"
  else if decide (x = Q2Qc (8 # 1)) then "8"
  else if decide (x = Q2Qc (9 # 1)) then "9"
  else if decide (x = Q2Qc (10 # 1)) then "10"
  else "0".

(** ** Concrete inputs *)

(** A matrix given by its rows, each row an object of its own. *)
Definition matriz_de (aum : bool) (l : list (list Fraction)) : Matriz :=
  MkMatriz aum (Z.of_nat (length l))
    (Z.of_nat (length (default [] (head l)))) (rejilla_nueva l).

(** [Fraction(a, b)] *)
Definition fr (a : Z) (b : positive) : Fraction := Q2Qc (a # b).

(** [Matriz(False, 2, 2, [[1, 2], [3, 4]])] *)
Definition A_ejemplo : Matriz :=
  matriz_de false [[fr 1 1; fr 2 1]; [fr 3 1; fr 4 1]].

(** [Matriz(True, 2, 2, [[5, 6], [7, 8]])] *)
Definition B_ejemplo : Matriz :=
  matriz_de true [[fr 5 1; fr 6 1]; [fr 7 1; fr 8 1]].

(** [Matriz(False, 2, 3, [[1, 2, 3], [4, 5, 6]])] *)
Definition ancha_ejemplo : Matriz :=
  matriz_de false [[fr 1 1; fr 2 1; fr 3 1]; [fr 4 1; fr 5 1; fr 6 1]].

(** [Matriz(False, 2, 1, [[1], [0]])] *)
Definition columna_10 : Matriz := matriz_de false [[fr 1 1]; [fr 0 1]].

(** [Matriz(False, 2, 1, [[1], [2]])] *)
Definition columna_12 : Matriz := matriz_de false [[fr 1 1]; [fr 2 1]].

(** [Matriz(False, 2, 2, [[0, 1], [0, 2]])]: a singular matrix whose first
    column has no pivot. *)
Definition singular_ejemplo : Matriz :=
  matriz_de false [[fr 0 1; fr 1 1]; [fr 0 1; fr 2 1]].

(** [r = [2, 0, 0]; Matriz(False, 3, 3, [r, r, [1, 0, 0]])]: the first two
    rows are one and the same list object. *)
Definition filas_compartidas : Matriz :=
  MkMatriz false 3 3
    {| objetos := λ a, match a with
                       | O => [fr 2 1; fr 0 1; fr 0 1]
                       | _ => [fr 1 1; fr 0 1; fr 0 1]
                       end;
       refs := [0; 0; 1]%nat |}.

(** * Properties *)

(** ** Results *)

Lemma bind_Ok {A B} (r : resultado A) (f : A → resultado B) (b : B) :
  r ≫= f = Ok b ↔ ∃ a, r = Ok a ∧ f a = Ok b.
Proof.
  destruct r as [a|e]; simpl.
  - split; [intros H; exists a; auto | intros (a' & [= <-] & H); exact H].
  - split; [discriminate | intros (a' & [=] & _)].
Qed.

(** ** Python lists *)

Section listas.
Context {A : Type}.
Implicit Types (l : list A) (x : A) (i : Z) (n : nat).

Lemma py_indice_nat l n x :
  l !! n = Some x → py_indice l (Z.of_nat n) = Ok x.
Proof.
  intros H. pose proof (lookup_lt_Some _ _ _ H) as Hn.
  unfold py_indice.
  destruct (Z.ltb_spec (Z.of_nat n) 0); [lia|].
  destruct (Z.ltb_spec (Z.of_nat n) 0); [lia|].
  destruct (Z.leb_spec (Z.of_nat (length l)) (Z.of_nat n)); [lia|].
  simpl. by rewrite Nat2Z.id, H.
Qed.

Lemma py_indice_en_rango l i :
  0 ≤ i < Z.of_nat (length l) →
  ∃ x, l !! Z.to_nat i = Some x ∧ py_indice l i = Ok x.
Proof.
  intros Hi. destruct (lookup_lt_is_Some_2 l (Z.to_nat i)) as [x Hx]; [lia|].
  exists x. split; [done|].
  rewrite <-(Z2Nat.id i) by lia. by apply py_indice_nat.
Qed.

Lemma py_indice_fuera l i :
  Z.of_nat (length l) ≤ i → py_indice l i = Lanza IndexError.
Proof.
  intros Hi. unfold py_indice.
  destruct (Z.ltb_spec i 0); [lia|].
  destruct (Z.ltb_spec i 0); [lia|].
  destruct (Z.leb_spec (Z.of_nat (length l)) i); [done|lia].
Qed.

(** A negative index within [-len, 0) reads from the end of the list. *)
Lemma py_indice_negativo l i :
  - Z.of_nat (length l) ≤ i < 0 →
  py_indice l i = py_indice l (i + Z.of_nat (length l)).
Proof.
  intros Hi. unfold py_indice.
  rewrite (proj2 (Z.ltb_lt i 0)) by lia.
  rewrite !(proj2 (Z.ltb_ge (i + Z.of_nat (length l)) 0)) by lia.
  reflexivity.
Qed.

Lemma py_asigna_nat l n x :
  (n < length l)%nat → py_asigna l (Z.of_nat n) x = Ok (<[n := x]> l).
Proof.
  intros Hn. unfold py_asigna.
  destruct (Z.ltb_spec (Z.of_nat n) 0); [lia|].
  destruct (Z.ltb_spec (Z.of_nat n) 0); [lia|].
  destruct (Z.leb_spec (Z.of_nat (length l)) (Z.of_nat n)); [lia|].
  simpl. by rewrite Nat2Z.id.
Qed.

Lemma py_indice_Z l i x :
  0 ≤ i → l !! Z.to_nat i = Some x → py_indice l i = Ok x.
Proof.
  intros Hi H. rewrite <-(Z2Nat.id i) by done. by apply py_indice_nat.
Qed.

Lemma py_asigna_Z l i x :
  0 ≤ i < Z.of_nat (length l) → py_asigna l i x = Ok (<[Z.to_nat i := x]> l).
Proof.
  intros Hi. rewrite <-(Z2Nat.id i) at 1 by lia. apply py_asigna_nat. lia.
Qed.
End listas.

(** ** Loops *)

Lemma rango_vacio a b : b ≤ a → rango a b = [].
Proof. intros. unfold rango. apply seqZ_nil. lia. Qed.

Lemma rango_cons a b : a < b → rango a b = a :: rango (a + 1) b.
Proof.
  intros. unfold rango. rewrite seqZ_cons by lia.
  f_equal. f_equal; lia.
Qed.

Lemma elem_of_rango a b x : x ∈ rango a b ↔ a ≤ x < b.
Proof. unfold rango. rewrite elem_of_seqZ. lia. Qed.

Lemma rango_app a b c : a ≤ b ≤ c → rango a c = rango a b ++ rango b c.
Proof.
  intros H. unfold rango.
  replace (c - a) with ((b - a) + (c - b)) by lia.
  rewrite seqZ_app by lia. do 2 f_equal. lia.
Qed.

Section bucles.
Context {S : Type}.
Implicit Types (s : S) (cuerpo : Z → S → resultado S).

(** Total correctness: an invariant kept by a body that cannot raise. *)
Lemma para_invariante (I : Z → S → Prop) a b cuerpo s :
  a ≤ b →
  I a s →
  (∀ x t, a ≤ x < b → I x t → ∃ t', cuerpo x t = Ok t' ∧ I (x + 1) t') →
  ∃ s', para (rango a b) cuerpo s = Ok s' ∧ I b s'.
Proof.
  intros Hab. remember (Z.to_nat (b - a)) as n eqn:Hn.
  revert a s Hab Hn. induction n as [|n IH]; intros a s Hab Hn Hs Hc.
  - assert (a = b) as -> by lia. rewrite rango_vacio by lia. eauto.
  - rewrite rango_cons by lia. simpl.
    destruct (Hc a s) as (t & -> & Ht); [lia|done|]. simpl.
    apply IH; [lia|lia|done|]. intros x u Hx. apply Hc. lia.
Qed.

(** Partial correctness: whatever the loop returns satisfies the
    invariant. *)
Lemma para_invariante_parcial (I : Z → S → Prop) a b cuerpo s s' :
  a ≤ b →
  I a s →
  (∀ x t t', a ≤ x < b → I x t → cuerpo x t = Ok t' → I (x + 1) t') →
  para (rango a b) cuerpo s = Ok s' → I b s'.
Proof.
  intros Hab. remember (Z.to_nat (b - a)) as n eqn:Hn.
  revert a s Hab Hn. induction n as [|n IH]; intros a s Hab Hn Hs Hc.
  - assert (a = b) as -> by lia. rewrite rango_vacio by lia.
    simpl. by intros [= <-].
  - rewrite rango_cons by lia. simpl.
    intros (t & Ht & Hrest)%bind_Ok.
    eapply (IH (a + 1)); [lia|lia| |  |exact Hrest].
    + eapply Hc; [|exact Hs|exact Ht]. lia.
    + intros x u u' Hx. apply Hc. lia.
Qed.

Lemma para_cons x l cuerpo s :
  para (x :: l) cuerpo s = cuerpo x s ≫= para l cuerpo.
Proof. reflexivity. Qed.

Lemma para_app l1 l2 cuerpo s :
  para (l1 ++ l2) cuerpo s = para l1 cuerpo s ≫= para l2 cuerpo.
Proof.
  revert s. induction l1 as [|x l1 IH]; intros s; [done|]. simpl.
  destruct (cuerpo x s); simpl; [apply IH|done].
Qed.
End bucles.

(** ** The grid *)

Lemma vista_rejilla_nueva l : vista (rejilla_nueva l) = l.
Proof.
  unfold vista, rejilla_nueva. simpl. apply list_eq. intros i.
  rewrite list_lookup_fmap.
  destruct (decide (i < length l)%nat) as [Hi|Hi].
  - rewrite lookup_seq_lt by done. simpl.
    destruct (lookup_lt_is_Some_2 l i Hi) as [x ->]. done.
  - rewrite lookup_seq_ge by lia. simpl. symmetry. apply lookup_ge_None. lia.
Qed.

Lemma length_vista g : length (vista g) = length (refs g).
Proof. unfold vista. by rewrite length_fmap. Qed.

(** ** Well-formed matrices *)

Lemma bien_formada_filas m :
  bien_formada m → length (vista (valores m)) = Z.to_nat (filas m).
Proof. intros (Hf & _ & _). rewrite length_vista. lia. Qed.

Lemma bien_formada_columnas m :
  bien_formada m →
  Forall (λ fila, length fila = Z.to_nat (columnas m)) (vista (valores m)).
Proof.
  intros (_ & Hc & Hall). eapply Forall_impl; [exact Hall|].
  simpl. intros. lia.
Qed.

Lemma bien_formada_no_negativa m :
  bien_formada m → 0 ≤ filas m ∧ 0 ≤ columnas m.
Proof. intros (Hf & Hc & _). lia. Qed.

(** ** Equality *)

Lemma Matriz_eq_desplegada A B :
  __eq__ A (ObjMatriz B) =
  (filas A =? filas B) && (columnas A =? columnas B)
  && todos_iguales (vista (valores A)) (vista (valores B)).
Proof.
  unfold __eq__.
  destruct (filas A =? filas B), (columnas A =? columnas B); reflexivity.
Qed.

Lemma todos_iguales_cons r1 r2 v1 v2 :
  todos_iguales (r1 :: v1) (r2 :: v2) =
  forallb (λ ab : Fraction * Fraction, bool_decide (ab.1 = ab.2)) (zip r1 r2)
  && todos_iguales v1 v2.
Proof. unfold todos_iguales. simpl. by rewrite forallb_app. Qed.

Lemma fila_igual (r1 r2 : list Fraction) :
  length r1 = length r2 →
  forallb (λ ab : Fraction * Fraction, bool_decide (ab.1 = ab.2)) (zip r1 r2)
    = true ↔ r1 = r2.
Proof.
  revert r2. induction r1 as [|x r1 IH]; intros [|y r2] Hlen;
    simpl in *; try discriminate; [done|].
  rewrite andb_true_iff, bool_decide_eq_true, IH by lia.
  split; [intros [-> ->]; done | intros [= -> ->]; done].
Qed.

Lemma todos_iguales_eq c (v1 v2 : list (list Fraction)) :
  length v1 = length v2 →
  Forall (λ fila, length fila = c) v1 →
  Forall (λ fila, length fila = c) v2 →
  todos_iguales v1 v2 = true ↔ v1 = v2.
Proof.
  revert v2. induction v1 as [|r1 v1 IH]; intros [|r2 v2] Hlen H1 H2;
    simpl in *; try discriminate; [done|].
  apply Forall_cons in H1 as [Hr1 H1]. apply Forall_cons in H2 as [Hr2 H2].
  rewrite todos_iguales_cons, andb_true_iff, fila_igual, IH by (done || lia).
  split; [intros [-> ->]; done | intros [= -> ->]; done].
Qed.

Lemma todos_iguales_refl v : todos_iguales v v = true.
Proof.
  induction v as [|r v IH]; [done|].
  rewrite todos_iguales_cons, IH, andb_true_r.
  induction r as [|x r IHr]; [done|]. simpl.
  by rewrite bool_decide_eq_true_2.
Qed.

(** ** Sum and difference *)

Lemma filas_suma_conmuta (v1 v2 : list (list Fraction)) :
  todos_iguales (zip_with (zip_with Qcplus) v1 v2)
                (zip_with (zip_with Qcplus) v2 v1) = true.
Proof.
  revert v2. induction v1 as [|r1 v1 IH]; intros [|r2 v2]; try done.
  simpl. rewrite todos_iguales_cons, IH, andb_true_r.
  clear. revert r2. induction r1 as [|x r1 IHr]; intros [|y r2]; try done.
  simpl. rewrite IHr, andb_true_r. apply bool_decide_eq_true_2. ring.
Qed.

Lemma filas_suma_resta (v1 v2 : list (list Fraction)) :
  todos_iguales
    (zip_with (zip_with Qcminus) (zip_with (zip_with Qcplus) v1 v2) v2) v1
  = true.
Proof.
  revert v2. induction v1 as [|r1 v1 IH]; intros [|r2 v2]; try done.
  simpl. rewrite todos_iguales_cons, IH, andb_true_r.
  clear. revert r2. induction r1 as [|x r1 IHr]; intros [|y r2]; try done.
  simpl. rewrite IHr, andb_true_r. apply bool_decide_eq_true_2. ring.
Qed.

(** ** Concrete matrices *)

Lemma matriz_de_bien_formada aum (l : list (list Fraction)) c :
  Forall (λ fila, length fila = c) l → l ≠ [] → bien_formada (matriz_de aum l).
Proof.
  intros Hall Hne. unfold bien_formada, matriz_de. simpl.
  rewrite vista_rejilla_nueva, length_seq.
  split; [done|]. split; [lia|].
  destruct l as [|r l]; [done|]. simpl.
  apply Forall_cons in Hall as [Hr Hall].
  apply Forall_cons. split; [done|].
  eapply Forall_impl; [exact Hall|]. simpl. intros. lia.
Qed.

Lemma matriz_de_sin_alias aum l : sin_alias (matriz_de aum l).
Proof. unfold sin_alias. simpl. apply NoDup_seq. Qed.

Lemma A_ejemplo_bien_formada : bien_formada A_ejemplo.
Proof.
  apply (matriz_de_bien_formada _ _ 2%nat); [|done]. repeat constructor.
Qed.

Lemma B_ejemplo_bien_formada : bien_formada B_ejemplo.
Proof.
  apply (matriz_de_bien_formada _ _ 2%nat); [|done]. repeat constructor.
Qed.

Lemma ancha_ejemplo_bien_formada : bien_formada ancha_ejemplo.
Proof.
  apply (matriz_de_bien_formada _ _ 3%nat); [|done]. repeat constructor.
Qed.

Lemma columna_12_bien_formada : bien_formada columna_12.
Proof. apply (matriz_de_bien_formada _ _ 1%nat); [|done]. repeat constructor. Qed.

Lemma columna_10_bien_formada : bien_formada columna_10.
Proof. apply (matriz_de_bien_formada _ _ 1%nat); [|done]. repeat constructor. Qed.

Lemma singular_ejemplo_bien_formada : bien_formada singular_ejemplo.
Proof. apply (matriz_de_bien_formada _ _ 2%nat); [|done]. repeat constructor. Qed.

Lemma filas_compartidas_bien_formada : bien_formada filas_compartidas.
Proof.
  split; [done|]. split; [done|]. unfold vista. simpl. repeat constructor.
Qed.

(** ** Index checks of the accessors *)

(** Row access checks both ends of the range. *)
Lemma getitem_fila_IndexError m i :
  bien_formada m →
  __getitem__ m (ObjInt i) = Lanza IndexError ↔ ¬ (0 ≤ i < filas m).
Proof.
  intros Hm. unfold __getitem__.
  destruct (Z.ltb_spec i 0); simpl; [split; [lia|done]|].
  destruct (Z.leb_spec (filas m) i); simpl; [split; [lia|done]|].
  destruct (py_indice_en_rango (vista (valores m)) i) as (x & _ & ->).
  { rewrite bien_formada_filas by done. lia. }
  simpl. split; [done|lia].
Qed.

(** Assignment checks both ends of both ranges. *)
Lemma setitem_IndexError m i j v :
  bien_formada m →
  __setitem__ m i j v = Lanza IndexError ↔
  ¬ (0 ≤ i < filas m ∧ 0 ≤ j < columnas m).
Proof.
  intros Hm. unfold __setitem__.
  destruct (Z.ltb_spec i 0); simpl; [split; [lia|done]|].
  destruct (Z.ltb_spec j 0); simpl; [split; [lia|done]|].
  destruct (Z.leb_spec (filas m) i); simpl; [split; [lia|done]|].
  destruct (Z.leb_spec (columnas m) j); simpl; [split; [lia|done]|].
  unfold escribir.
  destruct (py_indice_en_rango (refs (valores m)) i) as (a & Ha & ->).
  { destruct Hm as (Hlen & _). lia. }
  simpl. unfold escribir_obj.
  assert (Z.of_nat (length (objetos (valores m) a)) = columnas m) as Hlen.
  { destruct Hm as (_ & _ & Hall).
    rewrite Forall_forall in Hall. apply Hall.
    unfold vista. apply list_elem_of_fmap. exists a. split; [done|].
    eapply list_elem_of_lookup_2, Ha. }
  rewrite <-(Z2Nat.id j) by lia. rewrite py_asigna_nat by lia.
  simpl. split; [done|lia].
Qed.

(** Element access refuses an index at or above the bound. *)
Lemma getitem_elemento_IndexError m i j :
  filas m ≤ i ∨ columnas m ≤ j →
  __getitem__ m (ObjTupla [i; j]) = Lanza IndexError.
Proof.
  intros H. unfold __getitem__.
  destruct (Z.leb_spec (filas m) i); [done|].
  destruct (Z.leb_spec (columnas m) j); [done|lia].
Qed.

(** Element access only checks the upper end: an index in [-filas, 0) is
    handed to the list, which counts it from the end. *)
Lemma getitem_elemento_negativo m i j :
  bien_formada m →
  - filas m ≤ i < 0 → 0 ≤ j < columnas m →
  __getitem__ m (ObjTupla [i; j]) = __getitem__ m (ObjTupla [i + filas m; j]) ∧
  ∃ x, __getitem__ m (ObjTupla [i; j]) = Ok (Elemento x).
Proof.
  intros Hm Hi Hj. unfold __getitem__.
  pose proof Hm as (Hlen & _ & Hall).
  destruct (Z.leb_spec (filas m) i); [lia|].
  destruct (Z.leb_spec (filas m) (i + filas m)); [lia|].
  destruct (Z.leb_spec (columnas m) j); [lia|]. simpl.
  assert (leer (valores m) i j = leer (valores m) (i + filas m) j) as ->.
  { unfold leer. rewrite <-Hlen. by rewrite py_indice_negativo by lia. }
  split; [done|].
  unfold leer.
  destruct (py_indice_en_rango (refs (valores m)) (i + filas m))
    as (a & Ha & ->); [lia|].
  simpl.
  destruct (py_indice_en_rango (objetos (valores m) a) j) as (x & _ & ->).
  { rewrite Forall_forall in Hall. rewrite (Hall (objetos (valores m) a)); [lia|].
    unfold vista. apply list_elem_of_fmap. exists a. split; [done|].
    eapply list_elem_of_lookup_2, Ha. }
  simpl. eauto.
Qed.

(** ** Reading and writing the working grid *)

Lemma bien_formada_forma m :
  bien_formada m ↔ forma (valores m) (filas m) (columnas m).
Proof.
  unfold bien_formada, forma, vista. rewrite Forall_fmap, Forall_forall.
  reflexivity.
Qed.

Section rejilla.
Context (g : rejilla) (F C : Z) (Hg : forma g F C).

Lemma forma_ref p :
  0 ≤ p < F →
  ∃ a, refs g !! Z.to_nat p = Some a ∧ py_indice (refs g) p = Ok a ∧
       Z.of_nat (length (objetos g a)) = C.
Proof.
  intros Hp. destruct Hg as (Hlen & _ & Hobj).
  destruct (py_indice_en_rango (refs g) p) as (a & Ha & Hi); [lia|].
  exists a. repeat split; try done.
  apply Hobj. eapply list_elem_of_lookup_2, Ha.
Qed.

Lemma forma_coef p c a :
  0 ≤ c < C → refs g !! Z.to_nat p = Some a →
  objetos g a !! Z.to_nat c = Some (ent g p c).
Proof.
  intros Hc Ha. unfold ent. rewrite Ha. simpl.
  destruct Hg as (_ & _ & Hobj).
  destruct (lookup_lt_is_Some_2 (objetos g a) (Z.to_nat c)) as [x ->]; [|done].
  specialize (Hobj a (list_elem_of_lookup_2 _ _ _ Ha)). lia.
Qed.

Lemma leer_ent p c :
  0 ≤ p < F → 0 ≤ c < C → leer g p c = Ok (ent g p c).
Proof.
  intros Hp Hc. destruct (forma_ref p Hp) as (a & Ha & Hi & Hlen).
  unfold leer. rewrite Hi. simpl.
  apply py_indice_Z; [lia|]. by apply forma_coef.
Qed.

Lemma leer_columna_fuera p c :
  0 ≤ p < F → C ≤ c → leer g p c = Lanza IndexError.
Proof.
  intros Hp Hc. destruct (forma_ref p Hp) as (a & Ha & Hi & Hlen).
  unfold leer. rewrite Hi. simpl. apply py_indice_fuera. lia.
Qed.

Lemma ent_misma_fila p q c :
  misma_fila g p q → ent g p c = ent g q c.
Proof. unfold misma_fila, ent. by intros ->. Qed.

(** The loop [for k in range(columnas): mat[j][k] -= factor * mat[i][k]]
    replaces the row object at position [j] by its combination with the
    row at position [i]; every position holding that object sees the
    change, and this also covers the case where [i] and [j] hold the same
    object. *)
Lemma resta_fila_ok f i j :
  0 ≤ i < F → 0 ≤ j < F →
  ∃ g', para (rango 0 C) (resta_en_sitio f i j) g = Ok g' ∧
        forma g' F C ∧ refs g' = refs g ∧
        ∀ p c, 0 ≤ p < F → 0 ≤ c < C →
          ent g' p c = if decide (misma_fila g p j)
                       then (ent g p c - f * ent g i c)%Qc
                       else ent g p c.
Proof.
  intros Hi Hj.
  destruct (forma_ref j Hj) as (a & Ha & Hia & Hla).
  destruct (forma_ref i Hi) as (b & Hb & Hib & Hlb).
  pose proof Hg as (HF & HC & Hobj).
  set (K := λ (k : Z) (h : rejilla),
    refs h = refs g ∧
    (∀ a', a' ≠ a → objetos h a' = objetos g a') ∧
    length (objetos h a) = length (objetos g a) ∧
    ∀ c : nat, objetos h a !! c =
      if decide (Z.of_nat c < k)
      then (x ← objetos g a !! c; y ← objetos g b !! c; Some (x - f * y)%Qc)
      else objetos g a !! c).
  destruct (para_invariante K 0 C (resta_en_sitio f i j) g)
    as (g' & Hrun & Hr & Hotros & Hlen & Hfila); [done| |  |].
  { repeat split; try done. intros c. case_decide; [lia|done]. }
  { intros k h Hk (Hr & Hotros & Hlen & Hfila).
    unfold resta_en_sitio, leer. rewrite Hr, Hia, Hib. simpl.
    assert (objetos h a !! Z.to_nat k = Some (ent g j k)) as Hviejo.
    { rewrite Hfila. case_decide; [lia|]. by apply forma_coef. }
    assert (objetos h b !! Z.to_nat k = Some (ent g i k)) as Hx.
    { destruct (decide (b = a)) as [->|Hne].
      - rewrite Hviejo. f_equal.
        apply ent_misma_fila. unfold misma_fila. by rewrite Ha, Hb.
      - rewrite Hotros by done. by apply forma_coef. }
    rewrite (py_indice_Z _ _ _ (proj1 Hk) Hviejo). simpl.
    rewrite (py_indice_Z _ _ _ (proj1 Hk) Hx). simpl.
    unfold escribir_obj. rewrite py_asigna_Z by lia. simpl.
    eexists. split; [reflexivity|]. unfold K. simpl.
    split; [done|]. split; [|split].
    - intros a' Hne. case_decide; [done|]. by apply Hotros.
    - case_decide; [|done]. by rewrite length_insert.
    - intros c. case_decide; [|done].
      destruct (decide (c = Z.to_nat k)) as [->|Hck].
      + rewrite list_lookup_insert_eq by lia.
        case_decide; [|lia].
        rewrite (forma_coef j k a), (forma_coef i k b) by (done || lia).
        reflexivity.
      + rewrite list_lookup_insert_ne by done. rewrite Hfila.
        repeat case_decide; try done; lia. }
  exists g'. split; [done|]. split; [|split; [done|]].
  - repeat split; try done; [by rewrite Hr|].
    rewrite Hr. intros a' Ha'.
    destruct (decide (a' = a)) as [->|Hne]; [lia|].
    rewrite Hotros by done. by apply Hobj.
  - intros p c Hp Hc.
    destruct (forma_ref p Hp) as (ap & Hap & _ & _).
    destruct (decide (misma_fila g p j)) as [Heq|Heq];
      unfold misma_fila in Heq; rewrite Hap, Ha in Heq.
    + injection Heq as ->. unfold ent at 1. rewrite Hr, Hap. simpl.
      rewrite Hfila. case_decide; [|lia].
      rewrite (forma_coef p c a), (forma_coef i c b) by (done || lia).
      reflexivity.
    + unfold ent. rewrite Hr, Hap. simpl.
      rewrite Hotros; [done|]. congruence.
Qed.

(** The body of the inner loop over the rows below the pivot. *)
Lemma eliminar_fila_cero i j :
  0 ≤ i < F → 0 ≤ j < F → i < C → ent g i i = 0%Qc →
  eliminar_fila i C j g = Lanza ZeroDivisionError.
Proof.
  intros Hi Hj HiC Hp. unfold eliminar_fila.
  rewrite !leer_ent by lia. simpl. unfold py_div.
  by rewrite bool_decide_eq_true_2.
Qed.

Lemma eliminar_fila_ok i j :
  0 ≤ i < F → 0 ≤ j < F → i < C → ent g i i ≠ 0%Qc →
  ∃ g', eliminar_fila i C j g = Ok g' ∧
        forma g' F C ∧ refs g' = refs g ∧
        ∀ p c, 0 ≤ p < F → 0 ≤ c < C →
          ent g' p c =
            if decide (misma_fila g p j)
            then (ent g p c - ent g j i / ent g i i * ent g i c)%Qc
            else ent g p c.
Proof.
  intros Hi Hj HiC Hp. unfold eliminar_fila.
  rewrite !leer_ent by lia. simpl. unfold py_div.
  rewrite bool_decide_eq_false_2 by done. simpl.
  by apply resta_fila_ok.
Qed.

Lemma intercambiar_ok i m :
  0 ≤ i < F → 0 ≤ m < F →
  ∃ g', intercambiar g i m = Ok g' ∧
        forma g' F C ∧ refs g' ≡ₚ refs g ∧
        ∀ p c, 0 ≤ p < F → ent g' p c = ent g (permuta i m p) c.
Proof.
  intros Hi Hm.
  destruct (forma_ref m Hm) as (a & Ha & Hia & _).
  destruct (forma_ref i Hi) as (b & Hb & Hib & _).
  pose proof Hg as (HF & HC & Hobj).
  unfold intercambiar. rewrite Hia, Hib. simpl.
  rewrite py_asigna_Z by lia. simpl.
  rewrite py_asigna_Z by (rewrite length_insert; lia). simpl.
  eexists. split; [reflexivity|].
  assert (<[Z.to_nat m:=b]> (<[Z.to_nat i:=a]> (refs g)) ≡ₚ refs g) as Hperm.
  { by apply Permutation_insert_swap. }
  split; [|split; [done|]].
  - repeat split; simpl; [by rewrite !length_insert|done|].
    intros a'. rewrite Hperm. apply Hobj.
  - intros p c Hp. unfold ent, permuta. simpl. f_equal.
    destruct (decide (p = m)) as [->|Hpm].
    + rewrite list_lookup_insert_eq by (rewrite length_insert; lia).
      case_decide as Hmi; [subst i|]; by rewrite Hb.
    + rewrite list_lookup_insert_ne by lia.
      case_decide as Hpi; [subst p|by rewrite list_lookup_insert_ne by lia].
      rewrite list_lookup_insert_eq by lia. by rewrite Ha.
Qed.

(** The pivot search returns a row at or below [i] whose entry in column
    [i] has the largest absolute value. *)
Lemma fila_pivote_ok i :
  0 ≤ i < F → i < C →
  ∃ m, fila_pivote g i F = Ok m ∧ i ≤ m < F ∧
       ∀ j, i ≤ j < F → (Qcabs (ent g j i) <= Qcabs (ent g m i))%Qc.
Proof.
  intros Hi HiC. unfold fila_pivote, py_max_key.
  rewrite rango_cons by lia. rewrite leer_ent by lia. simpl.
  set (I := λ (x : Z) (mejor : Z * Qc),
    i ≤ mejor.1 < x ∧ mejor.2 = Qcabs (ent g mejor.1 i) ∧
    ∀ j, i ≤ j < x → (Qcabs (ent g j i) <= mejor.2)%Qc).
  match goal with |- context [para _ ?c ?s] =>
    destruct (para_invariante I (i + 1) F c s)
      as ([m km] & -> & Hm & Hkm & Hmax) end; [lia| | |].
  - unfold I. simpl. repeat split; try lia.
    intros j Hj. assert (j = i) as -> by lia. apply Qcle_refl.
  - intros x [m km] Hx (Hm & Hkm & Hmax). simpl in *.
    rewrite leer_ent by lia. simpl. eexists. split; [reflexivity|].
    unfold I. case_bool_decide as Hlt; simpl.
    + repeat split; try lia. intros j Hj.
      destruct (decide (j = x)) as [->|Hne]; [apply Qcle_refl|].
      eapply Qcle_trans; [apply Hmax; lia|]. by apply Qclt_le_weak.
    + repeat split; try done; try lia. intros j Hj.
      destruct (decide (j = x)) as [->|Hne]; [|apply Hmax; lia].
      by apply Qcnot_lt_le.
  - simpl. exists m. simpl in *. split; [done|]. split; [lia|].
    intros j Hj. rewrite <-Hkm. by apply Hmax.
Qed.
End rejilla.

(** ** Elimination below the pivot *)

Lemma Qc_elimina (x d : Qc) : d ≠ 0%Qc → (x - x / d * d)%Qc = 0%Qc.
Proof. intros Hd. field. exact Hd. Qed.

Lemma Qc_resta_cero (f : Qc) : (0 - f * 0)%Qc = 0%Qc.
Proof. ring. Qed.

Lemma Qcabs_cero (x y : Qc) :
  (Qcabs x <= Qcabs y)%Qc → y = 0%Qc → x = 0%Qc.
Proof.
  intros Hle ->. apply Qcabs_null. apply Qcle_antisym; [exact Hle|].
  apply Qcabs_nonneg.
Qed.

Section eliminacion.
Context (F C i : Z) (Hi : 0 ≤ i < F) (HiC : i < C).

(** Whatever the loop over the rows below the pivot returns has column [i]
    cleared below the diagonal, and the columns before it are still
    clear. *)
Lemma eliminar_columna_parcial g g' :
  forma g F C → triangular_hasta g F i →
  para (rango (i + 1) F) (eliminar_fila i C) g = Ok g' →
  forma g' F C ∧ refs g' = refs g ∧ triangular_hasta g' F (i + 1).
Proof.
  intros Hg Htri Hrun.
  set (J := λ (j : Z) (h : rejilla),
    forma h F C ∧ refs h = refs g ∧ triangular_hasta h F i ∧
    ∀ p, i < p < j → ent h p i = 0%Qc).
  assert (J F g') as (Hg' & Hr & Htri' & Hcol).
  { eapply (para_invariante_parcial J (i + 1) F); [lia| | |exact Hrun].
    - split; [done|]. split; [done|]. split; [done|]. intros p Hp. lia.
    - intros j h h' Hj (Hh & Hr & Hth & Hcol) Hstep.
      destruct (decide (ent h i i = 0%Qc)) as [Hz|Hnz].
      { rewrite (eliminar_fila_cero h F C Hh i j) in Hstep by (done || lia).
        discriminate. }
      destruct (eliminar_fila_ok h F C Hh i j)
        as (h'' & Hstep' & Hh' & Hr' & Hent); [lia|lia|lia|done|].
      rewrite Hstep in Hstep'. injection Hstep' as <-.
      split; [done|]. split; [congruence|]. split.
      + intros p c Hc Hp. rewrite Hent by lia.
        case_decide; [|by apply Hth].
        rewrite (Hth p c), (Hth i c) by lia. apply Qc_resta_cero.
      + intros p Hp. rewrite Hent by lia.
        destruct (decide (misma_fila h p j)) as [Hsame|Hdiff].
        * rewrite (ent_misma_fila h p j i Hsame). by apply Qc_elimina.
        * apply Hcol. destruct (decide (p = j)) as [->|]; [|lia].
          by destruct Hdiff. }
  split; [done|]. split; [done|].
  intros p c Hc Hp. destruct (decide (c = i)) as [->|Hne].
  - apply Hcol. lia.
  - apply Htri'; lia.
Qed.

(** When no row object occurs twice the pivot row is never overwritten, so
    the division never fails. *)
Lemma eliminar_columna_total g :
  forma g F C → NoDup (refs g) → ent g i i ≠ 0%Qc →
  ∃ g', para (rango (i + 1) F) (eliminar_fila i C) g = Ok g'.
Proof.
  intros Hg Hnd Hp.
  set (J := λ (j : Z) (h : rejilla),
    forma h F C ∧ refs h = refs g ∧ ent h i i ≠ 0%Qc).
  destruct (para_invariante J (i + 1) F (eliminar_fila i C) g)
    as (g' & Hrun & _); [lia|done| |by exists g'].
  intros j h Hj (Hh & Hr & Hnz).
  destruct (eliminar_fila_ok h F C Hh i j)
    as (h' & Hstep & Hh' & Hr' & Hent); [lia|lia|lia|done|].
  exists h'. split; [done|]. split; [done|]. split; [congruence|].
  rewrite Hent by lia. case_decide as Hsame; [|done].
  unfold misma_fila in Hsame. rewrite Hr in Hsame.
  destruct (forma_ref g F C Hg i) as (a & Ha & _); [lia|].
  rewrite Ha in Hsame. symmetry in Hsame.
  pose proof (NoDup_lookup _ _ _ _ Hnd Ha Hsame). lia.
Qed.
End eliminacion.

(** ** One pass of the outer loop *)

Lemma permuta_rango i m p F :
  0 ≤ i < F → i ≤ m < F → 0 ≤ p < F → 0 ≤ permuta i m p < F.
Proof. intros. unfold permuta. repeat case_decide; lia. Qed.

Lemma permuta_debajo i m p c :
  c < i → i ≤ m → c < p → c < permuta i m p.
Proof. intros. unfold permuta. repeat case_decide; lia. Qed.

Section paso.
Context (F C i : Z) (Hi : 0 ≤ i < F) (HiC : i < C).
Context (g : rejilla) (Hg : forma g F C).

(** What a pass does before it starts eliminating: either the pivot entry
    is zero and the pass ends at once with the state untouched, or the
    pivot row is brought to position [i] and the loop over the rows below
    is run on the result. *)
Lemma paso_desplegado b :
  ∃ m, fila_pivote g i F = Ok m ∧ i ≤ m < F ∧
    (∀ j, i ≤ j < F → (Qcabs (ent g j i) <= Qcabs (ent g m i))%Qc) ∧
    ((ent g m i = 0%Qc ∧ paso F C i (g, b) = Ok (g, b)) ∨
     (ent g m i ≠ 0%Qc ∧
      ∃ g1, forma g1 F C ∧ refs g1 ≡ₚ refs g ∧
        (∀ p c, 0 ≤ p < F → ent g1 p c = ent g (permuta i m p) c) ∧
        paso F C i (g, b) =
          (g2 ← para (rango (i + 1) F) (eliminar_fila i C) g1;
           Ok (g2, if decide (m = i) then b else negb b)))).
Proof.
  destruct (fila_pivote_ok g F C Hg i Hi HiC) as (m & Hpiv & Hm & Hmax).
  exists m. split; [done|]. split; [done|]. split; [done|].
  unfold paso. rewrite Hpiv. simpl. rewrite (leer_ent g F C Hg) by lia. simpl.
  case_bool_decide as Hz; [by left|]. right. split; [done|].
  case_bool_decide as Hmi.
  - destruct (intercambiar_ok g F C Hg i m)
      as (g1 & -> & Hg1 & Hperm & Hent); [lia|lia|].
    exists g1. simpl. repeat split; try done; try apply Hg1.
    by rewrite decide_False.
  - assert (m = i) as -> by (destruct (decide (m = i)); [done|by destruct Hmi]).
    exists g. simpl. repeat split; try done; try apply Hg.
    + intros p c Hp. unfold permuta. by repeat case_decide; subst.
    + by rewrite decide_True.
Qed.

Lemma paso_parcial b g' b' :
  triangular_hasta g F i →
  paso F C i (g, b) = Ok (g', b') →
  forma g' F C ∧ refs g' ≡ₚ refs g ∧ triangular_hasta g' F (i + 1).
Proof.
  intros Htri.
  destruct (paso_desplegado b) as (m & _ & Hm & Hmax & [[Hz ->]|(Hnz & Hrest)]).
  - intros [= <- <-]. split; [done|]. split; [done|].
    intros p c Hc Hp. destruct (decide (c = i)) as [->|Hne].
    + apply (Qcabs_cero _ (ent g m i)); [apply Hmax; lia|done].
    + apply Htri; lia.
  - destruct Hrest as (g1 & Hg1 & Hperm & Hent & ->).
    intros (g2 & Hrun & [= <- <-])%bind_Ok.
    apply (eliminar_columna_parcial F C i Hi HiC) in Hrun
      as (Hg2 & Hr2 & Htri2); [|done|].
    + split; [done|]. split; [by rewrite Hr2|done].
    + intros p c Hc Hp. rewrite Hent by lia.
      apply Htri; [lia|]. split; [by apply permuta_debajo; lia|].
      apply (permuta_rango i m p F); lia.
Qed.

Lemma paso_total b :
  NoDup (refs g) → ∃ g' b', paso F C i (g, b) = Ok (g', b').
Proof.
  intros Hnd.
  destruct (paso_desplegado b) as (m & _ & Hm & Hmax & [[Hz ->]|(Hnz & Hrest)]).
  - eauto.
  - destruct Hrest as (g1 & Hg1 & Hperm & Hent & ->).
    destruct (eliminar_columna_total F C i Hi HiC g1) as (g2 & ->);
      [done|by rewrite Hperm| |simpl; eauto].
    rewrite Hent by lia. unfold permuta. by rewrite decide_True.
Qed.

(** A zero pivot: the pass is skipped and nothing is modified. *)
Lemma paso_pivote_cero b m :
  fila_pivote g i F = Ok m → leer g m i = Ok 0%Qc →
  paso F C i (g, b) = Ok (g, b).
Proof.
  intros Hpiv Hleer. unfold paso. rewrite Hpiv. simpl. rewrite Hleer.
  reflexivity.
Qed.
End paso.

(** A pass whose index is not a column of the grid fails in its pivot
    search. *)
Lemma paso_columna_fuera F C g b :
  forma g F C → 0 ≤ C < F → paso F C C (g, b) = Lanza IndexError.
Proof.
  intros Hg HC. unfold paso, fila_pivote, py_max_key.
  rewrite (rango_cons C F) by lia.
  by rewrite (leer_columna_fuera g _ _ Hg) by lia.
Qed.

(** ** The whole triangularisation *)

Section triangular.
Context (m : Matriz) (Hm : bien_formada m).

Local Abbreviation Inv := (Inv_triangular m).

Lemma Inv_inicial : Inv 0 (deepcopy (valores m), false).
Proof.
  split; [by apply bien_formada_forma|]. split; [done|].
  intros p c Hc. lia.
Qed.

Lemma hacer_triangular_superior_parcial T b :
  filas m ≤ columnas m →
  hacer_triangular_superior m = Ok (T, b) →
  bien_formada T ∧ filas T = filas m ∧ columnas T = columnas m ∧
  aumentada T = aumentada m ∧
  refs (valores T) ≡ₚ refs (valores m) ∧
  triangular_hasta (valores T) (filas m) (filas m).
Proof.
  intros Hdim. unfold hacer_triangular_superior.
  intros ([g b'] & Hrun & [= <- <-])%bind_Ok. simpl.
  pose proof (bien_formada_no_negativa m Hm) as [HF HC].
  assert (Inv (filas m) (g, b')) as (Hg & Hperm & Htri).
  { eapply (para_invariante_parcial Inv 0 (filas m));
      [done|apply Inv_inicial| |exact Hrun].
    intros i [h c] [h' c'] Hi (Hh & Hp & Ht) Hstep. simpl in *.
    destruct (paso_parcial (filas m) (columnas m) i
                ltac:(lia) ltac:(lia) h Hh c h' c' Ht Hstep)
      as (Hh' & Hp' & Ht').
    split; [done|]. split; [by rewrite Hp'|done]. }
  split; [by apply bien_formada_forma|]. done.
Qed.

(** The first [n] passes, as long as [n] exceeds neither dimension. *)
Lemma pasos_iniciales n :
  sin_alias m → 0 ≤ n → n ≤ filas m → n ≤ columnas m →
  ∃ st, para (rango 0 n) (paso (filas m) (columnas m))
          (deepcopy (valores m), false) = Ok st ∧ Inv n st.
Proof.
  intros Hnd Hn HnF HnC.
  apply (para_invariante Inv 0 n); [done|apply Inv_inicial|].
  intros i [h c] Hi (Hh & Hp & Ht). simpl in *.
  destruct (paso_total (filas m) (columnas m) i
              ltac:(lia) ltac:(lia) h Hh c)
    as (h' & c' & Hstep); [rewrite Hp; exact Hnd|].
  exists (h', c'). split; [done|].
  destruct (paso_parcial (filas m) (columnas m) i
              ltac:(lia) ltac:(lia) h Hh c h' c' Ht Hstep)
    as (Hh' & Hp' & Ht').
  split; [done|]. split; [by rewrite Hp'|done].
Qed.

Lemma hacer_triangular_superior_total :
  filas m ≤ columnas m →
  sin_alias m → ∃ T b, hacer_triangular_superior m = Ok (T, b).
Proof.
  intros Hdim Hnd. unfold hacer_triangular_superior.
  pose proof (bien_formada_no_negativa m Hm) as [HF HC].
  destruct (pasos_iniciales (filas m)) as ([g b] & -> & _);
    [done|done|done|done|]. simpl. eauto.
Qed.

(** With more rows than columns the pass for [i = columnas] starts by
    reading column [i] of a row that has only [columnas] entries. *)
Lemma hacer_triangular_superior_alta :
  sin_alias m → columnas m < filas m →
  hacer_triangular_superior m = Lanza IndexError.
Proof.
  intros Hnd Halta. unfold hacer_triangular_superior.
  pose proof (bien_formada_no_negativa m Hm) as [HF HC].
  rewrite (rango_app 0 (columnas m) (filas m)), para_app by lia.
  destruct (pasos_iniciales (columnas m)) as ([g b] & -> & Hg & _);
    [done|done|lia|done|]. simpl in *.
  rewrite (rango_cons (columnas m) (filas m)) by lia. rewrite para_cons.
  by rewrite (paso_columna_fuera _ _ g b Hg) by lia.
Qed.
End triangular.

(** ** Counting the row interchanges *)

(** Erasing the counter gives back the source's pass. *)
Lemma paso_contado_borra F C i g b n :
  fst <$> paso_contado F C i (g, b, n) = paso F C i (g, b).
Proof.
  unfold paso_contado, paso.
  destruct (fila_pivote g i F) as [max_f|e]; simpl; [|done].
  destruct (leer g max_f i) as [p|e]; simpl; [|done].
  case_bool_decide; [done|].
  case_bool_decide; simpl.
  - destruct (intercambiar g i max_f) as [g1|e]; simpl; [|done].
    by destruct (para _ _ g1).
  - by destruct (para _ _ g).
Qed.

(** The flag is the parity of the counter. *)
Lemma paso_contado_paridad F C i g b n g' b' n' :
  paso_contado F C i (g, b, n) = Ok (g', b', n') →
  b = Nat.odd n → b' = Nat.odd n'.
Proof.
  unfold paso_contado.
  destruct (fila_pivote g i F) as [max_f|e]; simpl; [|done].
  destruct (leer g max_f i) as [p|e]; simpl; [|done].
  case_bool_decide; [by intros [= <- <- <-]|].
  case_bool_decide; simpl.
  - destruct (intercambiar g i max_f) as [g1|e]; simpl; [|done].
    destruct (para _ _ g1); simpl; [|done].
    intros [= <- <- <-] ->. by rewrite Nat.odd_succ, Nat.negb_odd.
  - destruct (para _ _ g); simpl; [|done]. by intros [= <- <- <-].
Qed.

Lemma para_contado_borra F C l g b n :
  fst <$> para l (paso_contado F C) (g, b, n) = para l (paso F C) (g, b).
Proof.
  revert g b n. induction l as [|i l IH]; intros g b n; [done|].
  rewrite !para_cons, <-(paso_contado_borra F C i g b n).
  destruct (paso_contado F C i (g, b, n)) as [[[g' b'] n']|e]; [|done].
  apply IH.
Qed.

Lemma para_contado_paridad F C l g b n g' b' n' :
  para l (paso_contado F C) (g, b, n) = Ok (g', b', n') →
  b = Nat.odd n → b' = Nat.odd n'.
Proof.
  revert g b n. induction l as [|i l IH]; intros g b n.
  - by intros [= <- <- <-].
  - rewrite para_cons. intros ([[g1 b1] n1] & Hstep & Hrest)%bind_Ok Hb.
    eapply IH; [exact Hrest|]. by eapply paso_contado_paridad.
Qed.

(** ** Grids given by a function of the position *)

Lemma lookup_rango_0 n (k : nat) :
  Z.of_nat k < n → rango 0 n !! k = Some (Z.of_nat k).
Proof.
  intros Hk. unfold rango. by rewrite lookup_seqZ_lt by lia.
Qed.

Lemma length_rango_0 n : length (rango 0 n) = Z.to_nat n.
Proof. unfold rango. rewrite length_seqZ. f_equal. lia. Qed.

Lemma mapM_Ok {A B} (f : A → resultado B) (h : A → B) (l : list A) :
  (∀ x, x ∈ l → f x = Ok (h x)) → mapM f l = Ok (h <$> l).
Proof.
  induction l as [|x l IH]; intros Hf; [done|]. simpl.
  rewrite Hf by left. simpl. rewrite IH; [done|].
  intros y Hy. apply Hf. by right.
Qed.

Lemma tabla_lookup f F C (p c : Z) :
  0 ≤ p < F → 0 ≤ c < C →
  (fila ← tabla f F C !! Z.to_nat p; fila !! Z.to_nat c) = Some (f p c).
Proof.
  intros Hp Hc. unfold tabla.
  rewrite list_lookup_fmap, lookup_rango_0 by lia. simpl.
  rewrite list_lookup_fmap, lookup_rango_0 by lia. simpl.
  by rewrite !Z2Nat.id by lia.
Qed.

Lemma tabla_ext f h F C :
  (∀ p c, 0 ≤ p < F → 0 ≤ c < C → f p c = h p c) →
  tabla f F C = tabla h F C.
Proof.
  intros Hfh. unfold tabla. apply list_fmap_ext. intros k p Hk.
  apply list_fmap_ext. intros k' c Hk'.
  apply list_elem_of_lookup_2, elem_of_rango in Hk.
  apply list_elem_of_lookup_2, elem_of_rango in Hk'. apply Hfh; lia.
Qed.

Lemma forma_rejilla_nueva_tabla f F C :
  0 ≤ F → 0 ≤ C → forma (rejilla_nueva (tabla f F C)) F C.
Proof.
  intros HF HC.
  apply (proj1 (bien_formada_forma
                  (MkMatriz false F C (rejilla_nueva (tabla f F C))))).
  unfold bien_formada. simpl. rewrite vista_rejilla_nueva, length_seq.
  unfold tabla. rewrite length_fmap, length_rango_0.
  split; [lia|]. split; [done|].
  rewrite Forall_fmap. apply Forall_forall. intros p _. simpl.
  rewrite length_fmap, length_rango_0. lia.
Qed.

Lemma ent_rejilla_nueva l p c :
  ent (rejilla_nueva l) p c =
  default 0%Qc (fila ← l !! Z.to_nat p; fila !! Z.to_nat c).
Proof.
  unfold ent, rejilla_nueva. simpl.
  destruct (l !! Z.to_nat p) as [fila|] eqn:Hl.
  - rewrite lookup_seq_lt by (by eapply lookup_lt_Some). simpl.
    by rewrite Hl.
  - rewrite lookup_seq_ge; [done|]. by apply lookup_ge_None.
Qed.

Lemma ent_rejilla_nueva_tabla f F C p c :
  0 ≤ p < F → 0 ≤ c < C → ent (rejilla_nueva (tabla f F C)) p c = f p c.
Proof.
  intros Hp Hc. by rewrite ent_rejilla_nueva, tabla_lookup.
Qed.

(** A well-formed grid is the table of its entries. *)
Lemma vista_tabla g F C :
  forma g F C → vista g = tabla (ent g) F C.
Proof.
  intros Hg. pose proof Hg as (HF & HC & Hobj).
  apply list_eq. intros k. unfold vista, tabla. rewrite !list_lookup_fmap.
  destruct (decide (Z.of_nat k < F)) as [Hk|Hk].
  - rewrite lookup_rango_0 by done.
    destruct (forma_ref g F C Hg (Z.of_nat k)) as (a & Ha & _ & Hlen); [lia|].
    rewrite Nat2Z.id in Ha. rewrite Ha. simpl. f_equal.
    apply list_eq. intros k'. rewrite list_lookup_fmap.
    destruct (decide (Z.of_nat k' < C)) as [Hk'|Hk'].
    + rewrite lookup_rango_0 by done. simpl.
      rewrite <-(Nat2Z.id k') at 1.
      apply (forma_coef g F C Hg); [lia|]. by rewrite Nat2Z.id.
    + rewrite (proj2 (lookup_ge_None _ _)) by lia.
      rewrite (proj2 (lookup_ge_None _ _)); [done|].
      rewrite length_rango_0. lia.
  - rewrite (proj2 (lookup_ge_None _ _)) by lia.
    rewrite (proj2 (lookup_ge_None _ _)); [done|].
    rewrite length_rango_0. lia.
Qed.

(** ** Transposition *)

Lemma transponer_Ok m :
  bien_formada m →
  transponer m =
    Ok (MkMatriz (aumentada m) (columnas m) (filas m)
          (rejilla_nueva
             (tabla (λ i j, ent (valores m) j i) (columnas m) (filas m)))).
Proof.
  intros Hm. apply bien_formada_forma in Hm as Hg.
  unfold transponer.
  rewrite (mapM_Ok _ (λ i, (λ j, ent (valores m) j i) <$> rango 0 (filas m))).
  - reflexivity.
  - intros i Hi%elem_of_rango. apply mapM_Ok.
    intros j Hj%elem_of_rango. apply (leer_ent _ _ _ Hg); lia.
Qed.

(** ** Matrix product *)

Lemma coef_producto_0 x y i j : coef_producto x y 0 i j = 0%Qc.
Proof. reflexivity. Qed.

Lemma coef_producto_succ x y k i j :
  0 ≤ k →
  coef_producto x y (k + 1) i j =
  (coef_producto x y k i j + ent x i k * ent y k j)%Qc.
Proof.
  intros Hk. unfold coef_producto.
  replace (Z.to_nat (k + 1)) with (S (Z.to_nat k)) by lia. simpl.
  by rewrite Z2Nat.id by done.
Qed.

Lemma escribir_obj_ok g F C p0 a c0 v :
  forma g F C → 0 ≤ p0 < F → refs g !! Z.to_nat p0 = Some a → 0 ≤ c0 < C →
  ∃ g', escribir_obj g a c0 v = Ok g' ∧ forma g' F C ∧ refs g' = refs g ∧
        ∀ p c, 0 ≤ p < F → 0 ≤ c < C →
          ent g' p c = if decide (misma_fila g p p0 ∧ c = c0) then v
                       else ent g p c.
Proof.
  intros Hg Hp0 Ha Hc0. pose proof Hg as (HF & HC & Hobj).
  assert (Z.of_nat (length (objetos g a)) = C) as Hlen.
  { apply Hobj. eapply list_elem_of_lookup_2, Ha. }
  unfold escribir_obj. rewrite py_asigna_Z by lia. simpl.
  eexists. split; [reflexivity|]. split; [|split; [done|]].
  - split; [done|]. split; [done|]. simpl. intros b Hb.
    case_decide; [subst b; by rewrite length_insert|by apply Hobj].
  - intros p c Hp Hc.
    destruct (forma_ref g F C Hg p Hp) as (ap & Hap & _ & _).
    unfold ent at 1. simpl. rewrite Hap. simpl.
    assert (misma_fila g p p0 ↔ ap = a) as Hsame.
    { unfold misma_fila. rewrite Hap, Ha. split; congruence. }
    destruct (decide (ap = a)) as [->|Hne].
    + destruct (decide (c = c0)) as [->|Hcc].
      * rewrite list_lookup_insert_eq by lia.
        rewrite decide_True; [done|]. split; [by apply Hsame|done].
      * rewrite list_lookup_insert_ne by lia.
        rewrite decide_False by (intros [_ ?]; done).
        unfold ent. by rewrite Hap.
    + rewrite decide_False by (intros [?%Hsame _]; done).
      unfold ent. by rewrite Hap.
Qed.

Section producto.
Context (x y : rejilla) (Fa Ca Cb : Z).
Context (Hx : forma x Fa Ca) (Hy : forma y Ca Cb).

Local Abbreviation parcial := (acumulado x y Ca).
Local Abbreviation Est := (Est_producto x y Fa Ca Cb).

Lemma Est_ext i j k i' j' k' acc :
  (∀ p c, 0 ≤ p < Fa → 0 ≤ c < Cb → parcial i j k p c = parcial i' j' k' p c) →
  Est i j k acc → Est i' j' k' acc.
Proof.
  intros Heq (Hf & Hnd & Hent). split; [done|]. split; [done|].
  intros p c Hp Hc. rewrite Hent by done. by apply Heq.
Qed.

Lemma acumula_ok i j k acc :
  0 ≤ i < Fa → 0 ≤ j < Cb → 0 ≤ k < Ca →
  Est i j k acc →
  ∃ acc', acumula x y i j k acc = Ok acc' ∧ Est i j (k + 1) acc'.
Proof.
  intros Hi Hj Hk (Hf & Hnd & Hent).
  destruct (forma_ref acc Fa Cb Hf i Hi) as (a & Ha & Hia & Hla).
  unfold acumula. rewrite Hia. simpl.
  rewrite (py_indice_Z _ _ _ (proj1 Hj) (forma_coef acc Fa Cb Hf i j a Hj Ha)).
  simpl. rewrite (leer_ent x Fa Ca Hx), (leer_ent y Ca Cb Hy) by done. simpl.
  destruct (escribir_obj_ok acc Fa Cb i a j
              (ent acc i j + ent x i k * ent y k j)%Qc Hf Hi Ha Hj)
    as (acc' & -> & Hf' & Hr' & Hent').
  exists acc'. split; [done|]. split; [done|]. split; [by rewrite Hr'|].
  intros p c Hp Hc. rewrite Hent' by done.
  destruct (decide (misma_fila acc p i ∧ c = j)) as [[Hsame ->]|Hdif].
  - assert (p = i) as ->.
    { unfold misma_fila in Hsame. rewrite Ha in Hsame.
      pose proof (NoDup_lookup _ _ _ _ Hnd Hsame Ha). lia. }
    rewrite Hent by done. unfold parcial.
    repeat case_decide; try lia.
    symmetry. apply coef_producto_succ. lia.
  - rewrite Hent by done. unfold parcial.
    repeat case_decide; try done; try lia.
    subst. destruct Hdif. by split.
Qed.

Lemma bucle_k i j acc :
  0 ≤ i < Fa → 0 ≤ j < Cb → 0 ≤ Ca →
  Est i j 0 acc →
  ∃ acc', para (rango 0 Ca) (acumula x y i j) acc = Ok acc' ∧
          Est i (j + 1) 0 acc'.
Proof.
  intros Hi Hj HCa Hacc.
  destruct (para_invariante (Est i j) 0 Ca (acumula x y i j) acc)
    as (acc' & Hrun & Hacc'); [done|done| |].
  { intros k t Hk Ht. by apply acumula_ok. }
  exists acc'. split; [done|]. revert Hacc'. apply Est_ext.
  intros p c Hp Hc. unfold parcial.
  repeat case_decide; try done; try lia.
Qed.

Lemma bucle_j i acc :
  0 ≤ i < Fa → 0 ≤ Cb → 0 ≤ Ca →
  Est i 0 0 acc →
  ∃ acc', para (rango 0 Cb)
            (λ j, para (rango 0 Ca) (acumula x y i j)) acc = Ok acc' ∧
          Est (i + 1) 0 0 acc'.
Proof.
  intros Hi HCb HCa Hacc.
  destruct (para_invariante (λ j, Est i j 0) 0 Cb
              (λ j, para (rango 0 Ca) (acumula x y i j)) acc)
    as (acc' & Hrun & Hacc'); [done|done| |].
  { intros j t Hj Ht. by apply bucle_k. }
  exists acc'. split; [done|]. revert Hacc'. apply Est_ext.
  intros p c Hp Hc. unfold parcial.
  repeat case_decide; try done; try lia.
Qed.

Lemma bucle_i acc :
  0 ≤ Fa → 0 ≤ Cb → 0 ≤ Ca →
  Est 0 0 0 acc →
  ∃ acc', para (rango 0 Fa)
            (λ i, para (rango 0 Cb)
                    (λ j, para (rango 0 Ca) (acumula x y i j))) acc = Ok acc' ∧
          forma acc' Fa Cb ∧
          ∀ p c, 0 ≤ p < Fa → 0 ≤ c < Cb →
            ent acc' p c = coef_producto x y Ca p c.
Proof.
  intros HFa HCb HCa Hacc.
  destruct (para_invariante (λ i, Est i 0 0) 0 Fa
              (λ i, para (rango 0 Cb)
                      (λ j, para (rango 0 Ca) (acumula x y i j))) acc)
    as (acc' & Hrun & Hf & _ & Hent); [done|done| |].
  { intros i t Hi Ht. by apply bucle_j. }
  exists acc'. split; [done|]. split; [done|].
  intros p c Hp Hc. rewrite Hent by done. unfold parcial.
  by rewrite decide_True by lia.
Qed.

Lemma Est_ceros :
  0 ≤ Fa → 0 ≤ Cb → Est 0 0 0 (rejilla_nueva (ceros Fa Cb)).
Proof.
  intros HFa HCb. change (ceros Fa Cb) with (tabla (λ _ _, 0%Qc) Fa Cb).
  split; [by apply forma_rejilla_nueva_tabla|]. split; [apply NoDup_seq|].
  intros p c Hp Hc. rewrite ent_rejilla_nueva_tabla by done.
  unfold parcial. repeat case_decide; try done; try lia.
Qed.
End producto.

(** ** The identity test *)

Lemma py_all_Ok {A} (l : list A) (p : A → resultado bool) (h : A → bool) :
  (∀ x, x ∈ l → p x = Ok (h x)) → py_all l p = Ok (forallb h l).
Proof.
  induction l as [|x l IH]; intros Hp; [done|]. simpl.
  rewrite Hp by left. simpl. destruct (h x); [|done]. simpl.
  apply IH. intros y Hy. apply Hp. by right.
Qed.

Lemma forallb_elem_of {A} (h : A → bool) (l : list A) :
  forallb h l = true ↔ ∀ x, x ∈ l → h x = true.
Proof.
  rewrite forallb_forall. split; intros H x Hx; apply H;
    by apply list_elem_of_In.
Qed.

(** The positions off the diagonal, in the order the generator visits
    them. *)
Lemma elem_of_fuera_diagonal F C i j :
  (i, j) ∈ filter (λ ij : Z * Z, ij.1 ≠ ij.2)
             (i ← rango 0 F; j ← rango 0 C; [(i, j)]) ↔
  0 ≤ i < F ∧ 0 ≤ j < C ∧ i ≠ j.
Proof.
  rewrite list_elem_of_filter, list_elem_of_bind. simpl. split.
  - intros (Hne & i' & (j' & [= -> ->]%list_elem_of_singleton
                          & Hj%elem_of_rango)%list_elem_of_bind
                   & Hi%elem_of_rango). lia.
  - intros (Hi & Hj & Hne). split; [done|]. exists i.
    split; [|apply elem_of_rango; lia].
    apply list_elem_of_bind. exists j.
    split; [by apply list_elem_of_singleton|apply elem_of_rango; lia].
Qed.

(** When the matrix has at least as many columns as rows the test reads
    inside the grid only, and it answers what its docstring says. *)
Lemma es_identidad_ancha m :
  bien_formada m → filas m ≤ columnas m →
  ∃ b, es_identidad m = Ok b ∧
       (b = true ↔
        filas m = columnas m ∧
        (∀ i, 0 ≤ i < filas m → ent (valores m) i i = 1%Qc) ∧
        (∀ i j, 0 ≤ i < filas m → 0 ≤ j < columnas m → i ≠ j →
                ent (valores m) i j = 0%Qc)).
Proof.
  intros Hm Hdim. apply bien_formada_forma in Hm as Hg.
  unfold es_identidad.
  rewrite (py_all_Ok _ _ (λ i, bool_decide (ent (valores m) i i = 1%Qc))).
  2:{ intros i Hi%elem_of_rango. by rewrite (leer_ent _ _ _ Hg) by lia. }
  simpl.
  rewrite (py_all_Ok _ _
             (λ ij, bool_decide (ent (valores m) ij.1 ij.2 = 0%Qc))).
  2:{ intros [i j] Hij%elem_of_fuera_diagonal. simpl.
      by rewrite (leer_ent _ _ _ Hg) by lia. }
  simpl. eexists. split; [reflexivity|].
  unfold es_cuadrada.
  rewrite !andb_true_iff, Z.eqb_eq, !forallb_elem_of. split.
  - intros [[Hsq Hdiag] Hresto]. split; [done|]. split.
    + intros i Hi. eapply bool_decide_eq_true_1, Hdiag, elem_of_rango. lia.
    + intros i j Hi Hj Hne.
      apply (bool_decide_eq_true_1 _ (Hresto (i, j)
               (proj2 (elem_of_fuera_diagonal _ _ i j)
                  (conj Hi (conj Hj Hne))))).
  - intros (Hsq & Hdiag & Hresto). split; [split; [done|]|].
    + intros i Hi%elem_of_rango. apply bool_decide_eq_true_2, Hdiag. lia.
    + intros [i j] (Hi & Hj & Hne)%elem_of_fuera_diagonal.
      by apply bool_decide_eq_true_2, Hresto.
Qed.

(** With more rows than columns the diagonal scan leaves the grid as soon
    as the first [columnas] diagonal entries are all one; this happens
    before [es_cuadrada] is consulted. *)
Lemma es_identidad_alta m :
  bien_formada m → columnas m < filas m →
  (∀ i, 0 ≤ i < columnas m → ent (valores m) i i = 1%Qc) →
  es_identidad m = Lanza IndexError.
Proof.
  intros Hm Halta Hdiag. apply bien_formada_forma in Hm as Hg.
  pose proof (bien_formada_no_negativa m Hm) as [HF HC].
  unfold es_identidad.
  rewrite (rango_app 0 (columnas m) (filas m)) by lia.
  assert (∀ l1 l2 (p : Z → resultado bool),
            (∀ x, x ∈ l1 → p x = Ok true) →
            py_all (l1 ++ l2) p = py_all l2 p) as Hpre.
  { induction l1 as [|x l1 IH]; intros l2 p Hp; [done|]. simpl.
    rewrite Hp by left. simpl. apply IH. intros y Hy. apply Hp. by right. }
  rewrite Hpre.
  - rewrite (rango_cons (columnas m) (filas m)) by lia. simpl.
    by rewrite (leer_columna_fuera _ _ _ Hg) by lia.
  - intros i Hi%elem_of_rango.
    rewrite (leer_ent _ _ _ Hg) by lia. simpl.
    by rewrite bool_decide_eq_true_2 by (apply Hdiag; lia).
Qed.

(** ** The scenarios of the specification, evaluated *)

(** [A.transponer() == [[1, 3], [2, 4]]] *)
Example escenario_transponer :
  (λ T, __eq__ T (ObjMatriz
                    (matriz_de false [[fr 1 1; fr 3 1]; [fr 2 1; fr 4 1]])))
    <$> transponer A_ejemplo = Ok true.
Proof. vm_compute. reflexivity. Qed.

(** [A * A == [[7, 10], [15, 22]]] *)
Example escenario_producto :
  (λ P, __eq__ P (ObjMatriz
                    (matriz_de false [[fr 7 1; fr 10 1]; [fr 15 1; fr 22 1]])))
    <$> __mul__ A_ejemplo (ObjMatriz A_ejemplo) = Ok true.
Proof. vm_compute. reflexivity. Qed.

(** [A * Fraction(1, 2) == [[1/2, 1], [3/2, 2]]] *)
Example escenario_escalar :
  (λ P, __eq__ P (ObjMatriz
                    (matriz_de false [[fr 1 2; fr 1 1]; [fr 3 2; fr 2 1]])))
    <$> __mul__ A_ejemplo (ObjFraction (fr 1 2)) = Ok true.
Proof. vm_compute. reflexivity. Qed.

(** ** Matrices compared and built entry by entry *)

Lemma eq_por_entradas A B :
  bien_formada A → bien_formada B →
  filas A = filas B → columnas A = columnas B →
  (∀ i j, 0 ≤ i < filas A → 0 ≤ j < columnas A →
          ent (valores A) i j = ent (valores B) i j) →
  __eq__ A (ObjMatriz B) = true.
Proof.
  intros HA HB Hf Hc Hent. rewrite Matriz_eq_desplegada.
  rewrite Hf, Hc, !Z.eqb_refl. simpl.
  rewrite (vista_tabla _ _ _ (proj1 (bien_formada_forma A) HA)).
  rewrite (vista_tabla _ _ _ (proj1 (bien_formada_forma B) HB)).
  rewrite <-Hf, <-Hc. erewrite tabla_ext; [apply todos_iguales_refl|].
  intros p c Hp Hc'. by apply Hent.
Qed.

Lemma zip_with_fmap_mismo {A B C D} (op : B → C → D) (f : A → B) (h : A → C)
    (l : list A) :
  zip_with op (f <$> l) (h <$> l) = (λ x, op (f x) (h x)) <$> l.
Proof. induction l as [|x l IH]; [done|]. csimpl. by f_equal. Qed.

Lemma zip_with_tabla (op : Qc → Qc → Qc) f h F C :
  zip_with (zip_with op) (tabla f F C) (tabla h F C) =
  tabla (λ p c, op (f p c) (h p c)) F C.
Proof.
  unfold tabla.
  rewrite (zip_with_fmap_mismo (zip_with op)
             (λ p, (λ c, f p c) <$> rango 0 C)
             (λ p, (λ c, h p c) <$> rango 0 C)).
  apply list_fmap_ext. intros k p _. simpl.
  apply (zip_with_fmap_mismo op (λ c, f p c) (λ c, h p c)).
Qed.

Lemma fmap_tabla (u : Qc → Qc) f F C :
  (λ fila : list Qc, u <$> fila) <$> tabla f F C = tabla (λ p c, u (f p c)) F C.
Proof.
  unfold tabla. rewrite <-list_fmap_compose. apply list_fmap_ext.
  intros k p _. simpl. by rewrite <-list_fmap_compose.
Qed.

Lemma matriz_tabla_bien_formada aum f F C :
  0 ≤ F → 0 ≤ C →
  bien_formada (MkMatriz aum F C (rejilla_nueva (tabla f F C))) ∧
  sin_alias (MkMatriz aum F C (rejilla_nueva (tabla f F C))).
Proof.
  intros HF HC. split.
  - apply bien_formada_forma. simpl. by apply forma_rejilla_nueva_tabla.
  - unfold sin_alias. simpl. apply NoDup_seq.
Qed.

(** What [__add__] and [__sub__] build from two grids of the same shape. *)
Lemma combinacion_Ok (op : Qc → Qc → Qc) aum A B :
  bien_formada A → bien_formada B →
  filas A = filas B → columnas A = columnas B →
  let S := MkMatriz aum (filas A) (columnas A)
             (rejilla_nueva
                (zip_with (zip_with op) (vista (valores A))
                   (vista (valores B)))) in
  bien_formada S ∧ sin_alias S ∧
  ∀ i j, 0 ≤ i < filas A → 0 ≤ j < columnas A →
    ent (valores S) i j = op (ent (valores A) i j) (ent (valores B) i j).
Proof.
  intros HA HB Hf Hc.
  pose proof (bien_formada_no_negativa A HA) as [HF HC].
  rewrite (vista_tabla _ _ _ (proj1 (bien_formada_forma A) HA)).
  rewrite (vista_tabla _ _ _ (proj1 (bien_formada_forma B) HB)).
  rewrite <-Hf, <-Hc, zip_with_tabla. simpl.
  destruct (matriz_tabla_bien_formada aum
              (λ p c, op (ent (valores A) p c) (ent (valores B) p c))
              (filas A) (columnas A) HF HC) as [H1 H2].
  split; [done|]. split; [done|].
  intros i j Hi Hj. by rewrite ent_rejilla_nueva_tabla.
Qed.

(** The product of two well-formed matrices of matching dimensions. *)
Lemma mul_Ok A B :
  bien_formada A → bien_formada B → columnas A = filas B →
  ∃ P, __mul__ A (ObjMatriz B) = Ok P ∧
       bien_formada P ∧ filas P = filas A ∧ columnas P = columnas B ∧
       aumentada P = aumentada A ∧
       ∀ i j, 0 ≤ i < filas A → 0 ≤ j < columnas B →
         ent (valores P) i j =
         coef_producto (valores A) (valores B) (columnas A) i j.
Proof.
  intros HA HB Heq.
  pose proof (bien_formada_no_negativa A HA) as [HFa HCa].
  pose proof (bien_formada_no_negativa B HB) as [HFb HCb].
  apply bien_formada_forma in HA as Hx. apply bien_formada_forma in HB as Hy.
  rewrite <-Heq in Hy. unfold __mul__.
  rewrite Heq, Z.eqb_refl. simpl. rewrite <-Heq.
  destruct (bucle_i (valores A) (valores B) (filas A) (columnas A)
              (columnas B) Hx Hy
              (rejilla_nueva (ceros (filas A) (columnas B))))
    as (acc & -> & Hf & Hent); [done|done|done|by apply Est_ceros|].
  simpl. eexists. split; [reflexivity|]. simpl.
  split; [by apply bien_formada_forma|]. repeat split.
  intros i j Hi Hj. by rewrite Hent.
Qed.

(** ** Finite sums *)

Lemma sumatoria_ext f h n :
  (∀ k, (k < n)%nat → f k = h k) → sumatoria f n = sumatoria h n.
Proof.
  induction n as [|n IH]; intros H; [done|]. simpl.
  rewrite IH by (intros; apply H; lia). by rewrite H by lia.
Qed.

Lemma sumatoria_cero f n :
  (∀ k, (k < n)%nat → f k = 0%Qc) → sumatoria f n = 0%Qc.
Proof.
  induction n as [|n IH]; intros H; [done|]. simpl.
  rewrite IH by (intros; apply H; lia). rewrite H by lia. ring.
Qed.

(** A sum with a single non-zero term. *)
Lemma sumatoria_unico f n j :
  (j < n)%nat → (∀ k, (k < n)%nat → k ≠ j → f k = 0%Qc) →
  sumatoria f n = f j.
Proof.
  induction n as [|n IH]; intros Hj H; [lia|]. simpl.
  destruct (decide (j = n)) as [->|Hne].
  - rewrite sumatoria_cero by (intros; apply H; lia). ring.
  - rewrite IH by (try lia; intros; apply H; lia).
    rewrite (H n) by lia. ring.
Qed.

Lemma sumatoria_suma f h n :
  sumatoria (λ k, f k + h k)%Qc n = (sumatoria f n + sumatoria h n)%Qc.
Proof. induction n as [|n IH]; simpl; [ring|]. rewrite IH. ring. Qed.

Lemma sumatoria_mult_l c f n :
  (c * sumatoria f n)%Qc = sumatoria (λ k, c * f k)%Qc n.
Proof. induction n as [|n IH]; simpl; [ring|]. rewrite <-IH. ring. Qed.

Lemma sumatoria_mult_r c f n :
  (sumatoria f n * c)%Qc = sumatoria (λ k, f k * c)%Qc n.
Proof. induction n as [|n IH]; simpl; [ring|]. rewrite <-IH. ring. Qed.

Lemma sumatoria_intercambio (f : nat → nat → Qc) n m :
  sumatoria (λ k, sumatoria (λ l, f k l) m) n =
  sumatoria (λ l, sumatoria (λ k, f k l) n) m.
Proof.
  induction n as [|n IH]; simpl.
  - symmetry. by apply sumatoria_cero.
  - rewrite IH. by rewrite <-sumatoria_suma.
Qed.

(** ** Accessors on well-formed matrices *)

Lemma py_indice_muy_negativo {A} (l : list A) i :
  i < - Z.of_nat (length l) → py_indice l i = Lanza IndexError.
Proof.
  intros Hi. unfold py_indice.
  rewrite (proj2 (Z.ltb_lt i 0)) by lia.
  by rewrite (proj2 (Z.ltb_lt (i + Z.of_nat (length l)) 0)) by lia.
Qed.

Lemma mod_envuelve i F :
  - F ≤ i < F →
  0 ≤ i mod F < F ∧ i mod F = (if i <? 0 then i + F else i).
Proof.
  intros Hi. destruct (Z.ltb_spec i 0).
  - assert (i mod F = i + F) as ->; [|lia].
    symmetry. apply (Z.mod_unique_pos i F (-1)); lia.
  - rewrite Z.mod_small by lia. lia.
Qed.

Lemma py_indice_envuelto {A} (l : list A) i :
  - Z.of_nat (length l) ≤ i < Z.of_nat (length l) →
  py_indice l i = py_indice l (i mod Z.of_nat (length l)).
Proof.
  intros Hi. destruct (mod_envuelve i _ Hi) as [_ ->].
  destruct (Z.ltb_spec i 0); [|done]. apply py_indice_negativo. lia.
Qed.

(** Reading with indices that may be negative: Python counts them from the
    end. *)
Lemma leer_envuelto g F C i j :
  forma g F C → - F ≤ i < F → - C ≤ j < C →
  leer g i j = Ok (ent g (i mod F) (j mod C)).
Proof.
  intros Hg Hi Hj. pose proof Hg as (HF & HC & Hobj).
  pose proof (proj1 (mod_envuelve i F Hi)) as Hi'.
  pose proof (proj1 (mod_envuelve j C Hj)) as Hj'.
  rewrite <-(leer_ent g F C Hg) by done. unfold leer.
  rewrite (py_indice_envuelto (refs g) i) by lia. rewrite HF.
  destruct (forma_ref g F C Hg (i mod F) Hi') as (a & Ha & -> & Hla). simpl.
  rewrite (py_indice_envuelto (objetos g a) j) by lia. by rewrite Hla.
Qed.

Lemma leer_fuera g F C i j :
  forma g F C → i < F → j < C → ¬ (- F ≤ i ∧ - C ≤ j) →
  leer g i j = Lanza IndexError.
Proof.
  intros Hg Hi Hj Hno. pose proof Hg as (HF & HC & Hobj). unfold leer.
  destruct (decide (- F ≤ i)) as [Hi'|Hi'].
  - pose proof (proj1 (mod_envuelve i F (conj Hi' Hi))) as Him.
    rewrite (py_indice_envuelto (refs g) i) by lia. rewrite HF.
    destruct (forma_ref g F C Hg (i mod F) Him) as (a & Ha & -> & Hla). simpl.
    apply py_indice_muy_negativo. lia.
  - by rewrite py_indice_muy_negativo by lia.
Qed.

Lemma getitem_elemento_en_rango m i j :
  bien_formada m → 0 ≤ i < filas m → 0 ≤ j < columnas m →
  __getitem__ m (ObjTupla [i; j]) = Ok (Elemento (ent (valores m) i j)).
Proof.
  intros Hm Hi Hj. unfold __getitem__.
  destruct (Z.leb_spec (filas m) i); [lia|].
  destruct (Z.leb_spec (columnas m) j); [lia|]. simpl.
  by rewrite (leer_ent _ _ _ (proj1 (bien_formada_forma m) Hm)).
Qed.

(** ** The zero test *)

Lemma es_matriz_cero_entradas m :
  bien_formada m →
  es_matriz_cero m = true ↔
  ∀ i j, 0 ≤ i < filas m → 0 ≤ j < columnas m → ent (valores m) i j = 0%Qc.
Proof.
  intros Hm. unfold es_matriz_cero.
  rewrite (vista_tabla _ _ _ (proj1 (bien_formada_forma m) Hm)).
  unfold tabla. rewrite forallb_elem_of. split.
  - intros H i j Hi Hj.
    specialize (H ((λ c, ent (valores m) i c) <$> rango 0 (columnas m))).
    rewrite forallb_elem_of in H.
    eapply bool_decide_eq_true_1, H.
    + apply list_elem_of_fmap. exists i. split; [done|]. by apply elem_of_rango.
    + apply list_elem_of_fmap. exists j. split; [done|]. by apply elem_of_rango.
  - intros H fila (i & -> & Hi%elem_of_rango)%list_elem_of_fmap.
    apply forallb_elem_of.
    intros x (j & -> & Hj%elem_of_rango)%list_elem_of_fmap.
    apply bool_decide_eq_true_2. by apply H.
Qed.

(** ** Symmetry of the comparison *)

Lemma todos_iguales_sim v1 v2 : todos_iguales v1 v2 = todos_iguales v2 v1.
Proof.
  revert v2. induction v1 as [|r1 v1 IH]; intros [|r2 v2]; try done.
  rewrite !todos_iguales_cons, IH. f_equal. clear.
  revert r2. induction r1 as [|x r1 IHr]; intros [|y r2]; try done.
  simpl. rewrite IHr. f_equal. apply bool_decide_ext. split; congruence.
Qed.

(** ** More on the identity test and on products *)

Lemma py_all_prefijo_falso {A} (l1 l2 : list A) (p : A → resultado bool)
    (h : A → bool) :
  (∀ x, x ∈ l1 → p x = Ok (h x)) → forallb h l1 = false →
  py_all (l1 ++ l2) p = Ok false.
Proof.
  induction l1 as [|x l1 IH]; intros Hp Hf; [done|]. simpl in *.
  rewrite Hp by left. simpl. destruct (h x); [|done]. simpl in *.
  apply IH; [|done]. intros y Hy. apply Hp. by right.
Qed.

(** With more rows than columns and a diagonal entry other than one among
    the first [columnas], the diagonal scan stops before it leaves the
    grid. *)
Lemma es_identidad_alta_falso m :
  bien_formada m → columnas m < filas m →
  (∃ i, 0 ≤ i < columnas m ∧ ent (valores m) i i ≠ 1%Qc) →
  es_identidad m = Ok false.
Proof.
  intros Hm Halta (i & Hi & Hne). apply bien_formada_forma in Hm as Hg.
  pose proof (bien_formada_no_negativa m Hm) as [HF HC].
  unfold es_identidad.
  rewrite (rango_app 0 (columnas m) (filas m)) at 1 by lia.
  rewrite (py_all_prefijo_falso _ _ _
             (λ i, bool_decide (ent (valores m) i i = 1%Qc))).
  - simpl.
    rewrite (py_all_Ok _ _
               (λ ij, bool_decide (ent (valores m) ij.1 ij.2 = 0%Qc))).
    + simpl. unfold es_cuadrada.
      destruct (Z.eqb_spec (filas m) (columnas m)); [lia|done].
    + intros [p c] Hpc%elem_of_fuera_diagonal. simpl.
      by rewrite (leer_ent _ _ _ Hg) by lia.
  - intros x Hx%elem_of_rango. by rewrite (leer_ent _ _ _ Hg) by lia.
  - destruct (forallb _ _) eqn:Hall; [|done].
    rewrite forallb_elem_of in Hall. destruct Hne.
    eapply bool_decide_eq_true_1, Hall, elem_of_rango. lia.
Qed.

(** What a true answer of [es_identidad] says about the entries. *)
Lemma es_identidad_true m :
  bien_formada m → es_identidad m = Ok true →
  filas m = columnas m ∧
  (∀ i, 0 ≤ i < filas m → ent (valores m) i i = 1%Qc) ∧
  (∀ i j, 0 ≤ i < filas m → 0 ≤ j < columnas m → i ≠ j →
          ent (valores m) i j = 0%Qc).
Proof.
  intros Hm Hid.
  assert (filas m = columnas m) as Hsq.
  { unfold es_identidad in Hid.
    apply bind_Ok in Hid as (d & _ & Hid).
    apply bind_Ok in Hid as (r & _ & [= Hid]).
    apply andb_true_iff in Hid as [Hid _].
    apply andb_true_iff in Hid as [Hid _]. by apply Z.eqb_eq. }
  destruct (es_identidad_ancha m Hm) as (b & Hb & Hiff); [lia|].
  rewrite Hid in Hb. injection Hb as <-. by apply Hiff.
Qed.

Lemma coef_producto_identidad_r x y n i j :
  0 ≤ j < n →
  (∀ k, 0 ≤ k < n → ent y k k = 1%Qc) →
  (∀ k l, 0 ≤ k < n → 0 ≤ l < n → k ≠ l → ent y k l = 0%Qc) →
  coef_producto x y n i j = ent x i j.
Proof.
  intros Hj Hd Ho. unfold coef_producto.
  rewrite (sumatoria_unico _ _ (Z.to_nat j)) by
    (try lia; intros k Hk Hne; rewrite (Ho (Z.of_nat k) j) by lia; ring).
  rewrite Z2Nat.id by lia. rewrite Hd by lia. ring.
Qed.

Lemma coef_producto_identidad_l x y n i j :
  0 ≤ i < n →
  (∀ k, 0 ≤ k < n → ent x k k = 1%Qc) →
  (∀ k l, 0 ≤ k < n → 0 ≤ l < n → k ≠ l → ent x k l = 0%Qc) →
  coef_producto x y n i j = ent y i j.
Proof.
  intros Hi Hd Ho. unfold coef_producto.
  rewrite (sumatoria_unico _ _ (Z.to_nat i)) by
    (try lia; intros k Hk Hne; rewrite (Ho i (Z.of_nat k)) by lia; ring).
  rewrite Z2Nat.id by lia. rewrite Hd by lia. ring.
Qed.

(** The entries of a transposed matrix. *)
Lemma transponer_entradas m :
  bien_formada m →
  ∃ T, transponer m = Ok T ∧ bien_formada T ∧
       filas T = columnas m ∧ columnas T = filas m ∧
       aumentada T = aumentada m ∧
       ∀ i j, 0 ≤ i < columnas m → 0 ≤ j < filas m →
         ent (valores T) i j = ent (valores m) j i.
Proof.
  intros Hm. pose proof (bien_formada_no_negativa m Hm) as [HF HC].
  eexists. split; [by apply transponer_Ok|].
  split; [by apply matriz_tabla_bien_formada|]. repeat split.
  intros i j Hi Hj. simpl. by rewrite ent_rejilla_nueva_tabla.
Qed.

(** ** Triangularising a matrix that is already triangular *)

Lemma Qc_sin_cambio (x d y : Qc) : (x - 0 / d * y)%Qc = x.
Proof. unfold Qcdiv. ring. Qed.

(** With zeros below the pivot every factor is zero and the loop over the
    rows below writes back the values it read. *)
Lemma eliminar_columna_sin_cambio F C i g :
  0 ≤ i < F → i < C → forma g F C → ent g i i ≠ 0%Qc →
  (∀ p, i < p < F → ent g p i = 0%Qc) →
  ∃ g', para (rango (i + 1) F) (eliminar_fila i C) g = Ok g' ∧
        forma g' F C ∧
        ∀ p c, 0 ≤ p < F → 0 ≤ c < C → ent g' p c = ent g p c.
Proof.
  intros Hi HiC Hg Hnz Hcol.
  set (J := λ (j : Z) (h : rejilla),
    forma h F C ∧ ∀ p c, 0 ≤ p < F → 0 ≤ c < C → ent h p c = ent g p c).
  destruct (para_invariante J (i + 1) F (eliminar_fila i C) g)
    as (g' & Hrun & Hg' & Hent); [lia|by split| |by exists g'].
  intros j h Hj (Hh & Hent).
  destruct (eliminar_fila_ok h F C Hh i j)
    as (h' & Hstep & Hh' & _ & Hent'); [lia|lia|lia| |].
  { by rewrite Hent by lia. }
  exists h'. split; [done|]. split; [done|].
  intros p c Hp Hc. rewrite Hent' by done.
  case_decide; [|by apply Hent].
  rewrite (Hent j i), (Hcol j), Qc_sin_cambio by lia. by apply Hent.
Qed.

Lemma paso_sin_cambio F C i g b :
  0 ≤ i < F → i < C → forma g F C →
  (∀ p, i < p < F → ent g p i = 0%Qc) →
  ∃ g', paso F C i (g, b) = Ok (g', b) ∧ forma g' F C ∧
        ∀ p c, 0 ≤ p < F → 0 ≤ c < C → ent g' p c = ent g p c.
Proof.
  intros Hi HiC Hg Hcol.
  destruct (paso_desplegado F C i Hi HiC g Hg b)
    as (m & _ & Hm & Hmax & [[Hz ->]|(Hnz & g1 & Hg1 & _ & Hent1 & ->)]).
  - by exists g.
  - assert (m = i) as ->.
    { destruct (decide (m = i)) as [|Hne]; [done|].
      destruct Hnz. apply Hcol. lia. }
    assert (∀ p c, 0 ≤ p < F → ent g1 p c = ent g p c) as Hsame.
    { intros p c Hp. rewrite Hent1 by done. unfold permuta.
      by repeat case_decide; subst. }
    destruct (eliminar_columna_sin_cambio F C i g1)
      as (g2 & -> & Hg2 & Hent2); [done|done|done| | |].
    + by rewrite Hsame.
    + intros p Hp. rewrite Hsame by lia. by apply Hcol.
    + simpl. rewrite decide_True by done. exists g2.
      split; [done|]. split; [done|].
      intros p c Hp Hc. rewrite Hent2 by done. by apply Hsame.
Qed.

Lemma hacer_triangular_sin_cambio m :
  bien_formada m → filas m ≤ columnas m →
  triangular_hasta (valores m) (filas m) (filas m) →
  ∃ T, hacer_triangular_superior m = Ok (T, false) ∧
       bien_formada T ∧ filas T = filas m ∧ columnas T = columnas m ∧
       aumentada T = aumentada m ∧
       vista (valores T) = vista (valores m).
Proof.
  intros Hm Hdim Htri. apply bien_formada_forma in Hm as Hg.
  pose proof (bien_formada_no_negativa m Hm) as [HF HC].
  set (I := λ (i : Z) (st : rejilla * bool),
    st.2 = false ∧ forma st.1 (filas m) (columnas m) ∧
    ∀ p c, 0 ≤ p < filas m → 0 ≤ c < columnas m →
      ent st.1 p c = ent (valores m) p c).
  unfold hacer_triangular_superior.
  destruct (para_invariante I 0 (filas m) (paso (filas m) (columnas m))
              (deepcopy (valores m), false))
    as ([g b] & -> & Hb & Hg' & Hent); [done|by split| |].
  - intros i [h c] Hi (Hc & Hh & Hent). simpl in *. subst c.
    destruct (paso_sin_cambio (filas m) (columnas m) i h false)
      as (h' & Hstep & Hh' & Hent'); [lia|lia|done| |].
    { intros p Hp. rewrite Hent by lia. apply Htri; lia. }
    exists (h', false). split; [done|]. split; [done|]. split; [done|].
    intros p c Hp Hc. rewrite Hent' by done. by apply Hent.
  - simpl in *. subst b. eexists. split; [reflexivity|]. simpl.
    split; [by apply bien_formada_forma|]. repeat split.
    rewrite (vista_tabla _ _ _ Hg'), (vista_tabla _ _ _ Hg).
    by apply tabla_ext.
Qed.

(** With more rows than columns no call returns: the pass for
    [i = columnas] cannot find its pivot. *)
Lemma hacer_triangular_superior_alta_no_termina m :
  bien_formada m → columnas m < filas m →
  ¬ termina (hacer_triangular_superior m).
Proof.
  intros Hm Halta [[T b] Hrun].
  pose proof (bien_formada_no_negativa m Hm) as [HF HC].
  unfold hacer_triangular_superior in Hrun.
  apply bind_Ok in Hrun as (st & Hrun & _).
  rewrite (rango_app 0 (columnas m) (filas m)), para_app in Hrun by lia.
  apply bind_Ok in Hrun as ([g c] & Hpre & Hpost).
  assert (Inv_triangular m (columnas m) (g, c)) as (Hg & _).
  { eapply (para_invariante_parcial (Inv_triangular m) 0 (columnas m));
      [done|by apply Inv_inicial| |exact Hpre].
    intros i [h d] [h' d'] Hi (Hh & Hp & Ht) Hstep. simpl in *.
    destruct (paso_parcial (filas m) (columnas m) i
                ltac:(lia) ltac:(lia) h Hh d h' d' Ht Hstep)
      as (Hh' & Hp' & Ht').
    split; [done|]. split; [by rewrite Hp'|done]. }
  rewrite (rango_cons (columnas m) (filas m)), para_cons in Hpost by lia.
  simpl in Hg.
  by rewrite (paso_columna_fuera _ _ g c Hg) in Hpost by lia.
Qed.

(** ** Matrices with two rows *)

Lemma misma_fila_sin_alias g F C p q :
  forma g F C → NoDup (refs g) → 0 ≤ p < F → 0 ≤ q < F →
  misma_fila g p q → p = q.
Proof.
  intros Hg Hnd Hp Hq Hsame. unfold misma_fila in Hsame.
  destruct (forma_ref g F C Hg p) as (a & Ha & _); [done|].
  rewrite Ha in Hsame. symmetry in Hsame.
  pose proof (NoDup_lookup _ _ _ _ Hnd Ha Hsame). lia.
Qed.

Lemma Qc_det_sin_cambio (a b c d : Qc) :
  a ≠ 0%Qc → (1 * a * (d - c / a * b))%Qc = (a * d - b * c)%Qc.
Proof. intros. field. done. Qed.

Lemma Qc_det_cambio (a b c d : Qc) :
  c ≠ 0%Qc → (- (1 * c * (b - a / c * d)))%Qc = (a * d - b * c)%Qc.
Proof. intros. field. done. Qed.

(** The first pass on a grid with two rows, none of them shared. *)
Lemma paso_0_dos_filas g C :
  forma g 2 C → 0 < C → NoDup (refs g) →
  ∃ g' (s : bool),
    paso 2 C 0 (g, false) = Ok (g', s) ∧ forma g' 2 C ∧
    ent g' 1 0 = 0%Qc ∧
    (1 < C →
     (if s then - (1 * ent g' 0 0 * ent g' 1 1) else 1 * ent g' 0 0 * ent g' 1 1)%Qc
     = (ent g 0 0 * ent g 1 1 - ent g 0 1 * ent g 1 0)%Qc).
Proof.
  intros Hg HC Hnd.
  destruct (paso_desplegado 2 C 0 ltac:(lia) HC g Hg false)
    as (m & _ & Hm & Hmax & [[Hz ->]|(Hnz & g1 & Hg1 & Hperm & Hent1 & ->)]).
  - exists g, false. split; [done|]. split; [done|].
    assert (ent g 0 0 = 0%Qc) as H0
      by (apply (Qcabs_cero _ (ent g m 0)); [apply Hmax; lia|done]).
    assert (ent g 1 0 = 0%Qc) as H1
      by (apply (Qcabs_cero _ (ent g m 0)); [apply Hmax; lia|done]).
    split; [done|]. intros _. rewrite H0, H1. ring.
  - change (rango (0 + 1) 2) with [1]. rewrite para_cons.
    assert (ent g1 0 0 ≠ 0%Qc) as Hp.
    { rewrite Hent1 by lia. unfold permuta. by rewrite decide_True. }
    destruct (eliminar_fila_ok g1 2 C Hg1 0 1)
      as (g2 & -> & Hg2 & _ & Hent2); [lia|lia|lia|done|].
    assert (NoDup (refs g1)) as Hnd1 by (by rewrite Hperm).
    assert (∀ c, 0 ≤ c < C → ent g2 0 c = ent g1 0 c) as Hfila0.
    { intros c Hc. rewrite Hent2 by lia. case_decide as Hs; [|done].
      apply (misma_fila_sin_alias g1 2 C) in Hs; [lia|done|done|lia|lia]. }
    assert (∀ c, 0 ≤ c < C →
      ent g2 1 c = (ent g1 1 c - ent g1 1 0 / ent g1 0 0 * ent g1 0 c)%Qc)
      as Hfila1.
    { intros c Hc. rewrite Hent2 by lia. by rewrite decide_True. }
    simpl. exists g2, (if decide (m = 0) then false else true).
    split; [done|]. split; [done|]. split.
    + rewrite Hfila1 by lia. by apply Qc_elimina.
    + intros HC1. rewrite Hfila0, Hfila1, !Hent1 by lia.
      unfold permuta. destruct (decide (m = 0)) as [->|Hm0].
      * simpl. apply Qc_det_sin_cambio.
        rewrite Hent1 in Hp by lia. exact Hp.
      * assert (m = 1) as -> by lia. simpl.
        apply Qc_det_cambio. exact Hnz.
Qed.

(** The last pass on a grid with two rows: the pivot is the last row and
    there is no row below it. *)
Lemma paso_1_dos_filas g C s :
  forma g 2 C → 1 < C →
  ∃ g', paso 2 C 1 (g, s) = Ok (g', s) ∧ forma g' 2 C ∧
        ∀ p c, 0 ≤ p < 2 → ent g' p c = ent g p c.
Proof.
  intros Hg HC.
  destruct (paso_desplegado 2 C 1 ltac:(lia) HC g Hg s)
    as (m & _ & Hm & _ & [[Hz ->]|(Hnz & g1 & Hg1 & _ & Hent1 & ->)]).
  - by exists g.
  - assert (m = 1) as -> by lia.
    rewrite (rango_vacio (1 + 1) 2) by lia. simpl. exists g1.
    split; [done|]. split; [done|].
    intros p c Hp. rewrite Hent1 by done. unfold permuta.
    by repeat case_decide; subst.
Qed.

(** ** The matrix-vector product of the main manager *)

Lemma para_enum_invariante {A E} (I : Z → E → Prop) (l : list A)
    (cuerpo : Z → A → E → resultado E) k s :
  I k s →
  (∀ (n : nat) x t, l !! n = Some x → I (k + Z.of_nat n) t →
     ∃ t', cuerpo (k + Z.of_nat n) x t = Ok t' ∧ I (k + Z.of_nat n + 1) t') →
  ∃ s', para_enum k l cuerpo s = Ok s' ∧ I (k + Z.of_nat (length l)) s'.
Proof.
  revert k s. induction l as [|x l IH]; intros k s Hs Hc.
  - exists s. split; [done|]. simpl. by rewrite Z.add_0_r.
  - destruct (Hc 0%nat x s) as (t & Ht & HI); [done|by rewrite Z.add_0_r|].
    simpl in Ht, HI. rewrite Z.add_0_r in Ht, HI.
    destruct (IH (k + 1) t HI) as (s' & Hrun & Hs').
    + intros n y u Hy Hu.
      replace (k + 1 + Z.of_nat n) with (k + Z.of_nat (S n)) in * by lia.
      by apply Hc.
    + exists s'. simpl. rewrite Ht. simpl. split; [done|].
      replace (k + Z.of_nat (S (length l)))
        with (k + 1 + Z.of_nat (length l)) by lia. done.
Qed.

Lemma componente_de_lookup vec (n : nat) x :
  vec !! n = Some x → componente_de vec (Z.of_nat n) = x.
Proof. intros Hx. unfold componente_de. by rewrite Nat2Z.id, Hx. Qed.

Lemma acumula_componente_ok mat vec i (n : nat) x res :
  bien_formada mat → columnas mat = Z.of_nat (length vec) →
  0 ≤ i < filas mat → vec !! n = Some x →
  Est_componentes mat vec i (Z.of_nat n) res →
  ∃ res', acumula_componente mat i (Z.of_nat n) x res = Ok res' ∧
          Est_componentes mat vec i (Z.of_nat n + 1) res'.
Proof.
  intros Hm Hlen Hi Hx (Hf & Hnd & Hent).
  assert (0 ≤ Z.of_nat n < Z.of_nat (length vec)) as Hj.
  { apply lookup_lt_Some in Hx. lia. }
  destruct (forma_ref res _ _ Hf i Hi) as (a & Ha & Hia & Hla).
  unfold acumula_componente. rewrite Hia. cbn -[__getitem__].
  rewrite (py_indice_Z _ _ _ (proj1 Hj) (forma_coef res _ _ Hf i _ a Hj Ha)).
  cbn -[__getitem__].
  rewrite getitem_elemento_en_rango by (done || lia). simpl.
  destruct (escribir_obj_ok res _ _ i a (Z.of_nat n)
              (ent res i (Z.of_nat n) + ent (valores mat) i (Z.of_nat n) * x)%Qc
              Hf Hi Ha Hj)
    as (res' & -> & Hf' & Hr' & Hent').
  exists res'. split; [done|]. split; [done|]. split; [by rewrite Hr'|].
  intros p c Hp Hc. rewrite Hent' by done.
  destruct (decide (misma_fila res p i ∧ c = Z.of_nat n)) as [[Hs ->]|Hno].
  - apply (misma_fila_sin_alias res _ _ p i Hf Hnd Hp Hi) in Hs as ->.
    rewrite Hent by done. rewrite decide_False by lia.
    rewrite decide_True by lia.
    rewrite (componente_de_lookup vec n x Hx). ring.
  - rewrite Hent by done.
    assert (¬ (p = i ∧ c = Z.of_nat n)) as Hne.
    { intros [-> ->]. by apply Hno. }
    repeat case_decide; try done; lia.
Qed.

Lemma bucle_componentes mat vec i res :
  bien_formada mat → columnas mat = Z.of_nat (length vec) →
  0 ≤ i < filas mat →
  Est_componentes mat vec i 0 res →
  ∃ res', para_enum 0 vec (acumula_componente mat i) res = Ok res' ∧
          Est_componentes mat vec (i + 1) 0 res'.
Proof.
  intros Hm Hlen Hi Hres.
  destruct (para_enum_invariante (Est_componentes mat vec i) vec
              (acumula_componente mat i) 0 res)
    as (res' & Hrun & Hf & Hnd & Hent); [done| |].
  { intros n x t Hx Ht. rewrite Z.add_0_l in *.
    by apply acumula_componente_ok. }
  exists res'. split; [done|]. split; [done|]. split; [done|].
  intros p c Hp Hc. rewrite Hent by done.
  repeat case_decide; try done; lia.
Qed.

(** The two loops of [producto_matriz_vector]. *)
Lemma bucles_producto_matriz_vector mat vec :
  bien_formada mat → columnas mat = Z.of_nat (length vec) →
  ∃ res,
    para (rango 0 (filas mat))
      (λ i, para_enum 0 vec (acumula_componente mat i))
      (rejilla_nueva (ceros (filas mat) (Z.of_nat (length vec)))) = Ok res ∧
    forma res (filas mat) (columnas mat) ∧ NoDup (refs res) ∧
    ∀ i j, 0 ≤ i < filas mat → 0 ≤ j < columnas mat →
      ent res i j = (ent (valores mat) i j * componente_de vec j)%Qc.
Proof.
  intros Hm Hlen. pose proof (bien_formada_no_negativa mat Hm) as [HF HC].
  rewrite <-Hlen.
  destruct (para_invariante (λ i, Est_componentes mat vec i 0) 0 (filas mat)
              (λ i, para_enum 0 vec (acumula_componente mat i))
              (rejilla_nueva (ceros (filas mat) (columnas mat))))
    as (res & Hrun & Hf & Hnd & Hent); [done| | |].
  - change (ceros (filas mat) (columnas mat))
      with (tabla (λ _ _, 0%Qc) (filas mat) (columnas mat)).
    split; [rewrite <-Hlen; by apply forma_rejilla_nueva_tabla|].
    split; [apply NoDup_seq|].
    intros p c Hp Hc. rewrite ent_rejilla_nueva_tabla by lia.
    repeat case_decide; try done; lia.
  - intros i t Hi Ht. by apply bucle_componentes.
  - rewrite <-Hlen in Hf. exists res. split; [done|].
    split; [done|]. split; [done|].
    intros i j Hi Hj. rewrite Hent by lia.
    rewrite decide_True by lia. done.
Qed.

(** ** The main menu *)

Lemma valida_rango int linea o : valida int linea = Some o → 1 ≤ o ≤ 3.
Proof.
  unfold valida. destruct (int linea) as [z|]; [|done].
  destruct (Z.ltb_spec z 1), (Z.ltb_spec 3 z); simpl; intros [= <-]; lia.
Qed.

(** One call: the answer is returned, or the line after it is dropped
    and the menu is shown again. *)
Lemma main_menu_desplegado int marcos linea entrada :
  main_menu int (S marcos) (linea :: entrada) =
  match valida int linea with
  | Some o => (Devuelve o, entrada)
  | None =>
      match entrada with
      | [] => (LanzaEOFError, [])
      | _ :: entrada' => main_menu int marcos entrada'
      end
  end.
Proof.
  simpl. unfold valida. destruct (int linea) as [z|]; [|done].
  by destruct ((z <? 1) || (3 <? z)).
Qed.

Lemma OpsManager_main_menu_strip int strip marcos entrada :
  OpsManager_main_menu int strip marcos entrada
  = main_menu (int ∘ strip) marcos entrada.
Proof.
  revert entrada. induction marcos as [|marcos IH]; intros entrada; [done|].
  destruct entrada as [|linea entrada]; [done|]. simpl.
  destruct (int (strip linea)) as [z|].
  - destruct ((z <? 1) || (3 <? z)); [|done].
    destruct entrada; [done|apply IH].
  - destruct entrada; [done|apply IH].
Qed.

Lemma intento_0 int linea entrada :
  intento int (linea :: entrada) 0 = valida int linea.
Proof. reflexivity. Qed.

Lemma intento_S int l1 l2 entrada n :
  intento int (l1 :: l2 :: entrada) (S n) = intento int entrada n.
Proof.
  unfold intento. replace (2 * S n)%nat with (S (S (2 * n))) by lia. done.
Qed.

(** The first valid answer is returned. *)
Lemma main_menu_devuelve int k : ∀ marcos entrada o,
  (k < marcos)%nat →
  (∀ n, (n < k)%nat → intento int entrada n = None) →
  intento int entrada k = Some o →
  main_menu int marcos entrada = (Devuelve o, drop (2 * k + 1) entrada).
Proof.
  induction k as [|k IH]; intros marcos entrada o Hk Hinv Hval.
  - destruct marcos as [|marcos]; [lia|].
    destruct entrada as [|linea entrada]; [done|].
    rewrite intento_0 in Hval.
    rewrite main_menu_desplegado, Hval. simpl. by rewrite drop_0.
  - destruct marcos as [|marcos]; [lia|].
    destruct entrada as [|l1 [|l2 entrada]]; [done|done|].
    rewrite intento_S in Hval.
    rewrite main_menu_desplegado.
    pose proof (Hinv 0%nat ltac:(lia)) as H0. rewrite intento_0 in H0.
    rewrite H0. rewrite (IH marcos entrada o); [|lia| |done].
    + f_equal. replace (2 * S k + 1)%nat with (S (S (2 * k + 1))) by lia. done.
    + intros n Hn. rewrite <-(intento_S int l1 l2). apply Hinv. lia.
Qed.

(** Whatever is returned is the first valid answer. *)
Lemma main_menu_devuelve_inv int marcos : ∀ entrada o resto,
  main_menu int marcos entrada = (Devuelve o, resto) →
  ∃ k, (k < marcos)%nat ∧
       (∀ n, (n < k)%nat → intento int entrada n = None) ∧
       intento int entrada k = Some o ∧
       resto = drop (2 * k + 1) entrada.
Proof.
  induction marcos as [|marcos IH]; intros entrada o resto Hrun; [done|].
  destruct entrada as [|linea entrada]; [done|].
  rewrite main_menu_desplegado in Hrun.
  destruct (valida int linea) as [o'|] eqn:Hval.
  - injection Hrun as <- <-. exists 0%nat. split; [lia|].
    split; [intros n Hn; lia|]. split; [by rewrite intento_0|].
    simpl. by rewrite drop_0.
  - destruct entrada as [|l2 entrada]; [done|].
    destruct (IH entrada o resto Hrun) as (k & Hk & Hinv & Hvalk & ->).
    exists (S k). split; [lia|]. split; [|split].
    + intros [|n] Hn; [by rewrite intento_0|].
      rewrite intento_S. apply Hinv. lia.
    + by rewrite intento_S.
    + replace (2 * S k + 1)%nat with (S (S (2 * k + 1))) by lia. done.
Qed.

(** Without a valid answer the input runs out. *)
Lemma main_menu_fin_entrada int marcos : ∀ entrada,
  (length entrada < 2 * marcos)%nat →
  (∀ n, intento int entrada n = None) →
  main_menu int marcos entrada = (LanzaEOFError, []).
Proof.
  induction marcos as [|marcos IH]; intros entrada Hlen Hinv; [lia|].
  destruct entrada as [|linea entrada]; [done|].
  rewrite main_menu_desplegado.
  pose proof (Hinv 0%nat) as H0. rewrite intento_0 in H0. rewrite H0.
  destruct entrada as [|l2 entrada]; [done|].
  apply IH; [simpl in Hlen; lia|].
  intros n. rewrite <-(intento_S int linea l2). apply Hinv.
Qed.

(** Too many invalid answers exhaust the nested calls. *)
Lemma main_menu_recursion int marcos : ∀ entrada,
  (2 * marcos ≤ length entrada)%nat →
  (∀ n, (n < marcos)%nat → intento int entrada n = None) →
  main_menu int marcos entrada
  = (LanzaRecursionError, drop (2 * marcos) entrada).
Proof.
  induction marcos as [|marcos IH]; intros entrada Hlen Hinv; [done|].
  destruct entrada as [|linea [|l2 entrada]]; [simpl in Hlen; lia..|].
  rewrite main_menu_desplegado.
  pose proof (Hinv 0%nat ltac:(lia)) as H0. rewrite intento_0 in H0.
  rewrite H0, IH.
  - f_equal. replace (2 * S marcos)%nat with (S (S (2 * marcos))) by lia. done.
  - simpl in Hlen. lia.
  - intros n Hn. rewrite <-(intento_S int linea l2). apply Hinv. lia.
Qed.

(** ** The text of a matrix *)

Lemma length_append (s t : string) :
  String.length (s +:+ t) = (String.length s + String.length t)%nat.
Proof.
  induction s as [|c s IH]; [done|].
  change (String c s +:+ t) with (String c (s +:+ t)). simpl. by rewrite IH.
Qed.

Lemma append_assoc (s t u : string) : (s +:+ t) +:+ u = s +:+ (t +:+ u).
Proof.
  induction s as [|c s IH]; [done|].
  change (String c s +:+ t) with (String c (s +:+ t)).
  change (String c (s +:+ t) +:+ u) with (String c ((s +:+ t) +:+ u)).
  by rewrite IH.
Qed.

Lemma append_vacia_r (s : string) : s +:+ EmptyString = s.
Proof.
  induction s as [|c s IH]; [done|].
  change (String c s +:+ EmptyString) with (String c (s +:+ EmptyString)).
  by rewrite IH.
Qed.

Lemma length_espacios n : String.length (espacios n) = n.
Proof. induction n as [|n IH]; [done|]. simpl. by rewrite IH. Qed.

Lemma une_app l1 l2 : une (l1 ++ l2) = une l1 +:+ une l2.
Proof.
  induction l1 as [|s l1 IH]; [done|]. simpl. fold (une (l1 ++ l2)).
  fold (une l1). by rewrite IH, append_assoc.
Qed.

Lemma land_bit (a b : Z) : 0 ≤ Z.land (Z.land a b) 1 ≤ a mod 2.
Proof.
  change 1 with (Z.ones 1). rewrite Z.land_ones by lia. change (2 ^ 1) with 2.
  rewrite <-(Z.bit0_mod (Z.land a b)), <-(Z.bit0_mod a), Z.land_spec.
  by destruct (Z.testbit a 0), (Z.testbit b 0).
Qed.

(** [center] pads to the width it is given. *)
Lemma length_center s M :
  Z.of_nat (String.length s) ≤ M →
  Z.of_nat (String.length (center s M)) = M.
Proof.
  intros Hle. unfold center.
  destruct (Z.leb_spec M (Z.of_nat (String.length s))) as [Hge|Hlt]; [lia|].
  set (marg := M - Z.of_nat (String.length s)).
  assert (0 < marg) as Hmarg by (unfold marg; lia).
  pose proof (land_bit marg M) as Hbit.
  pose proof (Z.div_mod marg 2 ltac:(lia)) as Hdiv.
  pose proof (Z.mod_pos_bound marg 2 ltac:(lia)) as Hmod.
  assert (0 ≤ marg / 2) as Hq by (apply Z.div_pos; lia).
  rewrite !length_append, !length_espacios. unfold marg in *. lia.
Qed.

Lemma length_celda aum C j v :
  Z.of_nat (String.length (celda aum C j v)) =
  Z.of_nat (String.length v)
  + (if j =? 0 then 4 else if (j =? C - 2) && aum then 3 else 2).
Proof.
  unfold celda.
  destruct (j =? 0), (j =? C - 1), ((j =? C - 2) && aum); simpl;
    rewrite ?length_append; simpl; lia.
Qed.

(** The flag [aumentada] shows only from three columns on. *)
Lemma celda_dos_columnas aum C j v :
  C ≤ 2 → 0 ≤ j < C → celda aum C j v = celda false C j v.
Proof.
  intros HC Hj. unfold celda.
  destruct (Z.eqb_spec j 0), (Z.eqb_spec j (C - 1)), (Z.eqb_spec j (C - 2));
    simpl; try done; lia.
Qed.

Lemma para_ext {E} l (c1 c2 : Z → E → resultado E) s :
  (∀ x t, x ∈ l → c1 x t = c2 x t) → para l c1 s = para l c2 s.
Proof.
  revert s. induction l as [|x l IH]; intros s Hc; [done|].
  rewrite !para_cons, Hc by left.
  destruct (c2 x s) as [t|e]; [|done]. simpl. apply IH.
  intros y u Hy. apply Hc. by right.
Qed.

(** A loop that appends a text for every element. *)
Lemma para_une l (cuerpo : Z → string → resultado string)
    (g : Z → string) s :
  (∀ x t, x ∈ l → cuerpo x t = Ok (t +:+ g x)) →
  para l cuerpo s = Ok (s +:+ une (g <$> l)).
Proof.
  revert s. induction l as [|x l IH]; intros s Hc.
  - simpl. by rewrite append_vacia_r.
  - rewrite para_cons, Hc by left. simpl.
    rewrite IH by (intros y u Hy; apply Hc; by right).
    by rewrite append_assoc.
Qed.

Lemma py_max_Ok (l : list Z) :
  l ≠ [] → ∃ M, py_max l = Ok M ∧ M ∈ l ∧ ∀ x, x ∈ l → x ≤ M.
Proof.
  destruct l as [|x l]; [done|]. intros _. simpl.
  assert (∀ l y, foldl Z.max y l ∈ y :: l ∧ y ≤ foldl Z.max y l ∧
                 ∀ z, z ∈ l → z ≤ foldl Z.max y l) as Hmax.
  { clear. induction l as [|z l IH]; intros y.
    - simpl. split; [left|]. split; [lia|]. intros z Hz. by inversion Hz.
    - simpl. destruct (IH (Z.max y z)) as (Hin & Hle & Hall).
      split; [|split].
      + apply elem_of_cons in Hin as [Heq|Hin].
        * rewrite Heq. destruct (Z.max_spec y z) as [[_ ->]|[_ ->]];
            [right; left|left].
        * by do 2 right.
      + lia.
      + intros w [->|Hw]%elem_of_cons; [lia|by apply Hall]. }
  destruct (Hmax l x) as (Hin & Hle & Hall).
  eexists. split; [reflexivity|]. split; [done|].
  intros y [->|Hy]%elem_of_cons; [done|by apply Hall].
Qed.

Lemma elem_of_pares F C (ij : Z * Z) :
  ij ∈ (i ← rango 0 F; j ← rango 0 C; [(i, j)]) ↔
  0 ≤ ij.1 < F ∧ 0 ≤ ij.2 < C.
Proof.
  rewrite list_elem_of_bind. split.
  - intros (i & (j & Hij%list_elem_of_singleton & Hj%elem_of_rango)%list_elem_of_bind
              & Hi%elem_of_rango). by subst.
  - intros [Hi Hj]. exists ij.1. split; [|by apply elem_of_rango].
    apply list_elem_of_bind. exists ij.2. split; [|by apply elem_of_rango].
    apply list_elem_of_singleton. by destruct ij.
Qed.

(** The length of the first [k] entries of a line. *)
Lemma length_linea_hasta aum C M (v : Z → string) k :
  (∀ j, 0 ≤ j < C → Z.of_nat (String.length (v j)) = M) →
  0 ≤ k ≤ C →
  Z.of_nat (String.length (une ((λ j, celda aum C j (v j)) <$> rango 0 k)))
  = k * (M + 2) + (if 0 <? k then 2 else 0)
    + (if aum && (3 <=? C) && (C - 1 <=? k) then 1 else 0).
Proof.
  intros Hv [Hk HkC]. revert HkC. pattern k.
  apply natlike_ind; [| |done]; clear k Hk.
  - intros _. rewrite rango_vacio by lia. simpl.
    destruct aum, (Z.leb_spec 3 C), (Z.leb_spec (C - 1) 0); simpl; lia.
  - intros k Hk IH HkC. rewrite (rango_app 0 k (Z.succ k)) by lia.
    rewrite (rango_cons k (Z.succ k)), (rango_vacio (k + 1)) by lia.
    rewrite fmap_app, une_app, length_append, Nat2Z.inj_add, IH by lia.
    simpl. rewrite append_vacia_r, length_celda, Hv by lia.
    destruct aum, (Z.leb_spec 3 C), (Z.leb_spec (C - 1) k),
      (Z.leb_spec (C - 1) (Z.succ k)), (Z.ltb_spec 0 k),
      (Z.ltb_spec 0 (Z.succ k)), (Z.eqb_spec k 0), (Z.eqb_spec k (C - 2));
      simpl; lia.
Qed.

Lemma str_vacia texto (self : Matriz) :
  filas self ≤ 0 ∨ columnas self ≤ 0 →
  __str__ texto self = Lanza ValueError.
Proof.
  intros Hvacia. unfold __str__.
  assert ((i ← rango 0 (filas self); j ← rango 0 (columnas self); [(i, j)])
          = @nil (Z * Z)) as ->; [|done].
  destruct (i ← rango 0 (filas self); j ← rango 0 (columnas self); [(i, j)])
    as [|ij l] eqn:Hl; [done|].
  assert (ij ∈ (i ← rango 0 (filas self); j ← rango 0 (columnas self);
                [(i, j)])) as Hin%elem_of_pares by (rewrite Hl; left).
  lia.
Qed.

Lemma str_Ok texto (self : Matriz) :
  bien_formada self → 0 < filas self → 0 < columnas self →
  ∃ M,
    __str__ texto self
    = Ok (une ((λ i, linea_de texto self M i +:+ salto)
               <$> rango 0 (filas self))) ∧
    (∀ i j, 0 ≤ i < filas self → 0 ≤ j < columnas self →
       Z.of_nat (String.length (texto (ent (valores self) i j))) ≤ M) ∧
    (∃ i j, 0 ≤ i < filas self ∧ 0 ≤ j < columnas self ∧
       Z.of_nat (String.length (texto (ent (valores self) i j))) = M).
Proof.
  intros Hm HF HC. apply bien_formada_forma in Hm as Hg.
  set (h := λ ij : Z * Z,
         Z.of_nat (String.length (texto (ent (valores self) ij.1 ij.2)))).
  set (pares := i ← rango 0 (filas self); j ← rango 0 (columnas self);
                [(i, j)]).
  assert (pares ≠ []) as Hne.
  { assert ((0, 0) ∈ pares) as Hin by (apply elem_of_pares; simpl; lia).
    intros Heq. rewrite Heq in Hin. by inversion Hin. }
  destruct (py_max_Ok (h <$> pares)) as (M & Hmax & HinM & Hle).
  { by destruct pares. }
  exists M. split; [|split].
  - unfold __str__. fold pares. rewrite (mapM_Ok _ h).
    2:{ intros ij [Hi Hj]%elem_of_pares.
        by rewrite (leer_ent _ _ _ Hg) by done. }
    simpl. rewrite Hmax. simpl.
    rewrite (para_une _ _ (λ i, linea_de texto self M i +:+ salto)); [done|].
    intros i t Hi%elem_of_rango.
    rewrite (para_une _ _ (λ j, celda (aumentada self) (columnas self) j
               (center (texto (ent (valores self) i j)) M))).
    + simpl. by rewrite append_assoc.
    + intros j u Hj%elem_of_rango.
      by rewrite (leer_ent _ _ _ Hg) by done.
  - intros i j Hi Hj. apply Hle. apply list_elem_of_fmap.
    exists (i, j). split; [done|]. by apply elem_of_pares.
  - apply list_elem_of_fmap in HinM as ([i j] & -> & [Hi Hj]%elem_of_pares).
    by exists i, j.
Qed.

(** * The claims *)

(** C1 (counterexample).  The 2 x 1 matrix [[1], [2]] satisfies the
    invariant and has no shared rows, yet the call raises [IndexError]: in
    the second pass the pivot search reads column 1 of a one-column row.
    The 3 x 3 matrix whose first two rows are the same list object raises
    [ZeroDivisionError]: eliminating the second row clears the pivot row
    itself, and the factor for the third row divides by zero. *)
Lemma hacer_triangular_superior_lanza :
  (bien_formada columna_12 ∧ sin_alias columna_12 ∧
   hacer_triangular_superior columna_12 = Lanza IndexError) ∧
  (bien_formada filas_compartidas ∧
   es_cuadrada filas_compartidas = true ∧
   hacer_triangular_superior filas_compartidas = Lanza ZeroDivisionError).
Proof.
  split.
  - split; [apply columna_12_bien_formada|].
    split; [apply matriz_de_sin_alias|]. vm_compute. reflexivity.
  - split; [apply filas_compartidas_bien_formada|].
    split; vm_compute; reflexivity.
Qed.

(** C1 (amended).  For every matrix that satisfies the invariant of the
    data model, has at least as many columns as rows and whose rows are
    distinct list objects (square or wide, singular or not),
    [hacer_triangular_superior] raises nothing and returns a matrix of the
    same dimensions and flag together with a boolean.  In any pass, when
    the entry of the selected pivot row is zero the pass ends with the
    working grid and the flag exactly as they were. *)
Theorem hacer_triangular_superior_no_lanza (m : Matriz) :
  bien_formada m → sin_alias m → filas m ≤ columnas m →
  (∃ T b, hacer_triangular_superior m = Ok (T, b) ∧
          bien_formada T ∧ filas T = filas m ∧ columnas T = columnas m ∧
          aumentada T = aumentada m) ∧
  (∀ i mat b max_f,
     fila_pivote mat i (filas m) = Ok max_f →
     leer mat max_f i = Ok 0%Qc →
     paso (filas m) (columnas m) i (mat, b) = Ok (mat, b)).
Proof.
  intros Hm Hnd Hdim. split.
  - destruct (hacer_triangular_superior_total m Hm Hdim Hnd) as (T & b & Hrun).
    exists T, b. split; [done|].
    destruct (hacer_triangular_superior_parcial m Hm T b Hdim Hrun)
      as (HT & Hf & Hc & Ha & _). done.
  - intros i mat b max_f Hpiv Hleer. by eapply paso_pivote_cero.
Qed.

Lemma hacer_triangular_superior_no_lanza_testigo :
  bien_formada singular_ejemplo ∧ sin_alias singular_ejemplo ∧
  filas singular_ejemplo ≤ columnas singular_ejemplo ∧
  (∃ T b, hacer_triangular_superior singular_ejemplo = Ok (T, b) ∧
          bien_formada T ∧ filas T = filas singular_ejemplo ∧
          columnas T = columnas singular_ejemplo ∧
          aumentada T = aumentada singular_ejemplo) ∧
  paso (filas singular_ejemplo) (columnas singular_ejemplo) 0
    (valores singular_ejemplo, false) = Ok (valores singular_ejemplo, false).
Proof.
  assert (filas singular_ejemplo ≤ columnas singular_ejemplo) as Hdim
    by (vm_compute; discriminate).
  destruct (hacer_triangular_superior_no_lanza singular_ejemplo
              singular_ejemplo_bien_formada
              (matriz_de_sin_alias _ _) Hdim) as [Hret Hcero].
  split; [exact singular_ejemplo_bien_formada|].
  split; [apply matriz_de_sin_alias|].
  split; [exact Hdim|]. split; [exact Hret|].
  apply (Hcero 0 (valores singular_ejemplo) false 0); vm_compute; reflexivity.
Defined.

(** C2 (evaluation at the failing input).  [[1], [0]] is a well-formed
    2 x 1 matrix, so it is not square, and [es_identidad] raises
    [IndexError] on it instead of returning [False]: the diagonal test runs
    before the squareness check and reads [valores[1][1]]. *)
Theorem es_identidad_no_cuadrada_lanza :
  bien_formada columna_10 ∧ es_cuadrada columna_10 = false ∧
  es_identidad columna_10 = Lanza IndexError.
Proof.
  split; [apply columna_10_bien_formada|]. split; vm_compute; reflexivity.
Qed.

(** C3 (evaluation at the failing input).  On [[1, 2], [3, 4]] the element
    access [A[-1, 0]] does not raise: it returns [3], the entry of the last
    row.  The sibling accessors do reject the same row index: row access
    [A[-1]] and the assignment [A[-1, 0] = 9] both raise [IndexError]. *)
Theorem getitem_tupla_indice_negativo :
  __getitem__ A_ejemplo (ObjTupla [-1; 0]) = Ok (Elemento (fr 3 1)) ∧
  __getitem__ A_ejemplo (ObjInt (-1)) = Lanza IndexError ∧
  __setitem__ A_ejemplo (-1) 0 (fr 9 1) = Lanza IndexError.
Proof. repeat split; vm_compute; reflexivity. Qed.

(** C4.  For every square matrix [A] (satisfying the invariant of the data
    model), every entry strictly below the main diagonal of the matrix
    returned by [hacer_triangular_superior(A)] is exactly zero; and a matrix
    is returned whenever the rows of [A] are distinct list objects. *)
Theorem hacer_triangular_superior_es_triangular (A : Matriz) :
  bien_formada A → filas A = columnas A →
  (sin_alias A → termina (hacer_triangular_superior A)) ∧
  (∀ T b, hacer_triangular_superior A = Ok (T, b) →
     ∀ p c, 0 ≤ c → c < p → p < filas A →
       leer (valores T) p c = Ok 0%Qc).
Proof.
  intros HA Hsq. assert (filas A ≤ columnas A) as Hdim by lia. split.
  - intros Hnd.
    destruct (hacer_triangular_superior_total A HA Hdim Hnd) as (T & b & Hrun).
    by exists (T, b).
  - intros T b Hrun p c Hc Hcp Hp.
    destruct (hacer_triangular_superior_parcial A HA T b Hdim Hrun)
      as (HT & Hf & Hcol & _ & _ & Htri).
    apply bien_formada_forma in HT.
    rewrite (leer_ent _ _ _ HT) by lia. f_equal. apply Htri; lia.
Qed.

Lemma hacer_triangular_superior_es_triangular_testigo :
  bien_formada A_ejemplo ∧ filas A_ejemplo = columnas A_ejemplo ∧
  (sin_alias A_ejemplo → termina (hacer_triangular_superior A_ejemplo)) ∧
  (∀ T b, hacer_triangular_superior A_ejemplo = Ok (T, b) →
     ∀ p c, 0 ≤ c → c < p → p < filas A_ejemplo →
       leer (valores T) p c = Ok 0%Qc).
Proof.
  split; [exact A_ejemplo_bien_formada|]. split; [reflexivity|].
  apply (hacer_triangular_superior_es_triangular A_ejemplo
           A_ejemplo_bien_formada). reflexivity.
Defined.

(** C5.  The source's function is the counted one with the counter erased;
    whenever a result is returned the flag is [True] exactly when the number
    of row interchanges performed is odd.  On [[1, 2], [3, 4]] the pivot
    search of the first pass selects row 1, one interchange is performed,
    the flag is [True], the returned matrix is [[3, 4], [0, 2/3]] and its
    diagonal product times [-1] is [-2], which is [1 * 4 - 2 * 3]. *)
Theorem intercambio_es_paridad :
  (∀ m, (λ r : Matriz * bool * nat, r.1) <$>
          hacer_triangular_superior_contado m
        = hacer_triangular_superior m) ∧
  (∀ m, match hacer_triangular_superior_contado m with
        | Ok (_, intercambio, n) => intercambio = Nat.odd n
        | Lanza _ => True
        end) ∧
  fila_pivote (valores A_ejemplo) 0 (filas A_ejemplo) = Ok 1 ∧
  ∃ T d,
    hacer_triangular_superior_contado A_ejemplo = Ok (T, true, 1%nat) ∧
    vista (valores T) = [[fr 3 1; fr 4 1]; [fr 0 1; fr 2 3]] ∧
    producto_diagonal T = Ok d ∧ (d * fr (-1) 1)%Qc = fr (-2) 1 ∧
    (fr 1 1 * fr 4 1 - fr 2 1 * fr 3 1)%Qc = fr (-2) 1.
Proof.
  split; [|split; [|split]].
  - intros m. unfold hacer_triangular_superior_contado,
      hacer_triangular_superior, deepcopy.
    rewrite <-(para_contado_borra _ _ _ (valores m) false 0%nat).
    by destruct (para _ _ _) as [[[g b] n]|e].
  - intros m. unfold hacer_triangular_superior_contado.
    destruct (para _ _ _) as [[[g b] n]|e] eqn:Hrun; simpl; [|done].
    by eapply para_contado_paridad.
  - vm_compute. reflexivity.
  - eexists _, _. split; [vm_compute; reflexivity|].
    split; [compute_done|].
    split; [vm_compute; reflexivity|]. split; compute_done.
Qed.

(** C6.  For every matrix [A] satisfying the invariant of the data model,
    [transponer] returns a well-formed matrix with [columnas A] rows and
    [filas A] columns, the flag of [A] and [result[i][j] = A[j][i]];
    transposing the result again gives a matrix that compares equal to
    [A]. *)
Theorem transponer_dos_veces (A : Matriz) :
  bien_formada A →
  ∃ T T2,
    transponer A = Ok T ∧
    bien_formada T ∧ filas T = columnas A ∧ columnas T = filas A ∧
    aumentada T = aumentada A ∧
    (∀ i j, 0 ≤ i < columnas A → 0 ≤ j < filas A →
       ∃ x, leer (valores T) i j = Ok x ∧ leer (valores A) j i = Ok x) ∧
    transponer T = Ok T2 ∧
    __eq__ T2 (ObjMatriz A) = true.
Proof.
  intros HA. pose proof (bien_formada_no_negativa A HA) as [HF HC].
  apply bien_formada_forma in HA as Hg.
  set (gT := rejilla_nueva
               (tabla (λ i j, ent (valores A) j i) (columnas A) (filas A))).
  set (T := MkMatriz (aumentada A) (columnas A) (filas A) gT).
  assert (forma gT (columnas A) (filas A)) as HgT
    by (by apply forma_rejilla_nueva_tabla).
  assert (bien_formada T) as HT by (by apply bien_formada_forma).
  eexists T, _. split; [by apply transponer_Ok|].
  split; [done|]. split; [done|]. split; [done|]. split; [done|].
  split; [|split; [by apply transponer_Ok|]].
  - intros i j Hi Hj. exists (ent (valores A) j i). split.
    + simpl. rewrite (leer_ent _ _ _ HgT) by done. f_equal.
      unfold gT. by rewrite ent_rejilla_nueva_tabla.
    + by apply (leer_ent _ _ _ Hg).
  - rewrite Matriz_eq_desplegada. simpl.
    rewrite !Z.eqb_refl, vista_rejilla_nueva. simpl.
    rewrite (vista_tabla _ _ _ Hg).
    erewrite tabla_ext; [apply todos_iguales_refl|].
    intros p c Hp Hc. simpl. unfold gT.
    by rewrite ent_rejilla_nueva_tabla.
Qed.

Lemma transponer_dos_veces_testigo :
  bien_formada ancha_ejemplo ∧
  ∃ T T2,
    transponer ancha_ejemplo = Ok T ∧
    bien_formada T ∧ filas T = columnas ancha_ejemplo ∧
    columnas T = filas ancha_ejemplo ∧
    aumentada T = aumentada ancha_ejemplo ∧
    (∀ i j, 0 ≤ i < columnas ancha_ejemplo → 0 ≤ j < filas ancha_ejemplo →
       ∃ x, leer (valores T) i j = Ok x ∧
            leer (valores ancha_ejemplo) j i = Ok x) ∧
    transponer T = Ok T2 ∧
    __eq__ T2 (ObjMatriz ancha_ejemplo) = true.
Proof.
  split; [exact ancha_ejemplo_bien_formada|].
  exact (transponer_dos_veces ancha_ejemplo ancha_ejemplo_bien_formada).
Defined.

(** C7.  For matrices satisfying the invariant of the data model, [a * b]
    raises [ArithmeticError] exactly when [a.columnas != b.filas];
    otherwise it returns a well-formed [a.filas x b.columnas] matrix with
    the flag of [a] whose entry [(i, j)] is the exact sum over [k] of
    [a[i][k] * b[k][j]]. *)
Theorem mul_matrices (A B : Matriz) :
  bien_formada A → bien_formada B →
  (__mul__ A (ObjMatriz B) = Lanza ArithmeticError ↔ columnas A ≠ filas B) ∧
  (columnas A = filas B →
   ∃ P, __mul__ A (ObjMatriz B) = Ok P ∧
        bien_formada P ∧ filas P = filas A ∧ columnas P = columnas B ∧
        aumentada P = aumentada A ∧
        ∀ i j, 0 ≤ i < filas A → 0 ≤ j < columnas B →
          leer (valores P) i j =
          Ok (sumatoria
                (λ k, ent (valores A) i (Z.of_nat k)
                      * ent (valores B) (Z.of_nat k) j)%Qc
                (Z.to_nat (columnas A)))).
Proof.
  intros HA HB.
  pose proof (bien_formada_no_negativa A HA) as [HFa HCa].
  pose proof (bien_formada_no_negativa B HB) as [HFb HCb].
  apply bien_formada_forma in HA as Hx. apply bien_formada_forma in HB as Hy.
  assert (columnas A = filas B →
    ∃ P, __mul__ A (ObjMatriz B) = Ok P ∧
        bien_formada P ∧ filas P = filas A ∧ columnas P = columnas B ∧
        aumentada P = aumentada A ∧
        ∀ i j, 0 ≤ i < filas A → 0 ≤ j < columnas B →
          leer (valores P) i j =
          Ok (coef_producto (valores A) (valores B) (columnas A) i j))
    as Hok.
  { intros Heq. rewrite <-Heq in Hy. unfold __mul__.
    rewrite Heq, Z.eqb_refl. simpl. rewrite <-Heq.
    destruct (bucle_i (valores A) (valores B) (filas A) (columnas A)
                (columnas B) Hx Hy
                (rejilla_nueva (ceros (filas A) (columnas B))))
      as (acc & -> & Hf & Hent); [done|done|done|by apply Est_ceros|].
    simpl. eexists. split; [reflexivity|]. simpl.
    split; [by apply bien_formada_forma|]. repeat split.
    intros i j Hi Hj. rewrite (leer_ent _ _ _ Hf) by done.
    by rewrite Hent. }
  split; [|exact Hok].
  split.
  - intros Herr Heq. destruct (Hok Heq) as (P & HP & _). congruence.
  - intros Hne. unfold __mul__.
    destruct (Z.eqb_spec (columnas A) (filas B)); [done|reflexivity].
Qed.

Lemma mul_matrices_testigo :
  bien_formada A_ejemplo ∧ bien_formada B_ejemplo ∧
  columnas A_ejemplo = filas B_ejemplo ∧
  (__mul__ A_ejemplo (ObjMatriz B_ejemplo) = Lanza ArithmeticError ↔
   columnas A_ejemplo ≠ filas B_ejemplo) ∧
  ∃ P, __mul__ A_ejemplo (ObjMatriz B_ejemplo) = Ok P ∧
       bien_formada P ∧ filas P = filas A_ejemplo ∧
       columnas P = columnas B_ejemplo ∧
       aumentada P = aumentada A_ejemplo ∧
       ∀ i j, 0 ≤ i < filas A_ejemplo → 0 ≤ j < columnas B_ejemplo →
         leer (valores P) i j =
         Ok (sumatoria
               (λ k, ent (valores A_ejemplo) i (Z.of_nat k)
                     * ent (valores B_ejemplo) (Z.of_nat k) j)%Qc
               (Z.to_nat (columnas A_ejemplo))).
Proof.
  destruct (mul_matrices A_ejemplo B_ejemplo
              A_ejemplo_bien_formada B_ejemplo_bien_formada) as [Herr Hok].
  split; [exact A_ejemplo_bien_formada|].
  split; [exact B_ejemplo_bien_formada|].
  split; [reflexivity|]. split; [exact Herr|].
  apply Hok. reflexivity.
Defined.

(** C8.  For [A] and [B] with equal [filas] and equal [columnas], both sums
    and the difference are computed without error, [A + B == B + A] and
    [(A + B) - B == A].  On matrices that satisfy the invariant of the data
    model the equalities are equalities of the values: the sums and the
    difference are matrices of the dimensions of [A] that satisfy the
    invariant, the entries of [A + B] are the sums of the entries, the
    grids of [A + B] and [B + A] are the same, and the grid of
    [(A + B) - B] is the grid of [A]. *)
Theorem suma_resta (A B : Matriz) :
  filas A = filas B → columnas A = columnas B →
  ∃ S S' D,
    __add__ A B = Ok S ∧ __add__ B A = Ok S' ∧
    __eq__ S (ObjMatriz S') = true ∧
    __sub__ S B = Ok D ∧ __eq__ D (ObjMatriz A) = true ∧
    (bien_formada A → bien_formada B →
     bien_formada S ∧ bien_formada S' ∧ bien_formada D ∧
     filas S = filas A ∧ columnas S = columnas A ∧
     filas S' = filas A ∧ columnas S' = columnas A ∧
     filas D = filas A ∧ columnas D = columnas A ∧
     (∀ i j, 0 ≤ i < filas A → 0 ≤ j < columnas A →
        leer (valores S) i j
        = Ok (ent (valores A) i j + ent (valores B) i j)%Qc) ∧
     vista (valores S) = vista (valores S') ∧
     vista (valores D) = vista (valores A)).
Proof.
  intros Hf Hc.
  assert (∀ X Y : Matriz, filas X = filas Y → columnas X = columnas Y →
            __add__ X Y = Ok (MkMatriz (aumentada X) (filas X) (columnas X)
                            (rejilla_nueva
                               (zip_with (zip_with Qcplus) (vista (valores X))
                                  (vista (valores Y)))))) as Hadd.
  { intros X Y HXf HXc. unfold __add__.
    by rewrite HXf, HXc, !Z.eqb_refl. }
  eexists _, _, _.
  split; [by apply Hadd|]. split; [by apply Hadd|].
  split; [|split; [|split]].
  - rewrite Matriz_eq_desplegada. simpl.
    rewrite Hf, Hc, !Z.eqb_refl, !vista_rejilla_nueva. simpl.
    apply filas_suma_conmuta.
  - unfold __sub__. simpl.
    destruct (Z.eqb_spec (filas A) (filas B)); [|done].
    destruct (Z.eqb_spec (columnas A) (columnas B)); [|done]. reflexivity.
  - rewrite Matriz_eq_desplegada. simpl.
    rewrite !Z.eqb_refl, !vista_rejilla_nueva. simpl.
    apply filas_suma_resta.
  - intros HA HB.
    destruct (combinacion_Ok Qcplus (aumentada A) A B HA HB Hf Hc)
      as (HS & _ & HentS).
    destruct (combinacion_Ok Qcplus (aumentada B) B A HB HA
                (eq_sym Hf) (eq_sym Hc)) as (HS' & _ & HentS').
    destruct (combinacion_Ok Qcminus (aumentada A)
                (MkMatriz (aumentada A) (filas A) (columnas A)
                   (rejilla_nueva
                      (zip_with (zip_with Qcplus) (vista (valores A))
                         (vista (valores B)))))
                B HS HB Hf Hc)
      as (HD & _ & HentD).
    simpl in HentS, HentS', HentD.
    apply bien_formada_forma in HS as HgS.
    apply bien_formada_forma in HS' as HgS'.
    apply bien_formada_forma in HD as HgD.
    apply bien_formada_forma in HA as HgA.
    simpl in HgS, HgS', HgD. rewrite <-Hf, <-Hc in HgS'.
    split; [exact HS|]. split; [exact HS'|]. split; [exact HD|]. simpl.
    repeat (split; [done|]). split; [|split].
    + intros i j Hi Hj. rewrite (leer_ent _ _ _ HgS) by done.
      by rewrite HentS.
    + rewrite (vista_tabla _ _ _ HgS), (vista_tabla _ _ _ HgS').
      apply tabla_ext. intros p c Hp Hc'.
      rewrite HentS, HentS' by lia. apply Qcplus_comm.
    + etransitivity; [apply (vista_tabla _ _ _ HgD)|].
      etransitivity; [|symmetry; apply (vista_tabla _ _ _ HgA)].
      apply tabla_ext. intros p c Hp Hc'.
      rewrite HentD, HentS by lia. ring.
Qed.

Lemma suma_resta_testigo :
  filas A_ejemplo = filas B_ejemplo ∧ columnas A_ejemplo = columnas B_ejemplo ∧
  bien_formada A_ejemplo ∧ bien_formada B_ejemplo ∧
  ∃ S S' D,
    __add__ A_ejemplo B_ejemplo = Ok S ∧ __add__ B_ejemplo A_ejemplo = Ok S' ∧
    __eq__ S (ObjMatriz S') = true ∧
    __sub__ S B_ejemplo = Ok D ∧ __eq__ D (ObjMatriz A_ejemplo) = true ∧
    bien_formada S ∧ bien_formada D ∧
    vista (valores S) = vista (valores S') ∧
    vista (valores D) = vista (valores A_ejemplo).
Proof.
  split; [reflexivity|]. split; [reflexivity|].
  split; [exact A_ejemplo_bien_formada|].
  split; [exact B_ejemplo_bien_formada|].
  destruct (suma_resta A_ejemplo B_ejemplo)
    as (S & S' & D & HS & HS' & Heq & HD & Heq' & Hbf); [reflexivity..|].
  destruct (Hbf A_ejemplo_bien_formada B_ejemplo_bien_formada)
    as (H1 & _ & H3 & _ & _ & _ & _ & _ & _ & _ & H11 & H12).
  exists S, S', D. repeat (split; [assumption|]). exact H12.
Defined.

(** C9.  For matrices satisfying the invariant of the data model, [==]
    holds exactly when the two have the same [filas], the same [columnas]
    and the same grid of values as a reader sees it (entry by entry, exact
    rationals); replacing the [aumentada] flag of either operand never
    changes the outcome. *)
Theorem Matriz_eq_correcta (A B : Matriz) :
  bien_formada A → bien_formada B →
  (__eq__ A (ObjMatriz B) = true ↔
   filas A = filas B ∧ columnas A = columnas B ∧
   vista (valores A) = vista (valores B)) ∧
  (∀ a b : bool,
     __eq__ (MkMatriz a (filas A) (columnas A) (valores A))
       (ObjMatriz (MkMatriz b (filas B) (columnas B) (valores B)))
     = __eq__ A (ObjMatriz B)).
Proof.
  intros HA HB. split; [|intros; by rewrite !Matriz_eq_desplegada].
  rewrite Matriz_eq_desplegada, !andb_true_iff, Z.eqb_eq, Z.eqb_eq.
  split.
  - intros [[Hf Hc] Hv]. repeat split; try done.
    apply (todos_iguales_eq (Z.to_nat (columnas A))); [| | |done].
    + rewrite !bien_formada_filas by done. by rewrite Hf.
    + by apply bien_formada_columnas.
    + rewrite Hc. by apply bien_formada_columnas.
  - intros (Hf & Hc & Hv). repeat split; try done.
    rewrite Hv. apply todos_iguales_refl.
Qed.

Lemma Matriz_eq_correcta_testigo :
  bien_formada A_ejemplo ∧ bien_formada B_ejemplo ∧
  (__eq__ A_ejemplo (ObjMatriz B_ejemplo) = true ↔
   filas A_ejemplo = filas B_ejemplo ∧
   columnas A_ejemplo = columnas B_ejemplo ∧
   vista (valores A_ejemplo) = vista (valores B_ejemplo)) ∧
  (∀ a b : bool,
     __eq__ (MkMatriz a (filas A_ejemplo) (columnas A_ejemplo)
                  (valores A_ejemplo))
       (ObjMatriz (MkMatriz b (filas B_ejemplo) (columnas B_ejemplo)
                     (valores B_ejemplo)))
     = __eq__ A_ejemplo (ObjMatriz B_ejemplo)).
Proof.
  split; [exact A_ejemplo_bien_formada|].
  split; [exact B_ejemplo_bien_formada|].
  exact (Matriz_eq_correcta A_ejemplo B_ejemplo
           A_ejemplo_bien_formada B_ejemplo_bien_formada).
Defined.

(** C10.  Comparing a matrix with a value that is not a [Matriz] returns
    [False]; [__eq__] has no raising path, it is a total function to
    [bool]. *)
Theorem Matriz_eq_otro_tipo (self : Matriz) (o : objeto) :
  es_instancia_Matriz o = false → __eq__ self o = false.
Proof. destruct o; simpl; (discriminate || reflexivity). Qed.

Lemma Matriz_eq_otro_tipo_testigo :
  es_instancia_Matriz (ObjInt 3) = false ∧
  __eq__ A_ejemplo (ObjInt 3) = false.
Proof.
  split; [reflexivity|].
  apply (Matriz_eq_otro_tipo A_ejemplo (ObjInt 3)). reflexivity.
Defined.

(** * Further properties of the code *)

(** ** Construction and access *)

(** X1.  [Matriz(aumentada, f, c)] without values is, for non-negative
    [f] and [c], a well-formed [f x c] matrix with the given flag whose
    rows are distinct list objects and whose entries are all zero. *)
Theorem init_matriz_cero (aum : bool) (f c : Z) :
  0 ≤ f → 0 ≤ c →
  bien_formada (__init__ aum f c None) ∧
  sin_alias (__init__ aum f c None) ∧
  filas (__init__ aum f c None) = f ∧
  columnas (__init__ aum f c None) = c ∧
  aumentada (__init__ aum f c None) = aum ∧
  es_matriz_cero (__init__ aum f c None) = true ∧
  ∀ i j, 0 ≤ i < f → 0 ≤ j < c →
    __getitem__ (__init__ aum f c None) (ObjTupla [i; j])
    = Ok (Elemento 0%Qc).
Proof.
  intros Hf Hc. unfold __init__.
  change (ceros f c) with (tabla (λ _ _, 0%Qc) f c).
  destruct (matriz_tabla_bien_formada aum (λ _ _, 0%Qc) f c Hf Hc) as [Hbf Hsa].
  split; [done|]. split; [done|]. split; [done|]. split; [done|].
  split; [done|]. split.
  - apply (es_matriz_cero_entradas _ Hbf). simpl. intros i j Hi Hj.
    by rewrite ent_rejilla_nueva_tabla.
  - intros i j Hi Hj. rewrite getitem_elemento_en_rango by done. simpl.
    by rewrite ent_rejilla_nueva_tabla.
Qed.

Lemma init_matriz_cero_testigo :
  0 ≤ 2 ∧ 0 ≤ 3 ∧
  es_matriz_cero (__init__ true 2 3 None) = true ∧
  __getitem__ (__init__ true 2 3 None) (ObjTupla [1; 2]) = Ok (Elemento 0%Qc).
Proof.
  assert (0 ≤ 2) as H2 by lia. assert (0 ≤ 3) as H3 by lia.
  destruct (init_matriz_cero true 2 3 H2 H3) as (_ & _ & _ & _ & _ & Hz & Hg).
  split; [exact H2|]. split; [exact H3|]. split; [exact Hz|].
  apply Hg; lia.
Defined.

(** X2.  Row access [m[i]] on a well-formed matrix returns the row at
    position [i], of [columnas] entries, exactly when [0 <= i < filas], and
    raises [IndexError] for every other integer; an index that is neither
    an integer nor a pair raises [TypeError]. *)
Theorem getitem_entero_correcto (m : Matriz) (i : Z) :
  bien_formada m →
  (0 ≤ i < filas m →
   ∃ fila, vista (valores m) !! Z.to_nat i = Some fila ∧
           Z.of_nat (length fila) = columnas m ∧
           __getitem__ m (ObjInt i) = Ok (Fila fila)) ∧
  (¬ (0 ≤ i < filas m) → __getitem__ m (ObjInt i) = Lanza IndexError) ∧
  (∀ t, length t ≠ 2%nat → __getitem__ m (ObjTupla t) = Lanza TypeError) ∧
  __getitem__ m ObjNone = Lanza TypeError.
Proof.
  intros Hm. split; [|split; [|split]].
  - intros Hi. unfold __getitem__.
    destruct (Z.ltb_spec i 0); [lia|].
    destruct (Z.leb_spec (filas m) i); [lia|]. simpl.
    destruct (py_indice_en_rango (vista (valores m)) i) as (fila & Hf & ->).
    { rewrite bien_formada_filas by done. lia. }
    exists fila. split; [done|]. split; [|done].
    destruct Hm as (_ & _ & Hall). rewrite Forall_lookup in Hall.
    by eapply Hall.
  - intros Hi. by apply getitem_fila_IndexError.
  - intros [|x [|y [|z t]]] Ht; try done.
  - done.
Qed.

Lemma getitem_entero_correcto_testigo :
  bien_formada ancha_ejemplo ∧ 0 ≤ 1 < filas ancha_ejemplo ∧
  ∃ fila, vista (valores ancha_ejemplo) !! Z.to_nat 1 = Some fila ∧
          Z.of_nat (length fila) = columnas ancha_ejemplo ∧
          __getitem__ ancha_ejemplo (ObjInt 1) = Ok (Fila fila).
Proof.
  assert (0 ≤ 1 < filas ancha_ejemplo) as H by (cbn; lia).
  split; [exact ancha_ejemplo_bien_formada|]. split; [exact H|].
  exact (proj1 (getitem_entero_correcto ancha_ejemplo 1 ancha_ejemplo_bien_formada) H).
Defined.

(** X3.  Element access [m[i, j]] on a well-formed matrix returns a value
    exactly when [-filas <= i < filas] and [-columnas <= j < columnas], and
    raises [IndexError] otherwise; a negative index in range counts from the
    end, so the value is the entry at [(i mod filas, j mod columnas)]. *)
Theorem getitem_tupla_correcto (m : Matriz) (i j : Z) :
  bien_formada m →
  (- filas m ≤ i < filas m ∧ - columnas m ≤ j < columnas m →
   0 ≤ i mod filas m < filas m ∧ 0 ≤ j mod columnas m < columnas m ∧
   __getitem__ m (ObjTupla [i; j])
   = Ok (Elemento (ent (valores m) (i mod filas m) (j mod columnas m))) ∧
   leer (valores m) (i mod filas m) (j mod columnas m)
   = Ok (ent (valores m) (i mod filas m) (j mod columnas m))) ∧
  (¬ (- filas m ≤ i < filas m ∧ - columnas m ≤ j < columnas m) →
   __getitem__ m (ObjTupla [i; j]) = Lanza IndexError).
Proof.
  intros Hm. apply bien_formada_forma in Hm as Hg. split.
  - intros [Hi Hj].
    pose proof (proj1 (mod_envuelve _ _ Hi)) as Hi'.
    pose proof (proj1 (mod_envuelve _ _ Hj)) as Hj'.
    split; [done|]. split; [done|]. split.
    + unfold __getitem__.
      destruct (Z.leb_spec (filas m) i); [lia|].
      destruct (Z.leb_spec (columnas m) j); [lia|]. simpl.
      by rewrite (leer_envuelto _ _ _ _ _ Hg).
    + by apply (leer_ent _ _ _ Hg).
  - intros Hno. unfold __getitem__.
    destruct (Z.leb_spec (filas m) i); [done|].
    destruct (Z.leb_spec (columnas m) j); [done|]. simpl.
    rewrite (leer_fuera _ _ _ _ _ Hg); [done|lia|lia|lia].
Qed.

Lemma getitem_tupla_correcto_testigo :
  bien_formada ancha_ejemplo ∧
  (- filas ancha_ejemplo ≤ -1 < filas ancha_ejemplo ∧
   - columnas ancha_ejemplo ≤ -3 < columnas ancha_ejemplo) ∧
  __getitem__ ancha_ejemplo (ObjTupla [-1; -3])
  = Ok (Elemento (ent (valores ancha_ejemplo)
                    (-1 mod filas ancha_ejemplo)
                    (-3 mod columnas ancha_ejemplo))).
Proof.
  assert (- filas ancha_ejemplo ≤ -1 < filas ancha_ejemplo ∧
          - columnas ancha_ejemplo ≤ -3 < columnas ancha_ejemplo) as H
    by (cbn; lia).
  split; [exact ancha_ejemplo_bien_formada|]. split; [exact H|].
  exact (proj1 (proj2 (proj2
           (proj1 (getitem_tupla_correcto ancha_ejemplo (-1) (-3)
                     ancha_ejemplo_bien_formada) H)))).
Defined.

(** X4.  On a well-formed matrix, [m[i, j] = v] with both indices in range
    succeeds and keeps the dimensions and the flag; afterwards [m[i, j]] is
    [v].  The write goes to the row object at position [i]: every position
    holding that object shows [v] in column [j] and nothing else changes, so
    when the rows are distinct objects the only entry that changes is
    [(i, j)]. *)
Theorem setitem_getitem (m : Matriz) (i j : Z) (v : Fraction) :
  bien_formada m → 0 ≤ i < filas m → 0 ≤ j < columnas m →
  ∃ m', __setitem__ m i j v = Ok m' ∧
    bien_formada m' ∧ filas m' = filas m ∧ columnas m' = columnas m ∧
    aumentada m' = aumentada m ∧
    __getitem__ m' (ObjTupla [i; j]) = Ok (Elemento v) ∧
    (∀ p c, 0 ≤ p < filas m → 0 ≤ c < columnas m →
       __getitem__ m' (ObjTupla [p; c])
       = if decide (misma_fila (valores m) p i ∧ c = j)
         then Ok (Elemento v)
         else __getitem__ m (ObjTupla [p; c])) ∧
    (sin_alias m →
     ∀ p c, 0 ≤ p < filas m → 0 ≤ c < columnas m → (p, c) ≠ (i, j) →
       __getitem__ m' (ObjTupla [p; c]) = __getitem__ m (ObjTupla [p; c])).
Proof.
  intros Hm Hi Hj. apply bien_formada_forma in Hm as Hg.
  destruct (forma_ref _ _ _ Hg i Hi) as (a & Ha & Hia & _).
  destruct (escribir_obj_ok _ _ _ i a j v Hg Hi Ha Hj)
    as (g' & Hesc & Hg' & Hr & Hent).
  set (m' := MkMatriz (aumentada m) (filas m) (columnas m) g').
  assert (__setitem__ m i j v = Ok m') as Hset.
  { unfold __setitem__.
    destruct (Z.ltb_spec i 0); [lia|]. destruct (Z.ltb_spec j 0); [lia|].
    destruct (Z.leb_spec (filas m) i); [lia|].
    destruct (Z.leb_spec (columnas m) j); [lia|]. simpl.
    unfold escribir. rewrite Hia. simpl. by rewrite Hesc. }
  exists m'. split; [exact Hset|].
  assert (bien_formada m') as Hm' by (by apply bien_formada_forma).
  assert (∀ p c, 0 ≤ p < filas m → 0 ≤ c < columnas m →
       __getitem__ m' (ObjTupla [p; c])
       = if decide (misma_fila (valores m) p i ∧ c = j)
         then Ok (Elemento v)
         else __getitem__ m (ObjTupla [p; c])) as Hget.
  { intros p c Hp Hc.
    rewrite (getitem_elemento_en_rango m' p c Hm' Hp Hc).
    rewrite (getitem_elemento_en_rango m p c Hm Hp Hc).
    unfold m'. cbn [valores]. rewrite Hent by done. by case_decide. }
  split; [done|]. split; [done|]. split; [done|]. split; [done|].
  split; [|split; [done|]].
  - rewrite Hget by done. by rewrite decide_True.
  - intros Hnd p c Hp Hc Hne. rewrite Hget by done.
    case_decide as Hsame; [|done]. destruct Hsame as [Hsame ->].
    destruct Hne. f_equal.
    unfold misma_fila in Hsame. rewrite Ha in Hsame.
    pose proof (NoDup_lookup _ _ _ _ Hnd Hsame Ha). lia.
Qed.

Lemma setitem_getitem_testigo :
  bien_formada A_ejemplo ∧ 0 ≤ 1 < filas A_ejemplo ∧
  0 ≤ 0 < columnas A_ejemplo ∧
  ∃ m', __setitem__ A_ejemplo 1 0 (fr 9 2) = Ok m' ∧
        __getitem__ m' (ObjTupla [1; 0]) = Ok (Elemento (fr 9 2)).
Proof.
  assert (0 ≤ 1 < filas A_ejemplo) as H1 by (cbn; lia).
  assert (0 ≤ 0 < columnas A_ejemplo) as H0
    by (cbn; lia).
  split; [exact A_ejemplo_bien_formada|]. split; [exact H1|].
  split; [exact H0|].
  destruct (setitem_getitem A_ejemplo 1 0 (fr 9 2)
              A_ejemplo_bien_formada H1 H0)
    as (m' & Hset & _ & _ & _ & _ & Hget & _).
  exists m'. split; [exact Hset|exact Hget].
Defined.

(** ** Comparison and element-wise arithmetic *)

(** X5.  On matrices that satisfy the invariant of the data model, [==]
    is reflexive, symmetric and transitive. *)
Theorem eq_equivalencia (A B C : Matriz) :
  bien_formada A → bien_formada B → bien_formada C →
  __eq__ A (ObjMatriz A) = true ∧
  __eq__ A (ObjMatriz B) = __eq__ B (ObjMatriz A) ∧
  (__eq__ A (ObjMatriz B) = true → __eq__ B (ObjMatriz C) = true →
   __eq__ A (ObjMatriz C) = true).
Proof.
  intros HA HB HC. split; [|split].
  - rewrite Matriz_eq_desplegada, !Z.eqb_refl. apply todos_iguales_refl.
  - rewrite !Matriz_eq_desplegada, (Z.eqb_sym (filas A)),
      (Z.eqb_sym (columnas A)). f_equal. apply todos_iguales_sim.
  - rewrite !Matriz_eq_desplegada, !andb_true_iff, !Z.eqb_eq.
    intros [[Hf Hc] Hv] [[Hf' Hc'] Hv'].
    apply (todos_iguales_eq (Z.to_nat (columnas A))) in Hv.
    + split; [split; congruence|]. by rewrite Hv.
    + rewrite !bien_formada_filas by done. by rewrite Hf.
    + by apply bien_formada_columnas.
    + rewrite Hc. by apply bien_formada_columnas.
Qed.

Lemma eq_equivalencia_testigo :
  bien_formada A_ejemplo ∧ bien_formada B_ejemplo ∧
  __eq__ A_ejemplo (ObjMatriz A_ejemplo) = true ∧
  __eq__ A_ejemplo (ObjMatriz B_ejemplo)
  = __eq__ B_ejemplo (ObjMatriz A_ejemplo).
Proof.
  destruct (eq_equivalencia A_ejemplo B_ejemplo A_ejemplo
              A_ejemplo_bien_formada B_ejemplo_bien_formada
              A_ejemplo_bien_formada) as (Hr & Hs & _).
  split; [exact A_ejemplo_bien_formada|].
  split; [exact B_ejemplo_bien_formada|]. split; [exact Hr|exact Hs].
Defined.

(** X6.  [a + b] on well-formed matrices raises [ArithmeticError] exactly
    when the two differ in [filas] or in [columnas]; otherwise it returns a
    well-formed matrix with the dimensions and the flag of [a], rows that
    are fresh distinct objects, and entries [a[i][j] + b[i][j]]. *)
Theorem add_correcta (A B : Matriz) :
  bien_formada A → bien_formada B →
  (__add__ A B = Lanza ArithmeticError ↔
   filas A ≠ filas B ∨ columnas A ≠ columnas B) ∧
  (filas A = filas B → columnas A = columnas B →
   ∃ S, __add__ A B = Ok S ∧
        bien_formada S ∧ sin_alias S ∧
        filas S = filas A ∧ columnas S = columnas A ∧
        aumentada S = aumentada A ∧
        ∀ i j, 0 ≤ i < filas A → 0 ≤ j < columnas A →
          leer (valores S) i j
          = Ok (ent (valores A) i j + ent (valores B) i j)%Qc).
Proof.
  intros HA HB. unfold __add__. split.
  - destruct (Z.eqb_spec (filas A) (filas B)),
      (Z.eqb_spec (columnas A) (columnas B)); simpl;
      (split; [intros H; try discriminate; auto | intros [?|?]; done]).
  - intros Hf Hc. rewrite Hf, Hc, !Z.eqb_refl. simpl. rewrite <-Hf, <-Hc.
    destruct (combinacion_Ok Qcplus (aumentada A) A B HA HB Hf Hc)
      as (HS & Hnd & Hent).
    eexists. split; [reflexivity|]. split; [done|]. split; [done|].
    split; [done|]. split; [done|]. split; [done|].
    intros i j Hi Hj.
    rewrite (leer_ent _ _ _ (proj1 (bien_formada_forma _) HS)) by done.
    by rewrite Hent.
Qed.

Lemma add_correcta_testigo :
  bien_formada A_ejemplo ∧ bien_formada B_ejemplo ∧
  filas A_ejemplo = filas B_ejemplo ∧ columnas A_ejemplo = columnas B_ejemplo ∧
  ∃ S, __add__ A_ejemplo B_ejemplo = Ok S ∧
       bien_formada S ∧ sin_alias S ∧
       filas S = filas A_ejemplo ∧ columnas S = columnas A_ejemplo ∧
       aumentada S = aumentada A_ejemplo ∧
       ∀ i j, 0 ≤ i < filas A_ejemplo → 0 ≤ j < columnas A_ejemplo →
         leer (valores S) i j
         = Ok (ent (valores A_ejemplo) i j + ent (valores B_ejemplo) i j)%Qc.
Proof.
  split; [exact A_ejemplo_bien_formada|].
  split; [exact B_ejemplo_bien_formada|].
  split; [reflexivity|]. split; [reflexivity|].
  apply (add_correcta A_ejemplo B_ejemplo
           A_ejemplo_bien_formada B_ejemplo_bien_formada); reflexivity.
Defined.

(** X7.  [a - b] on well-formed matrices raises [ArithmeticError] exactly
    when the two differ in [filas] or in [columnas]; otherwise it returns a
    well-formed matrix with the dimensions and the flag of [a] and entries
    [a[i][j] - b[i][j]].  In particular [a - a] is a matrix for which
    [es_matriz_cero] holds. *)
Theorem sub_correcta (A B : Matriz) :
  bien_formada A → bien_formada B →
  (__sub__ A B = Lanza ArithmeticError ↔
   filas A ≠ filas B ∨ columnas A ≠ columnas B) ∧
  (filas A = filas B → columnas A = columnas B →
   ∃ D, __sub__ A B = Ok D ∧
        bien_formada D ∧ sin_alias D ∧
        filas D = filas A ∧ columnas D = columnas A ∧
        aumentada D = aumentada A ∧
        ∀ i j, 0 ≤ i < filas A → 0 ≤ j < columnas A →
          leer (valores D) i j
          = Ok (ent (valores A) i j - ent (valores B) i j)%Qc) ∧
  (∃ Z, __sub__ A A = Ok Z ∧ es_matriz_cero Z = true).
Proof.
  intros HA HB. unfold __sub__. split; [|split].
  - destruct (Z.eqb_spec (filas A) (filas B)),
      (Z.eqb_spec (columnas A) (columnas B)); simpl;
      (split; [intros H; try discriminate; auto | intros [?|?]; done]).
  - intros Hf Hc. rewrite Hf, Hc, !Z.eqb_refl. simpl. rewrite <-Hf, <-Hc.
    destruct (combinacion_Ok Qcminus (aumentada A) A B HA HB Hf Hc)
      as (HS & Hnd & Hent).
    eexists. split; [reflexivity|]. split; [done|]. split; [done|].
    split; [done|]. split; [done|]. split; [done|].
    intros i j Hi Hj.
    rewrite (leer_ent _ _ _ (proj1 (bien_formada_forma _) HS)) by done.
    by rewrite Hent.
  - rewrite !Z.eqb_refl. simpl.
    destruct (combinacion_Ok Qcminus (aumentada A) A A HA HA eq_refl eq_refl)
      as (HS & Hnd & Hent).
    eexists. split; [reflexivity|].
    apply (es_matriz_cero_entradas _ HS). intros i j Hi Hj.
    rewrite Hent by done. ring.
Qed.

Lemma sub_correcta_testigo :
  bien_formada A_ejemplo ∧ bien_formada B_ejemplo ∧
  filas A_ejemplo = filas B_ejemplo ∧ columnas A_ejemplo = columnas B_ejemplo ∧
  (∃ D, __sub__ A_ejemplo B_ejemplo = Ok D ∧
        bien_formada D ∧ sin_alias D ∧
        filas D = filas A_ejemplo ∧ columnas D = columnas A_ejemplo ∧
        aumentada D = aumentada A_ejemplo ∧
        ∀ i j, 0 ≤ i < filas A_ejemplo → 0 ≤ j < columnas A_ejemplo →
          leer (valores D) i j
          = Ok (ent (valores A_ejemplo) i j - ent (valores B_ejemplo) i j)%Qc) ∧
  (∃ Z, __sub__ A_ejemplo A_ejemplo = Ok Z ∧ es_matriz_cero Z = true).
Proof.
  destruct (sub_correcta A_ejemplo B_ejemplo
              A_ejemplo_bien_formada B_ejemplo_bien_formada)
    as (_ & Hok & Hcero).
  split; [exact A_ejemplo_bien_formada|].
  split; [exact B_ejemplo_bien_formada|].
  split; [reflexivity|]. split; [reflexivity|].
  split; [apply Hok; reflexivity|exact Hcero].
Defined.

(** X8.  [a * k] with a [Fraction] [k] never raises on a well-formed
    matrix: it returns a well-formed matrix with the dimensions and the
    flag of [a] and entries [k * a[i][j]].  For [k] other than zero,
    multiplying the result by [1 / k] gives a matrix equal to [a]; for
    [k = 0] the result is a zero matrix. *)
Theorem mul_escalar (A : Matriz) (k : Fraction) :
  bien_formada A →
  ∃ P, __mul__ A (ObjFraction k) = Ok P ∧
       bien_formada P ∧ sin_alias P ∧
       filas P = filas A ∧ columnas P = columnas A ∧
       aumentada P = aumentada A ∧
       (∀ i j, 0 ≤ i < filas A → 0 ≤ j < columnas A →
          leer (valores P) i j = Ok (k * ent (valores A) i j)%Qc) ∧
       (k ≠ 0%Qc →
        ∃ P2, __mul__ P (ObjFraction (1 / k)%Qc) = Ok P2 ∧
              __eq__ P2 (ObjMatriz A) = true) ∧
       (k = 0%Qc → es_matriz_cero P = true).
Proof.
  intros HA. pose proof (bien_formada_no_negativa A HA) as [HF HC].
  assert (∀ (X : Matriz) (q : Qc), bien_formada X →
            __mul__ X (ObjFraction q)
            = Ok (MkMatriz (aumentada X) (filas X) (columnas X)
                    (rejilla_nueva
                       (tabla (λ p c, q * ent (valores X) p c)%Qc
                          (filas X) (columnas X))))) as Hmul.
  { intros X q HX. unfold __mul__.
    rewrite (vista_tabla _ _ _ (proj1 (bien_formada_forma X) HX)).
    by rewrite (fmap_tabla (Qcmult q)). }
  set (P := MkMatriz (aumentada A) (filas A) (columnas A)
              (rejilla_nueva
                 (tabla (λ p c, k * ent (valores A) p c)%Qc
                    (filas A) (columnas A)))).
  destruct (matriz_tabla_bien_formada (aumentada A)
              (λ p c, k * ent (valores A) p c)%Qc (filas A) (columnas A) HF HC)
    as [HP HPnd]. fold P in HP, HPnd.
  assert (∀ i j, 0 ≤ i < filas A → 0 ≤ j < columnas A →
            ent (valores P) i j = (k * ent (valores A) i j)%Qc) as HentP.
  { intros i j Hi Hj. unfold P. simpl. by rewrite ent_rejilla_nueva_tabla. }
  exists P. split; [by apply Hmul|]. split; [done|]. split; [done|].
  split; [done|]. split; [done|]. split; [done|]. split; [|split].
  - intros i j Hi Hj.
    rewrite (leer_ent _ _ _ (proj1 (bien_formada_forma _) HP)) by done.
    by rewrite HentP.
  - intros Hk. eexists. split; [by apply Hmul|].
    destruct (matriz_tabla_bien_formada (aumentada P)
                (λ p c, 1 / k * ent (valores P) p c)%Qc (filas P) (columnas P)
                HF HC) as [HP2 _].
    apply eq_por_entradas; [done|done|done|done|].
    intros i j Hi Hj. simpl in Hi, Hj. cbn [valores].
    rewrite ent_rejilla_nueva_tabla by done.
    rewrite HentP by done. field. exact Hk.
  - intros ->. apply (es_matriz_cero_entradas _ HP). intros i j Hi Hj.
    rewrite HentP by done. ring.
Qed.

Lemma mul_escalar_testigo :
  bien_formada A_ejemplo ∧ fr 1 2 ≠ 0%Qc ∧
  ∃ P, __mul__ A_ejemplo (ObjFraction (fr 1 2)) = Ok P ∧
       ∃ P2, __mul__ P (ObjFraction (1 / fr 1 2)%Qc) = Ok P2 ∧
             __eq__ P2 (ObjMatriz A_ejemplo) = true.
Proof.
  assert (fr 1 2 ≠ 0%Qc) as Hk by (intros [=]).
  destruct (mul_escalar A_ejemplo (fr 1 2) A_ejemplo_bien_formada)
    as (P & HP & _ & _ & _ & _ & _ & _ & Hinv & _).
  split; [exact A_ejemplo_bien_formada|]. split; [exact Hk|].
  exists P. split; [exact HP|]. exact (Hinv Hk).
Defined.

(** X9.  On a well-formed matrix [es_matriz_cero] is true exactly when
    every entry is zero; a matrix without rows or without columns is a zero
    matrix. *)
Theorem es_matriz_cero_correcta (m : Matriz) :
  bien_formada m →
  (es_matriz_cero m = true ↔
   ∀ i j, 0 ≤ i < filas m → 0 ≤ j < columnas m →
     leer (valores m) i j = Ok 0%Qc) ∧
  (filas m = 0 ∨ columnas m = 0 → es_matriz_cero m = true).
Proof.
  intros Hm. apply bien_formada_forma in Hm as Hg.
  assert (es_matriz_cero m = true ↔
          ∀ i j, 0 ≤ i < filas m → 0 ≤ j < columnas m →
            leer (valores m) i j = Ok 0%Qc) as Hiff.
  { rewrite (es_matriz_cero_entradas m Hm). split.
    - intros H i j Hi Hj. rewrite (leer_ent _ _ _ Hg) by done.
      by rewrite H.
    - intros H i j Hi Hj. specialize (H i j Hi Hj).
      rewrite (leer_ent _ _ _ Hg) in H by done. by injection H. }
  split; [exact Hiff|]. intros Hvacia. apply Hiff. intros i j Hi Hj. lia.
Qed.

Lemma es_matriz_cero_correcta_testigo :
  bien_formada A_ejemplo ∧
  (es_matriz_cero A_ejemplo = true ↔
   ∀ i j, 0 ≤ i < filas A_ejemplo → 0 ≤ j < columnas A_ejemplo →
     leer (valores A_ejemplo) i j = Ok 0%Qc).
Proof.
  split; [exact A_ejemplo_bien_formada|].
  exact (proj1 (es_matriz_cero_correcta A_ejemplo A_ejemplo_bien_formada)).
Defined.

(** ** The identity test and the algebra of products *)

(** X10.  On a well-formed matrix with at most as many rows as columns,
    [es_identidad] never raises, and it answers [True] exactly when the
    matrix is square with ones on the diagonal and zeros elsewhere; on a
    matrix with fewer rows than columns the answer is [False]. *)
Theorem es_identidad_correcta (m : Matriz) :
  bien_formada m → filas m ≤ columnas m →
  ∃ b, es_identidad m = Ok b ∧
       (b = true ↔
        filas m = columnas m ∧
        (∀ i, 0 ≤ i < filas m → leer (valores m) i i = Ok 1%Qc) ∧
        (∀ i j, 0 ≤ i < filas m → 0 ≤ j < columnas m → i ≠ j →
                leer (valores m) i j = Ok 0%Qc)) ∧
       (filas m < columnas m → b = false).
Proof.
  intros Hm Hdim. apply bien_formada_forma in Hm as Hg.
  destruct (es_identidad_ancha m Hm Hdim) as (b & Hb & Hiff).
  exists b. split; [done|].
  assert (b = true ↔
        filas m = columnas m ∧
        (∀ i, 0 ≤ i < filas m → leer (valores m) i i = Ok 1%Qc) ∧
        (∀ i j, 0 ≤ i < filas m → 0 ≤ j < columnas m → i ≠ j →
                leer (valores m) i j = Ok 0%Qc)) as Hiff'.
  { rewrite Hiff. split; intros (Hsq & Hd & Ho); (split; [done|]); split.
    - intros i Hi. rewrite (leer_ent _ _ _ Hg) by lia. by rewrite Hd.
    - intros i j Hi Hj Hne. rewrite (leer_ent _ _ _ Hg) by lia.
      by rewrite Ho.
    - intros i Hi. specialize (Hd i Hi).
      rewrite (leer_ent _ _ _ Hg) in Hd by lia. by injection Hd.
    - intros i j Hi Hj Hne. specialize (Ho i j Hi Hj Hne).
      rewrite (leer_ent _ _ _ Hg) in Ho by lia. by injection Ho. }
  split; [done|]. intros Hlt. destruct b; [|done].
  destruct (proj1 Hiff' eq_refl) as [Hsq _]. lia.
Qed.

Lemma es_identidad_correcta_testigo :
  bien_formada ancha_ejemplo ∧ filas ancha_ejemplo ≤ columnas ancha_ejemplo ∧
  ∃ b, es_identidad ancha_ejemplo = Ok b ∧
       (filas ancha_ejemplo < columnas ancha_ejemplo → b = false).
Proof.
  assert (filas ancha_ejemplo ≤ columnas ancha_ejemplo) as H by (cbn; lia).
  destruct (es_identidad_correcta ancha_ejemplo ancha_ejemplo_bien_formada H)
    as (b & Hb & _ & Hf).
  split; [exact ancha_ejemplo_bien_formada|]. split; [exact H|].
  exists b. split; [exact Hb|exact Hf].
Defined.

(** X11.  On a well-formed matrix with more rows than columns,
    [es_identidad] raises [IndexError] when the first [columnas] diagonal
    entries are all one, and returns [False] when one of them is not. *)
Theorem es_identidad_mas_filas (m : Matriz) :
  bien_formada m → columnas m < filas m →
  ((∀ i, 0 ≤ i < columnas m → leer (valores m) i i = Ok 1%Qc) →
   es_identidad m = Lanza IndexError) ∧
  ((∃ i x, 0 ≤ i < columnas m ∧ leer (valores m) i i = Ok x ∧ x ≠ 1%Qc) →
   es_identidad m = Ok false).
Proof.
  intros Hm Halta. apply bien_formada_forma in Hm as Hg. split.
  - intros Hd. apply es_identidad_alta; [done|done|].
    intros i Hi. specialize (Hd i Hi).
    rewrite (leer_ent _ _ _ Hg) in Hd by lia. by injection Hd.
  - intros (i & x & Hi & Hx & Hne). apply es_identidad_alta_falso; [done|done|].
    exists i. split; [done|].
    rewrite (leer_ent _ _ _ Hg) in Hx by lia. by injection Hx as ->.
Qed.

Lemma es_identidad_mas_filas_testigo :
  bien_formada columna_12 ∧ columnas columna_12 < filas columna_12 ∧
  (∀ i, 0 ≤ i < columnas columna_12 →
        leer (valores columna_12) i i = Ok 1%Qc) ∧
  es_identidad columna_12 = Lanza IndexError.
Proof.
  assert (columnas columna_12 < filas columna_12) as H by (cbn; lia).
  assert (∀ i, 0 ≤ i < columnas columna_12 →
               leer (valores columna_12) i i = Ok 1%Qc) as Hd.
  { intros i Hi. assert (i = 0) as -> by (cbn in Hi; lia). reflexivity. }
  split; [exact columna_12_bien_formada|]. split; [exact H|].
  split; [exact Hd|].
  exact (proj1 (es_identidad_mas_filas columna_12 columna_12_bien_formada H)
           Hd).
Defined.

(** X12.  A matrix for which [es_identidad] answers [True] is neutral for
    the product: for well-formed [a] and [e] with [e.es_identidad()] true,
    [a * e == a] when [a.columnas == e.filas] and [e * a == a] when
    [e.columnas == a.filas]. *)
Theorem mul_identidad (A E : Matriz) :
  bien_formada A → bien_formada E → es_identidad E = Ok true →
  (columnas A = filas E →
   ∃ P, __mul__ A (ObjMatriz E) = Ok P ∧ __eq__ P (ObjMatriz A) = true) ∧
  (columnas E = filas A →
   ∃ P, __mul__ E (ObjMatriz A) = Ok P ∧ __eq__ P (ObjMatriz A) = true).
Proof.
  intros HA HE Hid.
  destruct (es_identidad_true E HE Hid) as (Hsq & Hd & Ho). split.
  - intros Hdim.
    destruct (mul_Ok A E HA HE Hdim) as (P & HP & HPbf & Hf & Hc & _ & Hent).
    exists P. split; [done|].
    apply eq_por_entradas; [done|done|done|lia|].
    intros i j Hi Hj. rewrite Hent by lia.
    apply coef_producto_identidad_r; [lia| |].
    + intros k Hk. apply Hd. lia.
    + intros k l Hk Hl. apply Ho; lia.
  - intros Hdim.
    destruct (mul_Ok E A HE HA Hdim) as (P & HP & HPbf & Hf & Hc & _ & Hent).
    exists P. split; [done|].
    apply eq_por_entradas; [done|done|lia|done|].
    intros i j Hi Hj. rewrite Hent by lia.
    apply coef_producto_identidad_l; [lia| |].
    + intros k Hk. apply Hd. lia.
    + intros k l Hk Hl. apply Ho; lia.
Qed.

(** [Matriz(False, 2, 2, [[1, 0], [0, 1]])] *)
Lemma mul_identidad_testigo :
  let E := matriz_de false [[fr 1 1; fr 0 1]; [fr 0 1; fr 1 1]] in
  bien_formada A_ejemplo ∧ bien_formada E ∧ es_identidad E = Ok true ∧
  columnas A_ejemplo = filas E ∧
  ∃ P, __mul__ A_ejemplo (ObjMatriz E) = Ok P ∧
       __eq__ P (ObjMatriz A_ejemplo) = true.
Proof.
  intros E.
  assert (bien_formada E) as HE
    by (apply (matriz_de_bien_formada _ _ 2%nat); [repeat constructor|done]).
  assert (es_identidad E = Ok true) as Hid by (vm_compute; reflexivity).
  split; [exact A_ejemplo_bien_formada|]. split; [exact HE|].
  split; [exact Hid|]. split; [reflexivity|].
  apply (mul_identidad A_ejemplo E A_ejemplo_bien_formada HE Hid).
  reflexivity.
Defined.

(** X13.  The product is associative: for well-formed [a], [b], [c] with
    [a.columnas == b.filas] and [b.columnas == c.filas], all four products
    are computed without error and [(a * b) * c == a * (b * c)]. *)
Theorem mul_asociativa (A B C : Matriz) :
  bien_formada A → bien_formada B → bien_formada C →
  columnas A = filas B → columnas B = filas C →
  ∃ AB BC P Q,
    __mul__ A (ObjMatriz B) = Ok AB ∧ __mul__ B (ObjMatriz C) = Ok BC ∧
    __mul__ AB (ObjMatriz C) = Ok P ∧ __mul__ A (ObjMatriz BC) = Ok Q ∧
    __eq__ P (ObjMatriz Q) = true.
Proof.
  intros HA HB HC Hab Hbc.
  destruct (mul_Ok A B HA HB Hab)
    as (AB & HAB & HABbf & HABf & HABc & _ & HABent).
  destruct (mul_Ok B C HB HC Hbc)
    as (BC & HBC & HBCbf & HBCf & HBCc & _ & HBCent).
  destruct (mul_Ok AB C HABbf HC) as (P & HP & HPbf & HPf & HPc & _ & HPent);
    [lia|].
  destruct (mul_Ok A BC HA HBCbf) as (Q & HQ & HQbf & HQf & HQc & _ & HQent);
    [lia|].
  exists AB, BC, P, Q. repeat (split; [done|]).
  pose proof (bien_formada_no_negativa A HA) as [_ HCa].
  pose proof (bien_formada_no_negativa B HB) as [_ HCb].
  apply eq_por_entradas; [done|done|lia|lia|].
  intros i j Hi Hj. rewrite HPent, HQent by lia.
  unfold coef_producto. rewrite HABc.
  rewrite (sumatoria_ext _
             (λ l, sumatoria
                     (λ k, ent (valores A) i (Z.of_nat k)
                           * ent (valores B) (Z.of_nat k) (Z.of_nat l)
                           * ent (valores C) (Z.of_nat l) j)%Qc
                     (Z.to_nat (columnas A)))).
  2:{ intros l Hl. rewrite HABent by lia. unfold coef_producto.
      apply sumatoria_mult_r. }
  rewrite (sumatoria_ext (λ k, _ * ent (valores BC) _ _)%Qc
             (λ k, sumatoria
                     (λ l, ent (valores A) i (Z.of_nat k)
                           * ent (valores B) (Z.of_nat k) (Z.of_nat l)
                           * ent (valores C) (Z.of_nat l) j)%Qc
                     (Z.to_nat (columnas B)))).
  2:{ intros k Hk. rewrite HBCent by lia. unfold coef_producto.
      rewrite sumatoria_mult_l. apply sumatoria_ext. intros l Hl. ring. }
  apply sumatoria_intercambio.
Qed.

Lemma mul_asociativa_testigo :
  bien_formada A_ejemplo ∧ bien_formada B_ejemplo ∧ bien_formada ancha_ejemplo ∧
  columnas A_ejemplo = filas B_ejemplo ∧
  columnas B_ejemplo = filas ancha_ejemplo ∧
  ∃ AB BC P Q,
    __mul__ A_ejemplo (ObjMatriz B_ejemplo) = Ok AB ∧
    __mul__ B_ejemplo (ObjMatriz ancha_ejemplo) = Ok BC ∧
    __mul__ AB (ObjMatriz ancha_ejemplo) = Ok P ∧
    __mul__ A_ejemplo (ObjMatriz BC) = Ok Q ∧
    __eq__ P (ObjMatriz Q) = true.
Proof.
  split; [exact A_ejemplo_bien_formada|].
  split; [exact B_ejemplo_bien_formada|].
  split; [exact ancha_ejemplo_bien_formada|].
  split; [reflexivity|]. split; [reflexivity|].
  apply (mul_asociativa A_ejemplo B_ejemplo ancha_ejemplo
           A_ejemplo_bien_formada B_ejemplo_bien_formada
           ancha_ejemplo_bien_formada); reflexivity.
Defined.

(** X14.  The product distributes over the sum: for well-formed [a], [b],
    [c] with [b] and [c] of the same dimensions and
    [a.columnas == b.filas], [a * (b + c) == a * b + a * c], every
    operation returning without error. *)
Theorem mul_distributiva (A B C : Matriz) :
  bien_formada A → bien_formada B → bien_formada C →
  columnas A = filas B → filas B = filas C → columnas B = columnas C →
  ∃ S P AB AC Q,
    __add__ B C = Ok S ∧ __mul__ A (ObjMatriz S) = Ok P ∧
    __mul__ A (ObjMatriz B) = Ok AB ∧ __mul__ A (ObjMatriz C) = Ok AC ∧
    __add__ AB AC = Ok Q ∧ __eq__ P (ObjMatriz Q) = true.
Proof.
  intros HA HB HC Hab Hf Hc.
  assert (∀ X Y : Matriz, filas X = filas Y → columnas X = columnas Y →
            __add__ X Y = Ok (MkMatriz (aumentada X) (filas X) (columnas X)
                            (rejilla_nueva
                               (zip_with (zip_with Qcplus) (vista (valores X))
                                  (vista (valores Y)))))) as Hadd.
  { intros X Y HXf HXc. unfold __add__. by rewrite HXf, HXc, !Z.eqb_refl. }
  destruct (combinacion_Ok Qcplus (aumentada B) B C HB HC Hf Hc)
    as (HS & _ & HSent).
  set (S := MkMatriz (aumentada B) (filas B) (columnas B)
              (rejilla_nueva
                 (zip_with (zip_with Qcplus) (vista (valores B))
                    (vista (valores C))))) in *.
  assert (filas S = filas B) as HSf by reflexivity.
  assert (columnas S = columnas B) as HSc by reflexivity.
  destruct (mul_Ok A S HA HS Hab) as (P & HP & HPbf & HPf & HPc & _ & HPent).
  destruct (mul_Ok A B HA HB Hab)
    as (AB & HAB & HABbf & HABf & HABc & _ & HABent).
  destruct (mul_Ok A C HA HC) as (AC & HAC & HACbf & HACf & HACc & _ & HACent);
    [lia|].
  destruct (combinacion_Ok Qcplus (aumentada AB) AB AC HABbf HACbf)
    as (HQ & _ & HQent); [lia|lia|].
  eexists S, P, AB, AC, _.
  split; [by apply Hadd|]. split; [done|]. split; [done|]. split; [done|].
  split; [apply Hadd; lia|].
  apply eq_por_entradas; [done|done|simpl; lia|simpl; lia|].
  intros i j Hi Hj. rewrite HPent by lia.
  rewrite HQent, HABent, HACent by lia.
  unfold coef_producto. rewrite <-sumatoria_suma.
  apply sumatoria_ext. intros k Hk.
  change (valores S) with (rejilla_nueva
                 (zip_with (zip_with Qcplus) (vista (valores B))
                    (vista (valores C)))).
  rewrite HSent by lia. ring.
Qed.

Lemma mul_distributiva_testigo :
  bien_formada A_ejemplo ∧ bien_formada B_ejemplo ∧
  columnas A_ejemplo = filas B_ejemplo ∧
  ∃ S P AB AC Q,
    __add__ B_ejemplo A_ejemplo = Ok S ∧
    __mul__ A_ejemplo (ObjMatriz S) = Ok P ∧
    __mul__ A_ejemplo (ObjMatriz B_ejemplo) = Ok AB ∧
    __mul__ A_ejemplo (ObjMatriz A_ejemplo) = Ok AC ∧
    __add__ AB AC = Ok Q ∧ __eq__ P (ObjMatriz Q) = true.
Proof.
  split; [exact A_ejemplo_bien_formada|].
  split; [exact B_ejemplo_bien_formada|]. split; [reflexivity|].
  apply (mul_distributiva A_ejemplo B_ejemplo A_ejemplo
           A_ejemplo_bien_formada B_ejemplo_bien_formada
           A_ejemplo_bien_formada); reflexivity.
Defined.

(** X15.  Transposition reverses products and commutes with sums: for
    well-formed matrices, [(a * b).transponer() ==
    b.transponer() * a.transponer()] when [a.columnas == b.filas], and
    [(a + b).transponer() == a.transponer() + b.transponer()] when the
    dimensions agree; no operation involved raises. *)
Theorem transponer_producto_y_suma (A B : Matriz) :
  bien_formada A → bien_formada B →
  (columnas A = filas B →
   ∃ P Pt At Bt Q,
     __mul__ A (ObjMatriz B) = Ok P ∧ transponer P = Ok Pt ∧
     transponer A = Ok At ∧ transponer B = Ok Bt ∧
     __mul__ Bt (ObjMatriz At) = Ok Q ∧ __eq__ Pt (ObjMatriz Q) = true) ∧
  (filas A = filas B → columnas A = columnas B →
   ∃ S St At Bt Q,
     __add__ A B = Ok S ∧ transponer S = Ok St ∧
     transponer A = Ok At ∧ transponer B = Ok Bt ∧
     __add__ At Bt = Ok Q ∧ __eq__ St (ObjMatriz Q) = true).
Proof.
  intros HA HB.
  destruct (transponer_entradas A HA)
    as (At & HAt & HAtbf & HAtf & HAtc & _ & HAtent).
  destruct (transponer_entradas B HB)
    as (Bt & HBt & HBtbf & HBtf & HBtc & _ & HBtent).
  split.
  - intros Hab.
    destruct (mul_Ok A B HA HB Hab) as (P & HP & HPbf & HPf & HPc & _ & HPent).
    destruct (transponer_entradas P HPbf)
      as (Pt & HPt & HPtbf & HPtf & HPtc & _ & HPtent).
    destruct (mul_Ok Bt At HBtbf HAtbf)
      as (Q & HQ & HQbf & HQf & HQc & _ & HQent); [lia|].
    exists P, Pt, At, Bt, Q. repeat (split; [done|]).
    apply eq_por_entradas; [done|done|lia|lia|].
    intros i j Hi Hj. rewrite HPtent, HPent, HQent by lia.
    unfold coef_producto. rewrite HBtc, Hab.
    apply sumatoria_ext. intros k Hk.
    rewrite HBtent, HAtent by lia. ring.
  - intros Hf Hc.
    assert (∀ X Y : Matriz, filas X = filas Y → columnas X = columnas Y →
              __add__ X Y = Ok (MkMatriz (aumentada X) (filas X) (columnas X)
                              (rejilla_nueva
                                 (zip_with (zip_with Qcplus)
                                    (vista (valores X))
                                    (vista (valores Y)))))) as Hadd.
    { intros X Y HXf HXc. unfold __add__. by rewrite HXf, HXc, !Z.eqb_refl. }
    destruct (combinacion_Ok Qcplus (aumentada A) A B HA HB Hf Hc)
      as (HS & _ & HSent).
    destruct (combinacion_Ok Qcplus (aumentada At) At Bt HAtbf HBtbf)
      as (HQ & _ & HQent); [lia|lia|].
    destruct (transponer_entradas _ HS)
      as (St & HSt & HStbf & HStf & HStc & _ & HStent).
    eexists _, St, At, Bt, _.
    split; [by apply Hadd|]. split; [exact HSt|]. split; [done|].
    split; [done|]. split; [apply Hadd; lia|].
    apply eq_por_entradas; [done|done|simpl in *; lia|simpl in *; lia|].
    intros i j Hi Hj. simpl in HStf, HStc, HStent.
    rewrite HStent, HSent, HQent, HAtent, HBtent by lia. done.
Qed.

Lemma transponer_producto_y_suma_testigo :
  bien_formada A_ejemplo ∧ bien_formada ancha_ejemplo ∧
  columnas A_ejemplo = filas ancha_ejemplo ∧
  ∃ P Pt At Bt Q,
    __mul__ A_ejemplo (ObjMatriz ancha_ejemplo) = Ok P ∧
    transponer P = Ok Pt ∧
    transponer A_ejemplo = Ok At ∧ transponer ancha_ejemplo = Ok Bt ∧
    __mul__ Bt (ObjMatriz At) = Ok Q ∧ __eq__ Pt (ObjMatriz Q) = true.
Proof.
  split; [exact A_ejemplo_bien_formada|].
  split; [exact ancha_ejemplo_bien_formada|]. split; [reflexivity|].
  apply (transponer_producto_y_suma A_ejemplo ancha_ejemplo
           A_ejemplo_bien_formada ancha_ejemplo_bien_formada). reflexivity.
Defined.

(** X16. [hacer_triangular_superior] leaves an upper triangular matrix as
    it is: for a well-formed matrix with no more rows than columns whose
    entries below the diagonal are all zero, the call returns a matrix
    with the same rows, dimensions and flag, and reports no row
    exchange.  This holds also when the diagonal has zeros and when rows
    are shared. *)
Theorem hacer_triangular_ya_triangular (A : Matriz) :
  bien_formada A → filas A ≤ columnas A →
  (∀ p c, 0 ≤ c → c < p → p < filas A → ent (valores A) p c = 0%Qc) →
  ∃ T, hacer_triangular_superior A = Ok (T, false) ∧
       bien_formada T ∧ filas T = filas A ∧ columnas T = columnas A ∧
       aumentada T = aumentada A ∧
       vista (valores T) = vista (valores A) ∧
       __eq__ T (ObjMatriz A) = true.
Proof.
  intros HA Hdim Htri.
  destruct (hacer_triangular_sin_cambio A HA Hdim)
    as (T & Hrun & HT & Hf & Hc & Ha & Hv).
  { intros p c Hc Hp. apply Htri; lia. }
  exists T. repeat (split; [done|]).
  rewrite Matriz_eq_desplegada, Hf, Hc, Hv, !Z.eqb_refl.
  apply todos_iguales_refl.
Qed.

Lemma hacer_triangular_ya_triangular_testigo :
  ∃ T, hacer_triangular_superior (matriz_de false [[fr 1 1; fr 2 1]; [fr 0 1; fr 0 1]])
         = Ok (T, false) ∧
       vista (valores T) = [[fr 1 1; fr 2 1]; [fr 0 1; fr 0 1]].
Proof.
  destruct (hacer_triangular_ya_triangular
              (matriz_de false [[fr 1 1; fr 2 1]; [fr 0 1; fr 0 1]]))
    as (T & Hrun & _ & _ & _ & _ & Hv & _).
  - apply (matriz_de_bien_formada _ _ 2%nat); [|done]. repeat constructor.
  - by vm_compute.
  - intros p c Hc Hp Hf. change (p < 2) in Hf.
    assert (p = 1 ∧ c = 0) as [-> ->] by lia. by vm_compute.
  - exists T. split; [exact Hrun|]. rewrite Hv. by vm_compute.
Defined.

(** X17. [hacer_triangular_superior] is idempotent on well-formed
    matrices with no more rows than columns: when a call returns [T],
    calling it again on [T] returns the same rows and reports no row
    exchange. *)
Theorem hacer_triangular_idempotente (A T : Matriz) (b : bool) :
  bien_formada A → filas A ≤ columnas A →
  hacer_triangular_superior A = Ok (T, b) →
  ∃ T', hacer_triangular_superior T = Ok (T', false) ∧
        vista (valores T') = vista (valores T) ∧
        __eq__ T' (ObjMatriz T) = true.
Proof.
  intros HA Hdim Hrun.
  destruct (hacer_triangular_superior_parcial A HA T b Hdim Hrun)
    as (HT & Hf & Hc & _ & _ & Htri).
  destruct (hacer_triangular_sin_cambio T HT)
    as (T' & Hrun' & HT' & Hf' & Hc' & _ & Hv); [lia| |].
  { by rewrite Hf. }
  exists T'. repeat (split; [done|]).
  rewrite Matriz_eq_desplegada, Hf', Hc', Hv, !Z.eqb_refl.
  apply todos_iguales_refl.
Qed.

Lemma hacer_triangular_idempotente_testigo :
  ∃ T b T', hacer_triangular_superior A_ejemplo = Ok (T, b) ∧
            hacer_triangular_superior T = Ok (T', false) ∧
            vista (valores T') = vista (valores T).
Proof.
  destruct (hacer_triangular_superior_total A_ejemplo)
    as (T & b & Hrun).
  - apply A_ejemplo_bien_formada.
  - by vm_compute.
  - apply matriz_de_sin_alias.
  - destruct (hacer_triangular_idempotente A_ejemplo T b)
      as (T' & Hrun' & Hv & _).
    + apply A_ejemplo_bien_formada.
    + by vm_compute.
    + exact Hrun.
    + by exists T, b, T'.
Defined.

(** X18. On a matrix with more rows than columns
    [hacer_triangular_superior] never returns: the pass for the first
    row index past the number of columns looks for a pivot outside the
    matrix.  When no two rows are one shared list the exception is
    IndexError. *)
Theorem hacer_triangular_superior_mas_filas (A : Matriz) :
  bien_formada A → columnas A < filas A →
  ¬ termina (hacer_triangular_superior A) ∧
  (sin_alias A → hacer_triangular_superior A = Lanza IndexError).
Proof.
  intros HA Halta. split.
  - by apply hacer_triangular_superior_alta_no_termina.
  - intros Hs. by apply hacer_triangular_superior_alta.
Qed.

Lemma hacer_triangular_superior_mas_filas_testigo :
  ¬ termina (hacer_triangular_superior columna_12) ∧
  hacer_triangular_superior columna_12 = Lanza IndexError.
Proof.
  destruct (hacer_triangular_superior_mas_filas columna_12) as [Hn Hl].
  - apply columna_12_bien_formada.
  - by vm_compute.
  - split; [exact Hn|]. apply Hl. apply matriz_de_sin_alias.
Defined.

(** X19. On a well-formed matrix with two rows, none of them shared, and
    at least two columns, [hacer_triangular_superior] returns a matrix
    whose entry below the diagonal is zero and whose diagonal product,
    negated exactly when the returned flag reports a row exchange, is
    the determinant [a00 * a11 - a01 * a10] of the leading block of the
    input. *)
Theorem hacer_triangular_determinante (A : Matriz) :
  bien_formada A → sin_alias A → filas A = 2 → 2 ≤ columnas A →
  ∃ T (s : bool) d,
    hacer_triangular_superior A = Ok (T, s) ∧
    leer (valores T) 1 0 = Ok 0%Qc ∧
    producto_diagonal T = Ok d ∧
    (if s then (- d)%Qc else d) =
      (ent (valores A) 0 0 * ent (valores A) 1 1
       - ent (valores A) 0 1 * ent (valores A) 1 0)%Qc.
Proof.
  intros HA Hs Hf Hc. apply bien_formada_forma in HA as Hg.
  unfold hacer_triangular_superior, producto_diagonal. rewrite Hf in *.
  change (rango 0 2) with [0; 1].
  destruct (paso_0_dos_filas (valores A) (columnas A))
    as (g1 & s & Hpaso0 & Hg1 & Hcero & Hdet); [done|lia|done|].
  destruct (paso_1_dos_filas g1 (columnas A) s)
    as (g2 & Hpaso1 & Hg2 & Hent); [done|lia|].
  assert (para [0; 1] (paso 2 (columnas A)) (valores A, false) = Ok (g2, s))
    as Hpasos.
  { rewrite !para_cons, Hpaso0. change (paso 2 (columnas A) 1 (g1, s)
      ≫= para [] (paso 2 (columnas A)) = Ok (g2, s)). by rewrite Hpaso1. }
  unfold deepcopy. rewrite Hpasos.
  eexists _, s, _. split; [reflexivity|]. simpl.
  rewrite !(leer_ent g2 2 (columnas A)) by (done || lia). simpl.
  rewrite !Hent by lia. split; [by rewrite Hcero|]. split; [reflexivity|].
  rewrite <- Hdet by lia. by destruct s.
Qed.

Lemma hacer_triangular_determinante_testigo :
  ∃ T (s : bool) d,
    hacer_triangular_superior A_ejemplo = Ok (T, s) ∧
    producto_diagonal T = Ok d ∧
    (if s then (- d)%Qc else d) = fr (-2) 1.
Proof.
  destruct (hacer_triangular_determinante A_ejemplo)
    as (T & s & d & Hrun & _ & Hd & Hdet).
  - apply A_ejemplo_bien_formada.
  - apply matriz_de_sin_alias.
  - reflexivity.
  - by vm_compute.
  - exists T, s, d. split; [exact Hrun|]. split; [exact Hd|].
    rewrite Hdet. compute_done.
Defined.

(** X20. [OpsManager.producto_matriz_vector] on a well-formed matrix and
    a vector, whatever the text of an entry is.  When the number of
    components differs from the number of columns nothing is computed:
    the message reads one line, or raises EOFError at the end of the
    input.  Otherwise, if the matrix has at least one row and one
    column, no error is raised and the matrix that is printed has the
    dimensions of the input, is not augmented, and its entry [(i, j)]
    is [mat[i][j] * vec[j]]: the components are not summed, and the
    product of the matrix and the vector is the sum of each row of the
    result.  If the matrix has no rows or no columns, printing the
    result raises ValueError. *)
Theorem producto_matriz_vector_correcto (texto : Fraction → string)
    (mat : Matriz) (vec : list Fraction) (entrada : list string) :
  bien_formada mat →
  (columnas mat ≠ Z.of_nat (length vec) →
   producto_matriz_vector texto mat vec entrada
   = match entrada with
     | [] => PropagaEOFError
     | _ :: resto => Avisa resto
     end) ∧
  (columnas mat = Z.of_nat (length vec) →
   0 < filas mat → 0 < columnas mat →
   ∃ R impreso,
     producto_matriz_vector texto mat vec entrada = Imprime R impreso ∧
     __str__ texto R = Ok impreso ∧
     bien_formada R ∧ sin_alias R ∧
     filas R = filas mat ∧ columnas R = columnas mat ∧
     aumentada R = false ∧
     (∀ i j, 0 ≤ i < filas mat → 0 ≤ j < columnas mat →
        __getitem__ R (ObjTupla [i; j])
        = Ok (Elemento (ent (valores mat) i j * componente_de vec j)%Qc)) ∧
     (∀ i, 0 ≤ i < filas mat →
        sumatoria (λ j, ent (valores R) i (Z.of_nat j)) (length vec)
        = sumatoria (λ j, ent (valores mat) i (Z.of_nat j)
                          * componente_de vec (Z.of_nat j))%Qc
            (length vec))) ∧
  (columnas mat = Z.of_nat (length vec) →
   filas mat = 0 ∨ columnas mat = 0 →
   producto_matriz_vector texto mat vec entrada = Propaga ValueError).
Proof.
  intros Hm. split; [|split].
  - intros Hne. unfold producto_matriz_vector.
    destruct (Z.eqb_spec (columnas mat) (Z.of_nat (length vec))); done.
  - intros Hlen HF HC.
    destruct (bucles_producto_matriz_vector mat vec Hm Hlen)
      as (res & Hrun & Hf & Hnd & Hent).
    set (R := MkMatriz false (filas mat) (columnas mat) res).
    assert (bien_formada R) as HR by (by apply bien_formada_forma).
    destruct (str_Ok texto R HR HF HC) as (M & Hstr & _).
    exists R, (une ((λ i, linea_de texto R M i +:+ salto)
                    <$> rango 0 (filas R))).
    split; [|split; [done|]].
    + unfold producto_matriz_vector.
      rewrite Hlen, Z.eqb_refl, <-Hlen. cbn [negb].
      rewrite Hlen at 1. rewrite Hrun. cbn -[__str__].
      fold R. rewrite Hstr. reflexivity.
    + split; [done|]. split; [done|]. repeat (split; [done|]). split.
      * intros i j Hi Hj.
        rewrite getitem_elemento_en_rango by (done || simpl; lia).
        simpl. by rewrite Hent.
      * intros i Hi. apply sumatoria_ext. intros j Hj.
        simpl. apply Hent; lia.
  - intros Hlen Hvacia.
    destruct (bucles_producto_matriz_vector mat vec Hm Hlen)
      as (res & Hrun & _).
    unfold producto_matriz_vector.
    rewrite Hlen, Z.eqb_refl, <-Hlen. cbn [negb].
    rewrite Hlen at 1. rewrite Hrun. cbn -[__str__].
    rewrite str_vacia by (simpl; lia). reflexivity.
Qed.

Lemma producto_matriz_vector_correcto_testigo :
  ∃ R impreso,
    producto_matriz_vector texto_ejemplo A_ejemplo [fr 2 1; fr 1 1] []
    = Imprime R impreso ∧
    __str__ texto_ejemplo R = Ok impreso ∧
    __getitem__ R (ObjTupla [1; 0])
    = Ok (Elemento (ent (valores A_ejemplo) 1 0
                    * componente_de [fr 2 1; fr 1 1] 0)%Qc).
Proof.
  destruct (producto_matriz_vector_correcto texto_ejemplo A_ejemplo
              [fr 2 1; fr 1 1] [])
    as (_ & Hprod & _); [apply A_ejemplo_bien_formada|].
  destruct Hprod as (R & impreso & Hrun & Hstr & _ & _ & _ & _ & _ & Hent & _);
    [reflexivity..|].
  exists R, impreso. split; [exact Hrun|]. split; [exact Hstr|].
  apply Hent; by (cbn; lia).
Defined.

(** X21. [OpsManager.main_menu] returns only the options 1, 2 and 3, and
    what it returns is the first valid answer: the answers are the
    lines of input at the even positions, because after each invalid
    answer the error message reads one more line, which is dropped even
    if it is a valid option.  If the input holds no valid answer the
    call ends with the EOFError of [input], and after as many invalid
    answers as nested calls are allowed, with a RecursionError. *)
Theorem OpsManager_main_menu_correcto (int : string → option Z)
    (strip : string → string) (marcos : nat) (entrada : list string) :
  (∀ o resto,
     OpsManager_main_menu int strip marcos entrada = (Devuelve o, resto) →
     1 ≤ o ≤ 3 ∧
     ∃ k, (k < marcos)%nat ∧
          (∀ n, (n < k)%nat → intento (int ∘ strip) entrada n = None) ∧
          intento (int ∘ strip) entrada k = Some o ∧
          resto = drop (2 * k + 1) entrada) ∧
  (∀ k o, (k < marcos)%nat →
     (∀ n, (n < k)%nat → intento (int ∘ strip) entrada n = None) →
     intento (int ∘ strip) entrada k = Some o →
     OpsManager_main_menu int strip marcos entrada
     = (Devuelve o, drop (2 * k + 1) entrada)) ∧
  ((length entrada < 2 * marcos)%nat →
   (∀ n, intento (int ∘ strip) entrada n = None) →
   OpsManager_main_menu int strip marcos entrada = (LanzaEOFError, [])) ∧
  ((2 * marcos ≤ length entrada)%nat →
   (∀ n, (n < marcos)%nat → intento (int ∘ strip) entrada n = None) →
   OpsManager_main_menu int strip marcos entrada
   = (LanzaRecursionError, drop (2 * marcos) entrada)).
Proof.
  rewrite OpsManager_main_menu_strip. split; [|split; [|split]].
  - intros o resto Hrun.
    destruct (main_menu_devuelve_inv _ _ _ _ _ Hrun)
      as (k & Hk & Hinv & Hval & ->).
    split; [|by exists k].
    unfold intento in Hval.
    destruct (entrada !! (2 * k)%nat) as [linea|]; [|done].
    by apply (valida_rango (int ∘ strip) linea).
  - intros k o. apply main_menu_devuelve.
  - apply main_menu_fin_entrada.
  - apply main_menu_recursion.
Qed.

Lemma OpsManager_main_menu_correcto_testigo :
  OpsManager_main_menu int_ejemplo strip_ejemplo 5
    ["hola"; "2"; "7"; "1"; " 3 "; "1"]%string
  = (Devuelve 3, ["1"%string]).
Proof.
  apply (proj1 (proj2 (OpsManager_main_menu_correcto int_ejemplo
                         strip_ejemplo 5
                         ["hola"; "2"; "7"; "1"; " 3 "; "1"]%string))
           2%nat 3).
  - lia.
  - intros [|[|n]] Hn; [reflexivity|reflexivity|lia].
  - reflexivity.
Defined.

(** X22. [main_menu] of [menu.py] returns only the options 1, 2 and 3,
    and what it returns is the first valid answer, the answers being
    the lines of input at the even positions: the line read by the
    error message after an invalid answer is dropped.  If the input
    holds no valid answer the call ends with the EOFError of [input],
    and after as many invalid answers as nested calls are allowed, with
    a RecursionError. *)
Theorem menu_py_main_menu_correcto (int : string → option Z) (marcos : nat)
    (entrada : list string) :
  (∀ o resto,
     main_menu int marcos entrada = (Devuelve o, resto) →
     1 ≤ o ≤ 3 ∧
     ∃ k, (k < marcos)%nat ∧
          (∀ n, (n < k)%nat → intento int entrada n = None) ∧
          intento int entrada k = Some o ∧
          resto = drop (2 * k + 1) entrada) ∧
  (∀ k o, (k < marcos)%nat →
     (∀ n, (n < k)%nat → intento int entrada n = None) →
     intento int entrada k = Some o →
     main_menu int marcos entrada = (Devuelve o, drop (2 * k + 1) entrada)) ∧
  ((length entrada < 2 * marcos)%nat →
   (∀ n, intento int entrada n = None) →
   main_menu int marcos entrada = (LanzaEOFError, [])) ∧
  ((2 * marcos ≤ length entrada)%nat →
   (∀ n, (n < marcos)%nat → intento int entrada n = None) →
   main_menu int marcos entrada
   = (LanzaRecursionError, drop (2 * marcos) entrada)).
Proof.
  split; [|split; [|split]].
  - intros o resto Hrun.
    destruct (main_menu_devuelve_inv _ _ _ _ _ Hrun)
      as (k & Hk & Hinv & Hval & ->).
    split; [|by exists k].
    unfold intento in Hval.
    destruct (entrada !! (2 * k)%nat) as [linea|]; [|done].
    by apply (valida_rango int linea).
  - intros k o. apply main_menu_devuelve.
  - apply main_menu_fin_entrada.
  - apply main_menu_recursion.
Qed.

Lemma menu_py_main_menu_correcto_testigo :
  main_menu int_ejemplo 2 ["7"; "3"; "hola"; "1"; "2"]%string
  = (LanzaRecursionError, ["2"%string]).
Proof.
  apply (proj2 (proj2 (proj2 (menu_py_main_menu_correcto int_ejemplo 2
                                ["7"; "3"; "hola"; "1"; "2"]%string)))).
  - simpl. lia.
  - intros [|[|n]] Hn; [reflexivity|reflexivity|lia].
Defined.

(** X23. [__str__] on a well-formed matrix with at least one entry
    returns one line per row, each followed by an end of line, in which
    every entry is centred in [M] characters, [M] being the length of
    the longest text of an entry.  All lines have the same length,
    [columnas * (M + 2) + 2], and one more character for the bar of an
    augmented matrix, which is written only from three columns on. *)
Theorem str_alineado (texto : Fraction → string) (A : Matriz) :
  bien_formada A → 0 < filas A → 0 < columnas A →
  ∃ M,
    __str__ texto A
    = Ok (une ((λ i, linea_de texto A M i +:+ salto) <$> rango 0 (filas A))) ∧
    (∀ i j, 0 ≤ i < filas A → 0 ≤ j < columnas A →
       Z.of_nat (String.length (texto (ent (valores A) i j))) ≤ M ∧
       Z.of_nat (String.length (center (texto (ent (valores A) i j)) M)) = M) ∧
    (∃ i j, 0 ≤ i < filas A ∧ 0 ≤ j < columnas A ∧
       Z.of_nat (String.length (texto (ent (valores A) i j))) = M) ∧
    (∀ i, 0 ≤ i < filas A →
       Z.of_nat (String.length (linea_de texto A M i))
       = columnas A * (M + 2) + 2
         + (if aumentada A && (3 <=? columnas A) then 1 else 0)).
Proof.
  intros HA HF HC.
  destruct (str_Ok texto A HA HF HC) as (M & Hrun & Hle & Hmax).
  exists M. split; [done|]. split; [|split; [done|]].
  - intros i j Hi Hj. split; [by apply Hle|].
    apply length_center. by apply Hle.
  - intros i Hi. unfold linea_de.
    rewrite (length_linea_hasta (aumentada A) (columnas A) M
               (λ j, center (texto (ent (valores A) i j)) M)).
    + destruct (Z.ltb_spec 0 (columnas A)); [|lia].
      destruct (Z.leb_spec (columnas A - 1) (columnas A)); [|lia].
      by rewrite andb_true_r.
    + intros j Hj. apply length_center. by apply Hle.
    + lia.
Qed.

Lemma str_alineado_testigo :
  ∃ M, __str__ texto_ejemplo
         (matriz_de true [[fr 1 1; fr 10 1; fr 3 1]; [fr 4 1; fr 1 2; fr 2 1]])
       = Ok (une ((λ i, linea_de texto_ejemplo
                          (matriz_de true [[fr 1 1; fr 10 1; fr 3 1];
                                           [fr 4 1; fr 1 2; fr 2 1]]) M i
                        +:+ salto) <$> [0; 1])) ∧
       Z.of_nat (String.length
         (linea_de texto_ejemplo
            (matriz_de true [[fr 1 1; fr 10 1; fr 3 1];
                             [fr 4 1; fr 1 2; fr 2 1]]) M 1))
       = 3 * (M + 2) + 2 + 1.
Proof.
  destruct (str_alineado texto_ejemplo
              (matriz_de true [[fr 1 1; fr 10 1; fr 3 1];
                               [fr 4 1; fr 1 2; fr 2 1]]))
    as (M & Hrun & _ & _ & Hlen).
  - apply (matriz_de_bien_formada _ _ 3%nat); [|done]. repeat constructor.
  - reflexivity.
  - reflexivity.
  - exists M. split; [exact Hrun|]. apply (Hlen 1). by (cbn; lia).
Defined.

(** X24. [__str__] on a matrix without entries, that is with no rows or
    no columns, raises ValueError: the longest text is the [max] of an
    empty sequence. *)
Theorem str_sin_entradas (texto : Fraction → string) (A : Matriz) :
  filas A ≤ 0 ∨ columnas A ≤ 0 → __str__ texto A = Lanza ValueError.
Proof. apply str_vacia. Qed.

Lemma str_sin_entradas_testigo :
  __str__ texto_ejemplo (__init__ false 2 0 None) = Lanza ValueError.
Proof.
  apply (str_sin_entradas texto_ejemplo (__init__ false 2 0 None)).
  right. reflexivity.
Defined.

(** X25. With one or two columns [__str__] writes an augmented matrix
    as it writes the matrix that is not augmented: the test for the
    first column comes before the test for the column left of the
    bar. *)
Theorem str_dos_columnas (texto : Fraction → string) (aum : bool)
    (f c : Z) (v : rejilla) :
  c ≤ 2 →
  __str__ texto (MkMatriz aum f c v) = __str__ texto (MkMatriz false f c v).
Proof.
  intros Hc. unfold __str__. simpl.
  destruct (mapM _ _) as [longitudes|e]; [|done]. simpl.
  destruct (py_max longitudes) as [M|e]; [|done]. simpl.
  apply para_ext. intros i t _. f_equal.
  apply para_ext. intros j u Hj%elem_of_rango.
  destruct (leer v i j) as [x|e]; [|done]. simpl.
  by rewrite celda_dos_columnas.
Qed.

Lemma str_dos_columnas_testigo :
  __str__ texto_ejemplo B_ejemplo
  = __str__ texto_ejemplo
      (MkMatriz false (filas B_ejemplo) (columnas B_ejemplo)
         (valores B_ejemplo)).
Proof.
  apply (str_dos_columnas texto_ejemplo true 2 2 (valores B_ejemplo)). lia.
Defined.
